(** * vtkImageReader2: a shallow embedding of IO/Image/vtkImageReader2.cxx

    The reader object is a record of its member variables, every member
    function is a state transformer over that record and a chronological
    trace of the effects it has on the outside (messages of the VTK error
    macros, file-system probes, stream operations, rows delivered to the
    output buffer).  Fixed-width C integers are integers of [Z] with the
    conversions between widths written out; the two C arrays [DataExtent]
    and [DataIncrements] are vectors of the declared length. *)

From Stdlib Require Import ZArith Lia Ascii String DecimalString.
From stdpp Require Import base list vector.

Local Open Scope Z_scope.

(** ** Fixed-width integers (LP64: [int] has 32 bits, [long] has 64)

    Values are integers of [Z].  Every conversion of the C++ is written
    as one of the functions below, and [unsigned long] sums and products
    wrap.  Sums, differences and products of [int] wrap as well, to 32 bits
    in two's complement: C++ leaves signed overflow undefined, and this is
    the result that the compiled code gives.  A [long] difference that is
    narrowed to [int] at once is written without its own wrap, which the
    narrowing absorbs. *)

Module CInt.

Definition INT_BITS : Z := 32.
Definition LONG_BITS : Z := 64.

(** Value of an integer after conversion to an unsigned type of [bits]
    bits. *)
Definition wrap_unsigned (bits z : Z) : Z := z mod 2 ^ bits.

(** Value of an integer after conversion to a signed type of [bits]
    bits (two's complement narrowing). *)
Definition wrap_signed (bits z : Z) : Z :=
  let r := z mod 2 ^ bits in
  if r <? 2 ^ (bits - 1) then r else r - 2 ^ bits.

Definition to_ulong : Z -> Z := wrap_unsigned LONG_BITS.
Definition to_long : Z -> Z := wrap_signed LONG_BITS.
Definition to_int : Z -> Z := wrap_signed INT_BITS.

Definition ULONG_MAX : Z := 2 ^ LONG_BITS - 1.
Definition INT_MAX : Z := 2 ^ (INT_BITS - 1) - 1.
Definition INT_MIN : Z := - 2 ^ (INT_BITS - 1).

(** [unsigned long] arithmetic. *)
Definition ul_add (a b : Z) : Z := to_ulong (a + b).
Definition ul_mul (a b : Z) : Z := to_ulong (a * b).

(** [int] arithmetic. *)
Definition int_add (a b : Z) : Z := to_int (a + b).
Definition int_sub (a b : Z) : Z := to_int (a - b).
Definition int_mul (a b : Z) : Z := to_int (a * b).

End CInt.
Export CInt.

(** ** The outside of the reader *)

(** Arguments handed to [snprintf] after the format. *)
Inductive PrintfArg : Type :=
  | ArgStr (s : string)
  | ArgInt (n : Z).

(** A [vtkStringArray*] is the address of the array object; the contents
    live outside the reader and are owned by the caller. *)
Definition StringArrayPtr : Type := positive.

(** What the reader consults but does not own.  [snprintf] is the C
    library's, [env_stat] is [vtksys::SystemTools::Stat] (the size of the
    file when the call succeeds), [env_open] is the opening of a
    [vtksys::ifstream] for reading (the bytes of the file when the stream
    opens), [env_strings] gives the current values of every
    [vtkStringArray], and [env_abort n] is the value of the [AbortExecute]
    flag seen when [n] rows have been started. *)
Record Env : Type := {
  env_stat : string -> option Z;
  env_open : string -> option (list Byte.byte);
  env_snprintf : nat -> string -> list PrintfArg -> string;
  env_strings : StringArrayPtr -> list string;
  env_abort : Z -> bool
}.

(** [vtksys::ifstream]: the bytes behind the stream, the get position and
    the fail bit. *)
Record Stream : Type := {
  st_bytes : list Byte.byte;
  st_pos : Z;
  st_fail : bool
}.

(** Effects visible outside the object, in the order they happen. *)
Inductive Event : Type :=
  | EvError (msg : string)
  | EvWarning (msg : string)
  | EvModified
  | EvStat (path : option string)
  | EvOpen (path : option string)
  | EvClose
  | EvSeek (off : Z)
  | EvRead (dst : Z) (bytes : list Byte.byte)
  | EvProgress (count target : Z)
  | EvUndefined (what : string).

(** ** The object *)

Record Reader : Type := {
  FileName : option string;
  FilePrefix : option string;
  FilePattern : option string;
  FileNames : option StringArrayPtr;
  InternalFileName : option string;
  File : option Stream;
  DataScalarType : Z;
  NumberOfScalarComponents : Z;
  DataExtent : vec Z 6;
  DataIncrements : vec Z 4;
  MemoryBuffer : option positive;
  MemoryBufferLength : Z;
  HeaderSize : Z;
  ManualHeaderSize : Z;
  FileNameSliceOffset : Z;
  FileNameSliceSpacing : Z;
  SwapBytes : Z;
  FileLowerLeft : Z;
  FileDimensionality : Z;
  ErrorCode : Z
}.

Definition with_FileName (v : option string) (r : Reader) : Reader :=
  {| FileName := v; FilePrefix := FilePrefix r; FilePattern := FilePattern r;
     FileNames := FileNames r; InternalFileName := InternalFileName r;
     File := File r; DataScalarType := DataScalarType r;
     NumberOfScalarComponents := NumberOfScalarComponents r;
     DataExtent := DataExtent r; DataIncrements := DataIncrements r;
     MemoryBuffer := MemoryBuffer r; MemoryBufferLength := MemoryBufferLength r;
     HeaderSize := HeaderSize r; ManualHeaderSize := ManualHeaderSize r;
     FileNameSliceOffset := FileNameSliceOffset r;
     FileNameSliceSpacing := FileNameSliceSpacing r;
     SwapBytes := SwapBytes r; FileLowerLeft := FileLowerLeft r;
     FileDimensionality := FileDimensionality r; ErrorCode := ErrorCode r |}.

Definition with_FilePrefix (v : option string) (r : Reader) : Reader :=
  {| FileName := FileName r; FilePrefix := v; FilePattern := FilePattern r;
     FileNames := FileNames r; InternalFileName := InternalFileName r;
     File := File r; DataScalarType := DataScalarType r;
     NumberOfScalarComponents := NumberOfScalarComponents r;
     DataExtent := DataExtent r; DataIncrements := DataIncrements r;
     MemoryBuffer := MemoryBuffer r; MemoryBufferLength := MemoryBufferLength r;
     HeaderSize := HeaderSize r; ManualHeaderSize := ManualHeaderSize r;
     FileNameSliceOffset := FileNameSliceOffset r;
     FileNameSliceSpacing := FileNameSliceSpacing r;
     SwapBytes := SwapBytes r; FileLowerLeft := FileLowerLeft r;
     FileDimensionality := FileDimensionality r; ErrorCode := ErrorCode r |}.

Definition with_FilePattern (v : option string) (r : Reader) : Reader :=
  {| FileName := FileName r; FilePrefix := FilePrefix r; FilePattern := v;
     FileNames := FileNames r; InternalFileName := InternalFileName r;
     File := File r; DataScalarType := DataScalarType r;
     NumberOfScalarComponents := NumberOfScalarComponents r;
     DataExtent := DataExtent r; DataIncrements := DataIncrements r;
     MemoryBuffer := MemoryBuffer r; MemoryBufferLength := MemoryBufferLength r;
     HeaderSize := HeaderSize r; ManualHeaderSize := ManualHeaderSize r;
     FileNameSliceOffset := FileNameSliceOffset r;
     FileNameSliceSpacing := FileNameSliceSpacing r;
     SwapBytes := SwapBytes r; FileLowerLeft := FileLowerLeft r;
     FileDimensionality := FileDimensionality r; ErrorCode := ErrorCode r |}.

Definition with_FileNames (v : option StringArrayPtr) (r : Reader) : Reader :=
  {| FileName := FileName r; FilePrefix := FilePrefix r;
     FilePattern := FilePattern r;
     FileNames := v; InternalFileName := InternalFileName r;
     File := File r; DataScalarType := DataScalarType r;
     NumberOfScalarComponents := NumberOfScalarComponents r;
     DataExtent := DataExtent r; DataIncrements := DataIncrements r;
     MemoryBuffer := MemoryBuffer r; MemoryBufferLength := MemoryBufferLength r;
     HeaderSize := HeaderSize r; ManualHeaderSize := ManualHeaderSize r;
     FileNameSliceOffset := FileNameSliceOffset r;
     FileNameSliceSpacing := FileNameSliceSpacing r;
     SwapBytes := SwapBytes r; FileLowerLeft := FileLowerLeft r;
     FileDimensionality := FileDimensionality r; ErrorCode := ErrorCode r |}.

Definition with_InternalFileName (v : option string) (r : Reader) : Reader :=
  {| FileName := FileName r; FilePrefix := FilePrefix r;
     FilePattern := FilePattern r;
     FileNames := FileNames r; InternalFileName := v;
     File := File r; DataScalarType := DataScalarType r;
     NumberOfScalarComponents := NumberOfScalarComponents r;
     DataExtent := DataExtent r; DataIncrements := DataIncrements r;
     MemoryBuffer := MemoryBuffer r; MemoryBufferLength := MemoryBufferLength r;
     HeaderSize := HeaderSize r; ManualHeaderSize := ManualHeaderSize r;
     FileNameSliceOffset := FileNameSliceOffset r;
     FileNameSliceSpacing := FileNameSliceSpacing r;
     SwapBytes := SwapBytes r; FileLowerLeft := FileLowerLeft r;
     FileDimensionality := FileDimensionality r; ErrorCode := ErrorCode r |}.

Definition with_File (v : option Stream) (r : Reader) : Reader :=
  {| FileName := FileName r; FilePrefix := FilePrefix r;
     FilePattern := FilePattern r;
     FileNames := FileNames r; InternalFileName := InternalFileName r;
     File := v; DataScalarType := DataScalarType r;
     NumberOfScalarComponents := NumberOfScalarComponents r;
     DataExtent := DataExtent r; DataIncrements := DataIncrements r;
     MemoryBuffer := MemoryBuffer r; MemoryBufferLength := MemoryBufferLength r;
     HeaderSize := HeaderSize r; ManualHeaderSize := ManualHeaderSize r;
     FileNameSliceOffset := FileNameSliceOffset r;
     FileNameSliceSpacing := FileNameSliceSpacing r;
     SwapBytes := SwapBytes r; FileLowerLeft := FileLowerLeft r;
     FileDimensionality := FileDimensionality r; ErrorCode := ErrorCode r |}.

Definition with_DataScalarType (v : Z) (r : Reader) : Reader :=
  {| FileName := FileName r; FilePrefix := FilePrefix r;
     FilePattern := FilePattern r;
     FileNames := FileNames r; InternalFileName := InternalFileName r;
     File := File r; DataScalarType := v;
     NumberOfScalarComponents := NumberOfScalarComponents r;
     DataExtent := DataExtent r; DataIncrements := DataIncrements r;
     MemoryBuffer := MemoryBuffer r; MemoryBufferLength := MemoryBufferLength r;
     HeaderSize := HeaderSize r; ManualHeaderSize := ManualHeaderSize r;
     FileNameSliceOffset := FileNameSliceOffset r;
     FileNameSliceSpacing := FileNameSliceSpacing r;
     SwapBytes := SwapBytes r; FileLowerLeft := FileLowerLeft r;
     FileDimensionality := FileDimensionality r; ErrorCode := ErrorCode r |}.

Definition with_DataExtent (v : vec Z 6) (r : Reader) : Reader :=
  {| FileName := FileName r; FilePrefix := FilePrefix r;
     FilePattern := FilePattern r;
     FileNames := FileNames r; InternalFileName := InternalFileName r;
     File := File r; DataScalarType := DataScalarType r;
     NumberOfScalarComponents := NumberOfScalarComponents r;
     DataExtent := v; DataIncrements := DataIncrements r;
     MemoryBuffer := MemoryBuffer r; MemoryBufferLength := MemoryBufferLength r;
     HeaderSize := HeaderSize r; ManualHeaderSize := ManualHeaderSize r;
     FileNameSliceOffset := FileNameSliceOffset r;
     FileNameSliceSpacing := FileNameSliceSpacing r;
     SwapBytes := SwapBytes r; FileLowerLeft := FileLowerLeft r;
     FileDimensionality := FileDimensionality r; ErrorCode := ErrorCode r |}.

Definition with_DataIncrements (v : vec Z 4) (r : Reader) : Reader :=
  {| FileName := FileName r; FilePrefix := FilePrefix r;
     FilePattern := FilePattern r;
     FileNames := FileNames r; InternalFileName := InternalFileName r;
     File := File r; DataScalarType := DataScalarType r;
     NumberOfScalarComponents := NumberOfScalarComponents r;
     DataExtent := DataExtent r; DataIncrements := v;
     MemoryBuffer := MemoryBuffer r; MemoryBufferLength := MemoryBufferLength r;
     HeaderSize := HeaderSize r; ManualHeaderSize := ManualHeaderSize r;
     FileNameSliceOffset := FileNameSliceOffset r;
     FileNameSliceSpacing := FileNameSliceSpacing r;
     SwapBytes := SwapBytes r; FileLowerLeft := FileLowerLeft r;
     FileDimensionality := FileDimensionality r; ErrorCode := ErrorCode r |}.

Definition with_MemoryBuffer (v : option positive) (r : Reader) : Reader :=
  {| FileName := FileName r; FilePrefix := FilePrefix r;
     FilePattern := FilePattern r;
     FileNames := FileNames r; InternalFileName := InternalFileName r;
     File := File r; DataScalarType := DataScalarType r;
     NumberOfScalarComponents := NumberOfScalarComponents r;
     DataExtent := DataExtent r; DataIncrements := DataIncrements r;
     MemoryBuffer := v; MemoryBufferLength := MemoryBufferLength r;
     HeaderSize := HeaderSize r; ManualHeaderSize := ManualHeaderSize r;
     FileNameSliceOffset := FileNameSliceOffset r;
     FileNameSliceSpacing := FileNameSliceSpacing r;
     SwapBytes := SwapBytes r; FileLowerLeft := FileLowerLeft r;
     FileDimensionality := FileDimensionality r; ErrorCode := ErrorCode r |}.

Definition with_MemoryBufferLength (v : Z) (r : Reader) : Reader :=
  {| FileName := FileName r; FilePrefix := FilePrefix r;
     FilePattern := FilePattern r;
     FileNames := FileNames r; InternalFileName := InternalFileName r;
     File := File r; DataScalarType := DataScalarType r;
     NumberOfScalarComponents := NumberOfScalarComponents r;
     DataExtent := DataExtent r; DataIncrements := DataIncrements r;
     MemoryBuffer := MemoryBuffer r; MemoryBufferLength := v;
     HeaderSize := HeaderSize r; ManualHeaderSize := ManualHeaderSize r;
     FileNameSliceOffset := FileNameSliceOffset r;
     FileNameSliceSpacing := FileNameSliceSpacing r;
     SwapBytes := SwapBytes r; FileLowerLeft := FileLowerLeft r;
     FileDimensionality := FileDimensionality r; ErrorCode := ErrorCode r |}.

Definition with_HeaderSize (v : Z) (r : Reader) : Reader :=
  {| FileName := FileName r; FilePrefix := FilePrefix r;
     FilePattern := FilePattern r;
     FileNames := FileNames r; InternalFileName := InternalFileName r;
     File := File r; DataScalarType := DataScalarType r;
     NumberOfScalarComponents := NumberOfScalarComponents r;
     DataExtent := DataExtent r; DataIncrements := DataIncrements r;
     MemoryBuffer := MemoryBuffer r; MemoryBufferLength := MemoryBufferLength r;
     HeaderSize := v; ManualHeaderSize := ManualHeaderSize r;
     FileNameSliceOffset := FileNameSliceOffset r;
     FileNameSliceSpacing := FileNameSliceSpacing r;
     SwapBytes := SwapBytes r; FileLowerLeft := FileLowerLeft r;
     FileDimensionality := FileDimensionality r; ErrorCode := ErrorCode r |}.

Definition with_ManualHeaderSize (v : Z) (r : Reader) : Reader :=
  {| FileName := FileName r; FilePrefix := FilePrefix r;
     FilePattern := FilePattern r;
     FileNames := FileNames r; InternalFileName := InternalFileName r;
     File := File r; DataScalarType := DataScalarType r;
     NumberOfScalarComponents := NumberOfScalarComponents r;
     DataExtent := DataExtent r; DataIncrements := DataIncrements r;
     MemoryBuffer := MemoryBuffer r; MemoryBufferLength := MemoryBufferLength r;
     HeaderSize := HeaderSize r; ManualHeaderSize := v;
     FileNameSliceOffset := FileNameSliceOffset r;
     FileNameSliceSpacing := FileNameSliceSpacing r;
     SwapBytes := SwapBytes r; FileLowerLeft := FileLowerLeft r;
     FileDimensionality := FileDimensionality r; ErrorCode := ErrorCode r |}.

Definition with_ErrorCode (v : Z) (r : Reader) : Reader :=
  {| FileName := FileName r; FilePrefix := FilePrefix r;
     FilePattern := FilePattern r;
     FileNames := FileNames r; InternalFileName := InternalFileName r;
     File := File r; DataScalarType := DataScalarType r;
     NumberOfScalarComponents := NumberOfScalarComponents r;
     DataExtent := DataExtent r; DataIncrements := DataIncrements r;
     MemoryBuffer := MemoryBuffer r; MemoryBufferLength := MemoryBufferLength r;
     HeaderSize := HeaderSize r; ManualHeaderSize := ManualHeaderSize r;
     FileNameSliceOffset := FileNameSliceOffset r;
     FileNameSliceSpacing := FileNameSliceSpacing r;
     SwapBytes := SwapBytes r; FileLowerLeft := FileLowerLeft r;
     FileDimensionality := FileDimensionality r; ErrorCode := v |}.

(** Scalar type tags of vtkType.h used by the constructor. *)
Definition VTK_SHORT : Z := 4.

(** The constructor [vtkImageReader2::vtkImageReader2()].  The geometry
    members (origin, spacing, direction) are doubles that no member
    function below reads; they are left out of the record. *)
Definition vtkImageReader2_new : Reader :=
  {| FileName := None; FilePrefix := None; FilePattern := Some "%s.%d"%string;
     FileNames := None; InternalFileName := None; File := None;
     DataScalarType := VTK_SHORT; NumberOfScalarComponents := 1;
     DataExtent := [# 0; 0; 0; 0; 0; 0];
     DataIncrements := [# 1; 1; 1; 1];
     MemoryBuffer := None; MemoryBufferLength := 0;
     HeaderSize := 0; ManualHeaderSize := 0;
     FileNameSliceOffset := 0; FileNameSliceSpacing := 1;
     SwapBytes := 0; FileLowerLeft := 0; FileDimensionality := 2;
     ErrorCode := 0 |}.

(** ** Member functions as state transformers *)

(** The state threaded through a member function: the object and the
    trace of effects so far. *)
Record World : Type := mkWorld { self : Reader; trace : list Event }.

Definition M (A : Type) : Type := World -> A * World.

Definition ret {A} (a : A) : M A := fun w => (a, w).

Definition bind {A B} (m : M A) (k : A -> M B) : M B :=
  fun w => let '(a, w') := m w in k a w'.

Notation "x <-- m ;; k" := (bind m (fun x => k))
  (at level 100, m at next level, right associativity).
Notation "m ;;; k" := (bind m (fun _ => k))
  (at level 100, right associativity).

Definition this : M Reader := fun w => (self w, w).

Definition update (f : Reader -> Reader) : M unit :=
  fun w => (tt, mkWorld (f (self w)) (trace w)).

Definition emit (e : Event) : M unit :=
  fun w => (tt, mkWorld (self w) (trace w ++ [e])).

Definition when (b : bool) (m : M unit) : M unit :=
  if b then m else ret tt.

(** Run a member function on an object with an empty trace. *)
Definition run {A} (m : M A) (r : Reader) : A * World := m (mkWorld r []).
Definition result {A} (m : M A) (r : Reader) : A := fst (run m r).
Definition after {A} (m : M A) (r : Reader) : Reader := self (snd (run m r)).
Definition effects {A} (m : M A) (r : Reader) : list Event :=
  trace (snd (run m r)).

(** [this->Modified()]. *)
Definition Modified : M unit := emit EvModified.

(** [vtkErrorMacro], [vtkWarningMacro] and [vtkGenericWarningMacro], the
    warning that names no object. *)
Definition vtkErrorMacro (msg : string) : M unit := emit (EvError msg).
Definition vtkWarningMacro (msg : string) : M unit := emit (EvWarning msg).
Definition vtkGenericWarningMacro (msg : string) : M unit :=
  emit (EvWarning msg).

(** What [operator<<] writes into a message for a C string, for which a
    null pointer leaves nothing, and for an integer. *)
Definition cstring_text (p : option string) : string :=
  match p with
  | Some text => text
  | None => EmptyString
  end.

Definition decimal (z : Z) : string := NilZero.string_of_int (Z.to_int z).

Definition is_null {A} (p : option A) : bool :=
  match p with None => true | Some _ => false end.

Definition not_null {A} (p : option A) : bool := negb (is_null p).

(** [a && b && !strcmp(a, b)] on two nullable C strings. *)
Definition same_cstring (a b : option string) : bool :=
  match a, b with
  | Some x, Some y => String.eqb x y
  | _, _ => false
  end.

(** The scan of [ComputeInternalFileName] for a "%s" in the pattern:
    [FilePattern[i] == '%' && FilePattern[i + 1] == 's'] for some
    [i < len - 1]. *)
Fixpoint hasPercentS (pattern : string) : bool :=
  match pattern with
  | EmptyString => false
  | String c rest =>
      match rest with
      | EmptyString => false
      | String d _ =>
          if Ascii.eqb c "%"%char && Ascii.eqb d "s"%char then true
          else hasPercentS rest
      end
  end.

(** [vtkStringArray::GetNumberOfValues] and [vtkStringArray::GetValue] on
    the current contents of an array.  [GetValue] does not check its
    index; outside the array the model has no value. *)
Definition GetNumberOfValues (values : list string) : Z :=
  Z.of_nat (length values).

Definition GetValue (values : list string) (id : Z) : option string :=
  if id <? 0 then None else values !! Z.to_nat id.

(** Modelled from the spec: the scalar kinds that [vtkTemplateMacro]
    dispatches on and the [sizeof] of each (the macro of vtkSetGet.h and the
    type tags of vtkType.h are missing): 8, 16, 32 and 64-bit signed and
    unsigned integers and 32 and 64-bit floats.  [None] is the [default:]
    label. *)
Definition vtkTemplateMacro_sizeof (scalarType : Z) : option Z :=
  match scalarType with
  | 2 (* VTK_CHAR *) | 3 (* VTK_UNSIGNED_CHAR *) | 15 (* VTK_SIGNED_CHAR *) =>
      Some 1
  | 4 (* VTK_SHORT *) | 5 (* VTK_UNSIGNED_SHORT *) => Some 2
  | 6 (* VTK_INT *) | 7 (* VTK_UNSIGNED_INT *) | 10 (* VTK_FLOAT *) => Some 4
  | 8 (* VTK_LONG *) | 9 (* VTK_UNSIGNED_LONG *) | 11 (* VTK_DOUBLE *)
  | 12 (* VTK_ID_TYPE *) | 16 (* VTK_LONG_LONG *)
  | 17 (* VTK_UNSIGNED_LONG_LONG *) => Some 8
  | _ => None
  end.

(** The loop of [ComputeDataIncrements]: at [idx] the running length is
    stored in [DataIncrements[idx]] and multiplied by the size of the
    extent along that axis, [DataExtent[idx*2+1] - DataExtent[idx*2] + 1]
    (an [int], converted to [unsigned long] for the product). *)
Definition increments_axes : list (fin 4 * fin 6 * fin 6) :=
  [ (0%fin, 0%fin, 1%fin); (1%fin, 2%fin, 3%fin); (2%fin, 4%fin, 5%fin) ].

Definition increments_step (ext : vec Z 6) (acc : vec Z 4 * Z)
    (axis : fin 4 * fin 6 * fin 6) : vec Z 4 * Z :=
  let '(incs, fileDataLength) := acc in
  let '(idx, lo, hi) := axis in
  (vinsert idx fileDataLength incs,
   ul_mul fileDataLength
     (to_ulong (int_add (int_sub (ext !!! hi) (ext !!! lo)) 1))).

Definition increments_loop (ext : vec Z 6) (incs : vec Z 4)
    (fileDataLength : Z) : vec Z 4 :=
  let '(incs', fileDataLength') :=
    fold_left (increments_step ext) increments_axes (incs, fileDataLength) in
  vinsert 3%fin fileDataLength' incs'.

(** A read of [DataIncrements[d]] with an [int] index.  Outside [0..3] the
    C read is out of bounds; the model marks it and reads 0. *)
Definition increment_at (incs : vec Z 4) (d : Z) : Z :=
  default 0 (vec_to_list incs !! Z.to_nat d).

Definition DataIncrements_at (incs : vec Z 4) (d : Z) : M Z :=
  if (0 <=? d) && (d <? 4)
  then ret (increment_at incs d)
  else emit (EvUndefined "DataIncrements index out of bounds") ;;; ret 0.

(** [std::istream::seekg(off, ios::beg)], [std::istream::read] and
    [std::istream::tellg]: a stream whose fail bit is set ignores the
    first two and answers -1 to the third; a negative offset sets the fail
    bit; a read that cannot deliver [n] bytes delivers what is there and
    sets the fail bit. *)
Definition seekg (f : Stream) (off : Z) : Stream :=
  if st_fail f then f
  else if off <? 0
  then {| st_bytes := st_bytes f; st_pos := st_pos f; st_fail := true |}
  else {| st_bytes := st_bytes f; st_pos := off; st_fail := false |}.

Definition tellg (f : Stream) : Z :=
  if st_fail f then -1 else st_pos f.

Definition read (f : Stream) (n : Z) : list Byte.byte * Stream :=
  if st_fail f then ([], f)
  else
    let got := take (Z.to_nat n) (drop (Z.to_nat (st_pos f)) (st_bytes f)) in
    (got,
     {| st_bytes := st_bytes f;
        st_pos := st_pos f + Z.of_nat (length got);
        st_fail := negb (Z.of_nat (length got) =? n) |}).

(** Modelled from the spec: [vtkByteSwap::SwapVoidRange] (vtkByteSwap.cxx
    is missing) reverses the byte order within each of [num] elements of
    [size] bytes. *)
Fixpoint SwapVoidRange (bytes : list Byte.byte) (num size : nat)
    : list Byte.byte :=
  match num with
  | O => bytes
  | S num' =>
      rev (take size bytes) ++ SwapVoidRange (drop size bytes) num' size
  end.

(** The text of the warning of [vtkImageReader2Update] for a row that
    could not be read. *)
Definition short_read_message (row streamRead filePos : Z) : string :=
  "File operation failed. row = " ++ decimal row
  ++ ", Read = " ++ decimal streamRead
  ++ ", FilePos = " ++ decimal filePos.

(** The output [vtkImageData] as far as the read loop looks at it: its
    extent, its increments in elements and its number of components. *)
Record ImageData : Type := {
  img_Extent : vec Z 6;
  img_Increments : vec Z 3;
  img_NumberOfScalarComponents : Z
}.

Section Members.

Variable env : Env.

(** [vtksys::SystemTools::Stat] on a [const char *] path; a null path
    fails. *)
Definition Stat (path : option string) : M (option Z) :=
  emit (EvStat path) ;;;
  ret (match path with
       | Some p => env_stat env p
       | None => None
       end).

(** [void vtkImageReader2::ComputeInternalFileName(int slice)].  The
    [snprintf] calls with format "%s" and a buffer ten bytes longer than
    the name copy the name. *)
Definition ComputeInternalFileName (slice : Z) : M unit :=
  update (with_InternalFileName None) ;;;
  r <-- this ;;
  if is_null (FileName r) && is_null (FilePattern r) && is_null (FileNames r)
  then
    vtkErrorMacro
      "Either a FileName, FileNames, or FilePattern must be specified."
  else
    match FileNames r with
    | Some a =>
        match GetValue (env_strings env a) slice with
        | Some filename => update (with_InternalFileName (Some filename))
        | None => emit (EvUndefined "FileNames->GetValue out of range")
        end
    | None =>
        match FileName r with
        | Some name => update (with_InternalFileName (Some name))
        | None =>
            let slicenum :=
              int_add (int_mul slice (FileNameSliceSpacing r))
                (FileNameSliceOffset r) in
            match FilePrefix r, FilePattern r with
            | Some prefix, Some pattern =>
                let size :=
                  (String.length prefix + String.length pattern + 10)%nat in
                update (with_InternalFileName
                  (Some (env_snprintf env size pattern
                           [ArgStr prefix; ArgInt slicenum])))
            | None, Some pattern =>
                let size := (String.length pattern + 10)%nat in
                if hasPercentS pattern
                then
                  update (with_InternalFileName
                    (Some (env_snprintf env size pattern
                             [ArgStr EmptyString; ArgInt slicenum])))
                else
                  update (with_InternalFileName
                    (Some (env_snprintf env size pattern
                             [ArgInt slicenum])))
            | _, None => update (with_InternalFileName None)
            end
        end
    end.

(** [void vtkImageReader2::SetFileName(const char* name)]. *)
Definition SetFileName (name : option string) : M unit :=
  r <-- this ;;
  if same_cstring (FileName r) name then ret tt
  else if is_null name && is_null (FileName r) then ret tt
  else
    update (with_FileName None) ;;;
    match name with
    | Some n =>
        update (with_FileName (Some n)) ;;;
        update (with_FilePrefix None) ;;;
        update (with_FileNames None)
    | None => ret tt
    end ;;;
    Modified.

(** [void vtkImageReader2::SetFileNames(vtkStringArray* filenames)].  The
    first test compares the two pointers. *)
Definition SetFileNames (filenames : option StringArrayPtr) : M unit :=
  r <-- this ;;
  if bool_decide (filenames = FileNames r) then ret tt
  else
    when (not_null (FileNames r)) (update (with_FileNames None)) ;;;
    match filenames with
    | Some a =>
        update (with_FileNames (Some a)) ;;;
        let n := GetNumberOfValues (env_strings env a) in
        when (0 <? n)
          (update (fun r => with_DataExtent
                              (vinsert 4%fin 0 (DataExtent r)) r) ;;;
           update (fun r => with_DataExtent
                              (vinsert 5%fin (to_int (n - 1)) (DataExtent r))
                              r)) ;;;
        update (with_FilePrefix None) ;;;
        update (with_FileName None)
    | None => ret tt
    end ;;;
    Modified.

(** [void vtkImageReader2::SetFilePrefix(const char* prefix)]. *)
Definition SetFilePrefix (prefix : option string) : M unit :=
  r <-- this ;;
  if same_cstring (FilePrefix r) prefix then ret tt
  else if is_null prefix && is_null (FilePrefix r) then ret tt
  else
    update (with_FilePrefix None) ;;;
    match prefix with
    | Some p =>
        update (with_FilePrefix (Some p)) ;;;
        update (with_FileName None) ;;;
        update (with_FileNames None)
    | None => ret tt
    end ;;;
    Modified.

(** [void vtkImageReader2::SetFilePattern(const char* pattern)]. *)
Definition SetFilePattern (pattern : option string) : M unit :=
  r <-- this ;;
  if same_cstring (FilePattern r) pattern then ret tt
  else if is_null pattern && is_null (FilePattern r) then ret tt
  else
    update (with_FilePattern None) ;;;
    match pattern with
    | Some p =>
        update (with_FilePattern (Some p)) ;;;
        update (with_FileName None) ;;;
        update (with_FileNames None)
    | None => ret tt
    end ;;;
    Modified.

(** [int vtkImageReader2::RequestInformation(...)], for the base class,
    whose [ExecuteInformation] is empty; the copies of the members into
    the output information object do not touch the reader. *)
Definition RequestInformation : M Z :=
  update (with_ErrorCode 0) ;;;
  r <-- this ;;
  if negb (ErrorCode r =? 0) then ret 0
  else
    match FileNames r with
    | Some a =>
        let n := GetNumberOfValues (env_strings env a) in
        when (0 <? n)
          (update (fun r => with_DataExtent
                              (vinsert 4%fin 0 (DataExtent r)) r) ;;;
           update (fun r => with_DataExtent
                              (vinsert 5%fin (to_int (n - 1)) (DataExtent r))
                              r))
    | None => ret tt
    end ;;;
    ret 1.

(** [void vtkImageReader2::SetHeaderSize(unsigned long size)]. *)
Definition SetHeaderSize (size : Z) : M unit :=
  r <-- this ;;
  when (negb (size =? HeaderSize r))
    (update (with_HeaderSize size) ;;; Modified) ;;;
  update (with_ManualHeaderSize 1).

(** [void vtkImageReader2::ComputeDataIncrements()]. *)
Definition ComputeDataIncrements : M unit :=
  r <-- this ;;
  match vtkTemplateMacro_sizeof (DataScalarType r) with
  | None => vtkErrorMacro "Unknown DataScalarType"
  | Some size =>
      let fileDataLength :=
        ul_mul size (to_ulong (NumberOfScalarComponents r)) in
      update (with_DataIncrements
                (increments_loop (DataExtent r) (DataIncrements r)
                   fileDataLength))
  end.

(** [void vtkImageReader2::CloseFile()]. *)
Definition CloseFile : M unit :=
  r <-- this ;;
  when (not_null (File r)) (emit EvClose ;;; update (with_File None)).

(** [int vtkImageReader2::OpenFile()]. *)
Definition OpenFile : M Z :=
  r <-- this ;;
  if is_null (FileName r) && is_null (FilePattern r) && is_null (FileNames r)
  then
    vtkErrorMacro
      "Either a FileName, FileNames, or FilePattern must be specified." ;;;
    ret 0
  else
    CloseFile ;;;
    fs <-- Stat (InternalFileName r) ;;
    when (not_null fs)
      (emit (EvOpen (InternalFileName r)) ;;;
       update (with_File
         (Some match InternalFileName r ≫= env_open env with
               | Some bytes =>
                   {| st_bytes := bytes; st_pos := 0; st_fail := false |}
               | None => {| st_bytes := []; st_pos := 0; st_fail := true |}
               end))) ;;;
    r' <-- this ;;
    match File r' with
    | Some f =>
        if st_fail f
        then
          vtkErrorMacro
            ("Initialize: Could not open file "
             ++ cstring_text (InternalFileName r')) ;;;
          ret 0
        else ret 1
    | None =>
        vtkErrorMacro
          ("Initialize: Could not open file "
           ++ cstring_text (InternalFileName r')) ;;;
        ret 0
    end.

(** [unsigned long vtkImageReader2::GetHeaderSize(unsigned long idx)]. *)
Definition GetHeaderSize (idx : Z) : M Z :=
  r <-- this ;;
  if is_null (FileName r) && is_null (FilePattern r)
  then
    vtkErrorMacro "Either a FileName or FilePattern must be specified." ;;;
    ret 0
  else if ManualHeaderSize r =? 0
  then
    ComputeDataIncrements ;;;
    ComputeInternalFileName (to_int idx) ;;;
    r1 <-- this ;;
    statbuf <-- Stat (InternalFileName r1) ;;
    match statbuf with
    | Some st_size =>
        inc <-- DataIncrements_at (DataIncrements r1)
                  (FileDimensionality r1) ;;
        ret (to_ulong (to_int (st_size - to_long inc)))
    | None => ret (HeaderSize r1)
    end
  else ret (HeaderSize r).

(** [unsigned long vtkImageReader2::GetHeaderSize()]. *)
Definition GetHeaderSize_first : M Z :=
  r <-- this ;;
  let firstIdx :=
    if not_null (FileNames r) then 0 else to_ulong (DataExtent r !!! 4%fin)
  in
  GetHeaderSize firstIdx.

(** The first half of [vtkImageReader2::SeekFile]: the value of
    [streamStart] once the header size has been added. *)
Definition SeekFile_streamStart (i j k : Z) : M Z :=
  r <-- this ;;
  let ext := DataExtent r in
  let inc := DataIncrements r in
  let streamStart :=
    ul_mul (to_ulong (int_sub i (ext !!! 0%fin))) (inc !!! 0%fin) in
  let streamStart :=
    if negb (FileLowerLeft r =? 0)
    then ul_add streamStart
           (ul_mul (to_ulong (int_sub j (ext !!! 2%fin))) (inc !!! 1%fin))
    else ul_add streamStart
           (ul_mul
              (to_ulong
                 (int_sub (int_sub (ext !!! 3%fin) (ext !!! 2%fin)) j))
              (inc !!! 1%fin)) in
  let streamStart :=
    if 3 <=? FileDimensionality r
    then ul_add streamStart
           (ul_mul (to_ulong (int_sub k (ext !!! 4%fin))) (inc !!! 2%fin))
    else streamStart in
  header <-- GetHeaderSize (to_ulong k) ;;
  ret (ul_add streamStart header).

(** [void vtkImageReader2::SeekFile(int i, int j, int k)]. *)
Definition SeekFile (i j k : Z) : M unit :=
  streamStart <-- SeekFile_streamStart i j k ;;
  r <-- this ;;
  match File r with
  | None => vtkWarningMacro "File must be specified."
  | Some f =>
      let f' := seekg f (to_long streamStart) in
      emit (EvSeek (to_long streamStart)) ;;;
      update (with_File (Some f')) ;;;
      when (st_fail f') (vtkWarningMacro "File operation failed.")
  end.

(** The loop over the rows of one slice in [vtkImageReader2Update].
    [outPtr1] is the position of the destination row in the output buffer,
    in elements from [outPtr]; the result is [None] when the function has
    returned from inside the loop and the value of [count] otherwise. *)
Fixpoint read_rows (outExtent0 streamRead target : Z)
    (swap : option (nat * nat)) (outIncr1 idx2 : Z) (rows : list Z)
    (outPtr1 count : Z) : M (option Z) :=
  match rows with
  | [] => ret (Some count)
  | idx1 :: rows' =>
      if env_abort env count then ret (Some count)
      else
        when (count mod target =? 0) (emit (EvProgress count target)) ;;;
        let count := ul_add count 1 in
        SeekFile outExtent0 idx1 idx2 ;;;
        r <-- this ;;
        match File r with
        | None => emit (EvUndefined "GetFile() is null") ;;; ret None
        | Some f =>
            let '(got, f') := read f streamRead in
            update (with_File (Some f')) ;;;
            if st_fail f'
            then
              emit (EvRead outPtr1 got) ;;;
              vtkGenericWarningMacro
                (short_read_message idx1 streamRead (tellg f')) ;;;
              ret None
            else
              emit (EvRead outPtr1
                      match swap with
                      | Some (num, size) => SwapVoidRange got num size
                      | None => got
                      end) ;;;
              read_rows outExtent0 streamRead target swap outIncr1 idx2
                rows' (outPtr1 + outIncr1) count
        end
  end.

(** The loop over the slices in [vtkImageReader2Update]. *)
Fixpoint read_slices (outExtent0 streamRead target : Z)
    (swap : option (nat * nat)) (outIncr1 outIncr2 : Z) (rows : list Z)
    (slices : list Z) (outPtr2 count : Z) : M unit :=
  match slices with
  | [] => ret tt
  | idx2 :: slices' =>
      r <-- this ;;
      opened <--
        (if FileDimensionality r =? 2
         then ComputeInternalFileName idx2 ;;; OpenFile
         else ret 1) ;;
      if opened =? 0 then ret tt
      else
        rows_done <--
          read_rows outExtent0 streamRead target swap outIncr1 idx2 rows
            outPtr2 count ;;
        match rows_done with
        | None => ret tt
        | Some count' =>
            read_slices outExtent0 streamRead target swap outIncr1 outIncr2
              rows slices' (outPtr2 + outIncr2) count'
        end
  end.

(** [template <class OT> void vtkImageReader2Update(self, data, outPtr)],
    with [sizeofOT] for [sizeof(OT)].  [target] is the number of rows
    divided by [50.0], truncated. *)
Definition vtkImageReader2Update (data : ImageData) (sizeofOT : Z) : M unit :=
  let outExtent := img_Extent data in
  let outIncr := img_Increments data in
  let nComponents := img_NumberOfScalarComponents data in
  let pixelRead :=
    int_add (int_sub (outExtent !!! 1%fin) (outExtent !!! 0%fin)) 1 in
  let streamRead :=
    to_long (ul_mul (to_ulong (int_mul pixelRead nComponents)) sizeofOT) in
  let target :=
    ul_add
      (to_ulong
         (Z.quot
            (int_mul
               (int_add
                  (int_sub (outExtent !!! 5%fin) (outExtent !!! 4%fin)) 1)
               (int_add
                  (int_sub (outExtent !!! 3%fin) (outExtent !!! 2%fin)) 1))
            50)) 1 in
  r <-- this ;;
  opened <--
    (if FileDimensionality r =? 3
     then ComputeInternalFileName 0 ;;; OpenFile
     else ret 1) ;;
  if opened =? 0 then ret tt
  else
    let swap :=
      if negb (SwapBytes r =? 0) && (1 <? sizeofOT)
      then Some (Z.to_nat (to_ulong (int_mul pixelRead nComponents)),
                 Z.to_nat sizeofOT)
      else None in
    read_slices (outExtent !!! 0%fin) streamRead target swap
      (outIncr !!! 1%fin) (outIncr !!! 2%fin)
      (seqZ (outExtent !!! 2%fin)
         (outExtent !!! 3%fin - outExtent !!! 2%fin + 1))
      (seqZ (outExtent !!! 4%fin)
         (outExtent !!! 5%fin - outExtent !!! 4%fin + 1))
      0 0.

(** [void vtkImageReader2::ExecuteDataWithInformation(output, outInfo)];
    [data] is the image that [AllocateOutputData] hands back. *)
Definition ExecuteDataWithInformation (data : ImageData) : M unit :=
  r <-- this ;;
  if is_null (FileName r) && is_null (FilePattern r)
  then
    vtkErrorMacro "Either a valid FileName or FilePattern must be specified."
  else
    ComputeDataIncrements ;;;
    r' <-- this ;;
    match vtkTemplateMacro_sizeof (DataScalarType r') with
    | Some sizeofOT => vtkImageReader2Update data sizeofOT
    | None => vtkErrorMacro "UpdateFromFile: Unknown data type"
    end.

(** [void vtkImageReader2::SetMemoryBuffer(const void* membuf)]. *)
Definition SetMemoryBuffer (membuf : option positive) : M unit :=
  r <-- this ;;
  when (negb (bool_decide (MemoryBuffer r = membuf)))
    (update (with_MemoryBuffer membuf) ;;; Modified).

(** [void vtkImageReader2::SetMemoryBufferLength(vtkIdType buflen)]. *)
Definition SetMemoryBufferLength (buflen : Z) : M unit :=
  r <-- this ;;
  when (negb (MemoryBufferLength r =? buflen))
    (update (with_MemoryBufferLength buflen) ;;; Modified).

(** [void vtkImageReader2::SetDataScalarType(int type)]; the last line of
    the C++ sets the scalar type of the output information, outside the
    reader. *)
Definition SetDataScalarType (type : Z) : M unit :=
  r <-- this ;;
  if type =? DataScalarType r then ret tt
  else Modified ;;; update (with_DataScalarType type).

End Members.

(** ** The byte order of the file *)

Definition with_SwapBytes (v : Z) (r : Reader) : Reader :=
  {| FileName := FileName r; FilePrefix := FilePrefix r;
     FilePattern := FilePattern r;
     FileNames := FileNames r; InternalFileName := InternalFileName r;
     File := File r; DataScalarType := DataScalarType r;
     NumberOfScalarComponents := NumberOfScalarComponents r;
     DataExtent := DataExtent r; DataIncrements := DataIncrements r;
     MemoryBuffer := MemoryBuffer r; MemoryBufferLength := MemoryBufferLength r;
     HeaderSize := HeaderSize r; ManualHeaderSize := ManualHeaderSize r;
     FileNameSliceOffset := FileNameSliceOffset r;
     FileNameSliceSpacing := FileNameSliceSpacing r;
     SwapBytes := v; FileLowerLeft := FileLowerLeft r;
     FileDimensionality := FileDimensionality r; ErrorCode := ErrorCode r |}.

(** Modelled from the spec: the class declaration, whose [vtkSetMacro] and
    [vtkBooleanMacro] lines generate [SetSwapBytes], [SwapBytesOn] and
    [SwapBytesOff], is missing.  The flag is the byte order of the spec,
    native or swapped, fixed when the reader is configured: the member is
    written, and the object marked modified, when the value changes;
    [SwapBytesOn] and [SwapBytesOff] write 1 and 0. *)
Definition SetSwapBytes (arg : Z) : M unit :=
  r <-- this ;;
  when (negb (SwapBytes r =? arg)) (update (with_SwapBytes arg) ;;; Modified).

Definition SwapBytesOn : M unit := SetSwapBytes 1.
Definition SwapBytesOff : M unit := SetSwapBytes 0.

(** The byte order functions depend on the build ([VTK_WORDS_BIGENDIAN] is
    defined on a big-endian platform) and on the two tags of the class
    declaration, which are taken as they come. *)
Section ByteOrder.

Variable VTK_WORDS_BIGENDIAN : bool.
Variable VTK_FILE_BYTE_ORDER_BIG_ENDIAN : Z.
Variable VTK_FILE_BYTE_ORDER_LITTLE_ENDIAN : Z.

(** [void vtkImageReader2::SetDataByteOrderToBigEndian()]. *)
Definition SetDataByteOrderToBigEndian : M unit :=
  if VTK_WORDS_BIGENDIAN then SwapBytesOff else SwapBytesOn.

(** [void vtkImageReader2::SetDataByteOrderToLittleEndian()]. *)
Definition SetDataByteOrderToLittleEndian : M unit :=
  if VTK_WORDS_BIGENDIAN then SwapBytesOn else SwapBytesOff.

(** [void vtkImageReader2::SetDataByteOrder(int byteOrder)]. *)
Definition SetDataByteOrder (byteOrder : Z) : M unit :=
  if byteOrder =? VTK_FILE_BYTE_ORDER_BIG_ENDIAN
  then SetDataByteOrderToBigEndian
  else SetDataByteOrderToLittleEndian.

(** [int vtkImageReader2::GetDataByteOrder()]. *)
Definition GetDataByteOrder : M Z :=
  r <-- this ;;
  if VTK_WORDS_BIGENDIAN
  then
    if negb (SwapBytes r =? 0)
    then ret VTK_FILE_BYTE_ORDER_LITTLE_ENDIAN
    else ret VTK_FILE_BYTE_ORDER_BIG_ENDIAN
  else
    if negb (SwapBytes r =? 0)
    then ret VTK_FILE_BYTE_ORDER_BIG_ENDIAN
    else ret VTK_FILE_BYTE_ORDER_LITTLE_ENDIAN.

(** [const char* vtkImageReader2::GetDataByteOrderAsString()]. *)
Definition GetDataByteOrderAsString : M string :=
  r <-- this ;;
  if VTK_WORDS_BIGENDIAN
  then
    if negb (SwapBytes r =? 0)
    then ret "LittleEndian"%string
    else ret "BigEndian"%string
  else
    if negb (SwapBytes r =? 0)
    then ret "BigEndian"%string
    else ret "LittleEndian"%string.

End ByteOrder.

(** [vtkImageReader2::~vtkImageReader2()]: the stream is closed and the
    names are given back. *)
Definition vtkImageReader2_delete : M unit :=
  CloseFile ;;;
  r <-- this ;;
  when (not_null (FileNames r)) (update (with_FileNames None)) ;;;
  update (with_FileName None) ;;;
  update (with_FilePrefix None) ;;;
  update (with_FilePattern None) ;;;
  update (with_InternalFileName None).

(** ** What the statements below talk about *)

(** Sizes of the extent along the three axes, [max - min + 1]. *)
Definition axisSize (ext : vec Z 6) (a : fin 3) : Z :=
  match fin_to_nat a with
  | 0%nat => ext !!! 1%fin - ext !!! 0%fin + 1
  | 1%nat => ext !!! 3%fin - ext !!! 2%fin + 1
  | _ => ext !!! 5%fin - ext !!! 4%fin + 1
  end.

(** [max >= min] along every axis. *)
Definition valid_extent (ext : vec Z 6) : Prop :=
  ext !!! 0%fin <= ext !!! 1%fin /\
  ext !!! 2%fin <= ext !!! 3%fin /\
  ext !!! 4%fin <= ext !!! 5%fin.

(** ** Example configurations and the vocabulary of the statements *)

(** A formatter for the example environments: [snprintf] as far as the
    conversions [%s], [%d] and [%%] go, keeping [size - 1] characters. *)
Fixpoint printf_format (pattern : string) (args : list PrintfArg) : string :=
  match pattern with
  | EmptyString => EmptyString
  | String c rest =>
      match rest with
      | String d rest' =>
          if Ascii.eqb c "%"%char then
            if Ascii.eqb d "s"%char then
              match args with
              | ArgStr s :: args' => (s ++ printf_format rest' args')%string
              | _ => EmptyString
              end
            else if Ascii.eqb d "d"%char then
              match args with
              | ArgInt n :: args' =>
                  (NilZero.string_of_int (Z.to_int n)
                   ++ printf_format rest' args')%string
              | _ => EmptyString
              end
            else String d (printf_format rest' args)
          else String c (printf_format rest args)
      | EmptyString => String c EmptyString
      end
  end.

Definition snprintf_model (size : nat) (pattern : string)
    (args : list PrintfArg) : string :=
  String.substring 0 (size - 1) (printf_format pattern args).

(** The members that vtkImageReader2.h gives plain setters
    ([SetDataExtent], [SetDataScalarType] apart, [SetNumberOfScalarComponents],
    [SetFileDimensionality], [SetFileLowerLeft]), written together. *)
Definition configured (extent : vec Z 6) (components dimensionality
    lowerLeft : Z) (r : Reader) : Reader :=
  {| FileName := FileName r; FilePrefix := FilePrefix r;
     FilePattern := FilePattern r;
     FileNames := FileNames r; InternalFileName := InternalFileName r;
     File := File r; DataScalarType := DataScalarType r;
     NumberOfScalarComponents := components;
     DataExtent := extent; DataIncrements := DataIncrements r;
     MemoryBuffer := MemoryBuffer r; MemoryBufferLength := MemoryBufferLength r;
     HeaderSize := HeaderSize r; ManualHeaderSize := ManualHeaderSize r;
     FileNameSliceOffset := FileNameSliceOffset r;
     FileNameSliceSpacing := FileNameSliceSpacing r;
     SwapBytes := SwapBytes r; FileLowerLeft := lowerLeft;
     FileDimensionality := dimensionality; ErrorCode := ErrorCode r |}.

(** A reader for 4 x 3 x 2 pixels of three [unsigned char] components, in
    the file volume.raw. *)
Definition rgb_reader : Reader :=
  after (SetDataScalarType 3)
    (configured [# 0; 3; 0; 2; 0; 1] 3 2 0
       (after (SetFileName (Some "volume.raw"%string)) vtkImageReader2_new)).

(** A call of one of the four naming setters; [SetFileNames] sees the
    string arrays as they are at the time of the call. *)
Inductive NamingCall : Type :=
  | CallSetFileName (name : option string)
  | CallSetFileNames (env : Env) (filenames : option StringArrayPtr)
  | CallSetFilePrefix (prefix : option string)
  | CallSetFilePattern (pattern : option string).

Definition naming_call (c : NamingCall) : M unit :=
  match c with
  | CallSetFileName name => SetFileName name
  | CallSetFileNames env filenames => SetFileNames env filenames
  | CallSetFilePrefix prefix => SetFilePrefix prefix
  | CallSetFilePattern pattern => SetFilePattern pattern
  end.

(** The object after a sequence of calls, first call first. *)
Definition naming_calls (cs : list NamingCall) (s : Reader) : Reader :=
  fold_left (fun s c => after (naming_call c) s) cs s.

(** How many of [FileName], [FileNames] and [FilePrefix] are non-null. *)
Definition identities_set (s : Reader) : nat :=
  ((if is_null (FileName s) then 0 else 1)
   + (if is_null (FileNames s) then 0 else 1)
   + (if is_null (FilePrefix s) then 0 else 1))%nat.

(** An environment without files and without string arrays. *)
Definition no_files : Env :=
  {| env_stat := fun _ => None;
     env_open := fun _ => None;
     env_snprintf := snprintf_model;
     env_strings := fun _ => [];
     env_abort := fun _ => false |}.

(** String arrays of a caller: array 1 is empty, array 2 has three
    paths. *)
Definition empty_then_three (filled : bool) : Env :=
  {| env_stat := fun _ => None;
     env_open := fun _ => None;
     env_snprintf := snprintf_model;
     env_strings := fun a =>
       match a with
       | 1%positive =>
           if filled then ["s0.raw"; "s1.raw"; "s2.raw"]%string else []
       | 2%positive => ["t0.raw"; "t1.raw"; "t2.raw"]%string
       | _ => []
       end;
     env_abort := fun _ => false |}.

(** A computation only appends to the trace, and what it does is independent
    of the trace it starts from. *)
Definition appends {A} (m : M A) : Prop :=
  forall (s : Reader) (t : list Event),
    m (mkWorld s t) = (result m s, mkWorld (after m s) (t ++ effects m s)).

(** The path that [GetHeaderSize(idx)] probes. *)
Definition resolved_path (env : Env) (s : Reader) (idx : Z) : option string :=
  InternalFileName (after (ComputeInternalFileName env (to_int idx)) s).

(** A reader of one 16-bit component whose single file is a.raw. *)
Definition a_raw_reader : Reader :=
  after (SetFileName (Some "a.raw"%string)) vtkImageReader2_new.

(** An environment with one file, [name], of [size] bytes. *)
Definition one_file (name : string) (bytes : list Byte.byte) : Env :=
  {| env_stat := fun p =>
       if String.eqb p name then Some (Z.of_nat (length bytes)) else None;
     env_open := fun p => if String.eqb p name then Some bytes else None;
     env_snprintf := snprintf_model;
     env_strings := fun _ => [];
     env_abort := fun _ => false |}.

(** How [SeekFile] reads the [FileLowerLeft] flag. *)
Inductive RowOrientation : Type :=
  | OriginLowerLeft
  | OriginUpperLeft.

Definition orientation (s : Reader) : RowOrientation :=
  if FileLowerLeft s =? 0 then OriginUpperLeft else OriginLowerLeft.

(** The offset of C6 over the integers, without the header. *)
Definition seek_terms (s : Reader) (i j k : Z) : Z :=
  let ext := DataExtent s in
  let inc := DataIncrements s in
  (i - ext !!! 0%fin) * inc !!! 0%fin
  + match orientation s with
    | OriginLowerLeft => (j - ext !!! 2%fin) * inc !!! 1%fin
    | OriginUpperLeft => (ext !!! 3%fin - ext !!! 2%fin - j) * inc !!! 1%fin
    end
  + (if FileDimensionality s =? 3
     then (k - ext !!! 4%fin) * inc !!! 2%fin
     else 0).

(** The reader [rgb_reader] with its increments computed and a header of
    128 bytes set by hand. *)
Definition rgb_reader_128 : Reader :=
  after (SetHeaderSize 128) (after ComputeDataIncrements rgb_reader).

(** Two readers that differ in [FileLowerLeft] only. *)
Definition same_but_orientation (upper lower : Reader) : Prop :=
  FileLowerLeft upper = 0 /\ FileLowerLeft lower <> 0 /\
  DataExtent upper = DataExtent lower /\
  DataIncrements upper = DataIncrements lower /\
  FileDimensionality upper = FileDimensionality lower /\
  HeaderSize upper = HeaderSize lower /\
  ManualHeaderSize upper <> 0 /\ ManualHeaderSize lower <> 0 /\
  (FileName upper <> None \/ FilePattern upper <> None) /\
  (FileName lower <> None \/ FilePattern lower <> None).

(** A reader of two rows, y = 1 and y = 2, of one 16-bit pixel each, in
    a.raw, with a header of 0 bytes set by hand. *)
Definition two_rows (lowerLeft : Z) : Reader :=
  after ComputeDataIncrements
    (after (SetHeaderSize 0)
       (configured [# 0; 0; 1; 2; 0; 0] 1 2 lowerLeft a_raw_reader)).

(** The object with the memory buffer and its length replaced. *)
Definition set_buffer (membuf : option positive) (buflen : Z) (r : Reader)
    : Reader :=
  with_MemoryBuffer membuf (with_MemoryBufferLength buflen r).

Definition set_buffer_world (membuf : option positive) (buflen : Z)
    (w : World) : World :=
  mkWorld (set_buffer membuf buflen (self w)) (trace w).

(** A computation that neither reads nor writes the memory buffer
    members: started with another buffer it gives the same result and the
    same effects, and ends with that other buffer. *)
Definition buffer_blind {A} (c : M A) : Prop :=
  forall membuf buflen w,
    c (set_buffer_world membuf buflen w) =
    (fst (c w), set_buffer_world membuf buflen (snd (c w))).

(** The output image of one pixel. *)
Definition one_pixel : ImageData :=
  {| img_Extent := [# 0; 0; 0; 0; 0; 0];
     img_Increments := [# 1; 1; 1];
     img_NumberOfScalarComponents := 1 |}.

(** The caller's array 1 lists the one file that is there, s0.raw. *)
Definition listed_slice : Env :=
  {| env_stat := fun p =>
       if String.eqb p "s0.raw" then Some 2 else None;
     env_open := fun p =>
       if String.eqb p "s0.raw" then Some [Byte.x01; Byte.x02] else None;
     env_snprintf := snprintf_model;
     env_strings := fun a =>
       match a with
       | 1%positive => ["s0.raw"%string]
       | _ => []
       end;
     env_abort := fun _ => false |}.

(** A reader with an explicit list and nothing else: the pattern of the
    constructor is cleared and array 1 is set. *)
Definition list_only_reader : Reader :=
  after (SetFileNames listed_slice (Some 1%positive))
    (after (SetFilePattern None) vtkImageReader2_new).

Definition msg_no_identity : string :=
  "Either a valid FileName or FilePattern must be specified.".

(** A volume of two slices of one 16-bit pixel in vol.raw, after a header
    of four bytes; the caller's array 1 names vol.raw for slice 0 and a
    file that is not there for slice 1. *)
Definition volume_and_gap : Env :=
  {| env_stat := fun p => if String.eqb p "vol.raw" then Some 8 else None;
     env_open := fun p =>
       if String.eqb p "vol.raw"
       then Some [Byte.x10; Byte.x11; Byte.x12; Byte.x13;
                  Byte.x01; Byte.x02; Byte.x03; Byte.x04]
       else None;
     env_snprintf := snprintf_model;
     env_strings := fun a =>
       match a with
       | 1%positive => ["vol.raw"; "missing.raw"]%string
       | _ => []
       end;
     env_abort := fun _ => false |}.

(** A reader of three-dimensional files with that array set. *)
Definition volume_reader : Reader :=
  after (SetFileNames volume_and_gap (Some 1%positive))
    (configured [# 0; 0; 0; 0; 0; 0] 1 3 0 vtkImageReader2_new).

(** The output image of two slices of one pixel. *)
Definition two_slices : ImageData :=
  {| img_Extent := [# 0; 0; 0; 0; 0; 1];
     img_Increments := [# 1; 1; 1];
     img_NumberOfScalarComponents := 1 |}.

(** A computation that never emits the event [e]: a trace without [e]
    is still without it afterwards. *)
Definition never_emits {A} (e : Event) (c : M A) : Prop :=
  forall w, ~ In e (trace w) -> ~ In e (trace (snd (c w))).

(** What the caller configures: every member but the three that the
    reader derives for itself ([InternalFileName], [File] and
    [DataIncrements]). *)
Definition configuration (r : Reader) :=
  (FileName r, FilePrefix r, FilePattern r, FileNames r,
   (DataScalarType r, NumberOfScalarComponents r, DataExtent r),
   (MemoryBuffer r, MemoryBufferLength r, HeaderSize r, ManualHeaderSize r),
   (FileNameSliceOffset r, FileNameSliceSpacing r),
   (SwapBytes r, FileLowerLeft r, FileDimensionality r, ErrorCode r)).

(** A computation that leaves [proj] of the object as it finds it. *)
Definition preserves {A X} (proj : Reader -> X) (c : M A) : Prop :=
  forall w, proj (self (snd (c w))) = proj (self w).

(** How many events of a trace satisfy [P]. *)
Fixpoint count_events (P : Event -> bool) (tr : list Event) : nat :=
  match tr with
  | [] => 0%nat
  | e :: tr' => ((if P e then 1 else 0) + count_events P tr')%nat
  end.

(** A computation that emits no event satisfying [P]. *)
Definition silent {A} (P : Event -> bool) (c : M A) : Prop :=
  forall w, count_events P (trace (snd (c w))) = count_events P (trace w).

Definition is_row (e : Event) : bool :=
  match e with EvRead _ _ => true | _ => false end.

Definition is_progress (e : Event) : bool :=
  match e with EvProgress _ _ => true | _ => false end.

Definition is_open (e : Event) : bool :=
  match e with EvOpen _ => true | _ => false end.

Definition is_error (e : Event) : bool :=
  match e with EvError _ => true | _ => false end.

(** One of the three naming members is set: the test of
    [ComputeInternalFileName] and [OpenFile]. *)
Definition named (s : Reader) : Prop :=
  FileName s <> None \/ FilePattern s <> None \/ FileNames s <> None.

(** A stream that has just been opened on [bytes]. *)
Definition fresh_stream (bytes : list Byte.byte) : Stream :=
  {| st_bytes := bytes; st_pos := 0; st_fail := false |}.

(** Whether the reader holds a stream, followed along a trace: opening is
    allowed when none is held, closing, seeking and reading when one is;
    [None] when the trace breaks that. *)
Definition handle_step (held : bool) (e : Event) : option bool :=
  match e with
  | EvOpen _ => if held then None else Some true
  | EvClose => if held then Some false else None
  | EvSeek _ | EvRead _ _ => if held then Some true else None
  | _ => Some held
  end.

Fixpoint stream_held (held : bool) (tr : list Event) : option bool :=
  match tr with
  | [] => Some held
  | e :: tr' =>
      match handle_step held e with
      | Some held' => stream_held held' tr'
      | None => None
      end
  end.

(** The trace so far is consistent with the [File] member, for a
    computation started with a stream held or not as [held0] says. *)
Definition handles_agree (held0 : bool) (w : World) : Prop :=
  stream_held held0 (trace w) = Some (not_null (File (self w))).

Definition keeps_handles {A} (c : M A) : Prop :=
  forall held0 w, handles_agree held0 w -> handles_agree held0 (snd (c w)).

(** The event of [read_rows] for a read through a null [File]. *)
Definition null_stream_read : Event := EvUndefined "GetFile() is null".

(** An invariant of the object and its trace that a computation keeps. *)
Definition keeps {A} (I : World -> Prop) (c : M A) : Prop :=
  forall w, I w -> I (snd (c w)).

(** The events that are no operation on the stream, no progress signal and
    no read through a null [File]. *)
Definition passive (e : Event) : bool :=
  match e with
  | EvError _ | EvWarning _ | EvModified | EvStat _ => true
  | EvUndefined what => negb (String.eqb what "GetFile() is null")
  | _ => false
  end.

(** An invariant that passive events and assignments to members other than
    [File] and [FileDimensionality] cannot break. *)
Definition steady (I : World -> Prop) : Prop :=
  (forall e w, passive e = true -> I w ->
     I (mkWorld (self w) (trace w ++ [e]))) /\
  (forall f w, (forall r, File (f r) = File r) ->
     (forall r, FileDimensionality (f r) = FileDimensionality r) ->
     I w -> I (mkWorld (f (self w)) (trace w))).

Definition has_stream (w : World) : Prop := File (self w) <> None.

(** No read through a null [File] so far, on an object of file
    dimensionality [d]. *)
Definition no_null_read (d : Z) (w : World) : Prop :=
  ~ In null_stream_read (trace w) /\ FileDimensionality (self w) = d.

(** A stream is there and no row has been read through a null [File]. *)
Definition stream_ready (d : Z) (w : World) : Prop :=
  has_stream w /\ no_null_read d w.

(** What the loop over the slices relies on: files of dimensionality 2 are
    opened slice by slice, for the others the stream is there already. *)
Definition slices_ready (d : Z) (w : World) : Prop :=
  no_null_read d w /\ (d = 2 \/ has_stream w).

(** The events that are neither the opening of a file, nor a row read, nor
    a progress signal. *)
Definition housekeeping (e : Event) : bool :=
  match e with
  | EvOpen _ | EvRead _ _ | EvProgress _ _ => false
  | _ => true
  end.

(** A class of events without housekeeping events. *)
Definition ignores (P : Event -> bool) : Prop :=
  forall e, housekeeping e = true -> P e = false.

(** Number of slices that a read into [data] loops over. *)
Definition slices_of (data : ImageData) : nat :=
  Z.to_nat (axisSize (img_Extent data) 2%fin).

(** The name that [ComputeInternalFileName] prints from a pattern: with the
    prefix when there is one, else with an empty string for a "%s" of the
    pattern, else with the slice number alone. *)
Definition pattern_path (env : Env) (prefix : option string)
    (pattern : string) (slicenum : Z) : string :=
  match prefix with
  | Some p =>
      env_snprintf env (String.length p + String.length pattern + 10)%nat
        pattern [ArgStr p; ArgInt slicenum]
  | None =>
      env_snprintf env (String.length pattern + 10)%nat pattern
        (if hasPercentS pattern
         then [ArgStr EmptyString; ArgInt slicenum]
         else [ArgInt slicenum])
  end.

(** The number that [ComputeInternalFileName] prints for a slice. *)
Definition slicenum_of (s : Reader) (slice : Z) : Z :=
  int_add (int_mul slice (FileNameSliceSpacing s)) (FileNameSliceOffset s).

(** A progress signal [UpdateProgress(count / (50.0 * target))] whose
    amount is in the interval from 0 to 1, 1 excluded; the other events
    pass. *)
Definition progress_below_one (e : Event) : bool :=
  match e with
  | EvProgress count target => (0 <=? count) && (count <? 50 * target)
  | _ => true
  end.

Definition progress_out_of_range (e : Event) : bool :=
  negb (progress_below_one e).

(** Progress signals in the trace beyond the first [base]. *)
Definition signals_since (base : Z) (w : World) : Z :=
  Z.of_nat (count_events is_progress (trace w)) - base.

(** What the loops of [vtkImageReader2Update] keep at a row count
    [count]: the signals since they were entered are those of the multiples
    of [target] below [count], and each had an amount below 1. *)
Definition on_schedule (base target : Z) (w : World) (count : Z) : Prop :=
  signals_since base w * target < count + target /\
  count_events progress_out_of_range (trace w) = 0%nat.

(** At most 50 progress signals so far, each with an amount below 1. *)
Definition signals_in_bounds (tr : list Event) : Prop :=
  (count_events is_progress tr <= 50)%nat /\
  count_events progress_out_of_range tr = 0%nat.

(** A call of one of the setters defined in the file. *)
Inductive SetterCall : Type :=
  | CallNaming (c : NamingCall)
  | CallSetHeaderSize (size : Z)
  | CallSetDataScalarType (type : Z)
  | CallSetMemoryBuffer (membuf : option positive)
  | CallSetMemoryBufferLength (buflen : Z).

Definition setter_call (c : SetterCall) : M unit :=
  match c with
  | CallNaming c => naming_call c
  | CallSetHeaderSize size => SetHeaderSize size
  | CallSetDataScalarType type => SetDataScalarType type
  | CallSetMemoryBuffer membuf => SetMemoryBuffer membuf
  | CallSetMemoryBufferLength buflen => SetMemoryBufferLength buflen
  end.

(** What a setter that stays silent may still have done. *)
Definition silent_change (c : SetterCall) (s : Reader) : Reader :=
  match c with
  | CallSetHeaderSize _ => with_ManualHeaderSize 1 s
  | _ => s
  end.

Definition no_stream (w : World) : Prop := File (self w) = None.

(** A row read that goes to one of the places of the output buffer where
    the rows of a request belong, row [j] of slice [i] at
    [i * outIncr[2] + j * outIncr[1]] elements from the scalar pointer, and
    that writes no more than [n] bytes there.  Every event other than a row
    read passes. *)
Definition row_slot (data : ImageData) (n : Z) (e : Event) : Prop :=
  match e with
  | EvRead dst bytes =>
      (exists i j : Z,
         0 <= i < axisSize (img_Extent data) 2%fin /\
         0 <= j < axisSize (img_Extent data) 1%fin /\
         dst = i * img_Increments data !!! 2%fin
               + j * img_Increments data !!! 1%fin) /\
      Z.of_nat (length bytes) <= Z.max 0 n
  | _ => True
  end.

(** Every event so far satisfies [P]. *)
Definition all_events (P : Event -> Prop) (w : World) : Prop :=
  Forall P (trace w).

(** A property of the rows read: every other event has it. *)
Definition about_rows (P : Event -> Prop) : Prop :=
  forall e, is_row e = false -> P e.

(** The event of [ComputeInternalFileName] for an index outside the
    list of names. *)
Definition name_out_of_range : Event :=
  EvUndefined "FileNames->GetValue out of range".

(** The list [a] is the one in use and no name was asked for outside
    it. *)
Definition within_list (a : StringArrayPtr) (w : World) : Prop :=
  ~ In name_out_of_range (trace w) /\ FileNames (self w) = Some a.

(** The number of bytes of a row, [streamRead] in
    [vtkImageReader2Update]. *)
Definition row_bytes (data : ImageData) (sizeofOT : Z) : Z :=
  let outExtent := img_Extent data in
  to_long
    (ul_mul
       (to_ulong
          (int_mul
             (int_add (int_sub (outExtent !!! 1%fin) (outExtent !!! 0%fin))
                1)
             (img_NumberOfScalarComponents data)))
       sizeofOT).

(** A row read that delivered [n] bytes; the other events pass. *)
Definition complete_row (n : Z) (e : Event) : Prop :=
  match e with
  | EvRead _ bytes => Z.of_nat (length bytes) = n
  | _ => True
  end.

(** A trace that ends with a row that could not be read in full and the
    warning about it, after complete rows only.  The warning names the row
    and the length asked for; the position it gives is -1, that of a stream
    that has failed. *)
Definition stopped_short (n : Z) (tr : list Event) : Prop :=
  exists head dst bytes row,
    tr = head
         ++ [EvRead dst bytes; EvWarning (short_read_message row n (-1))] /\
    Forall (complete_row n) head.

Definition complete_or_stopped (n : Z) (w : World) : Prop :=
  all_events (complete_row n) w \/ stopped_short n (trace w).

(** The destinations of the rows read, in the order of the reads. *)
Fixpoint row_places (tr : list Event) : list Z :=
  match tr with
  | [] => []
  | EvRead dst _ :: tr' => dst :: row_places tr'
  | _ :: tr' => row_places tr'
  end.

(** Errors, warnings and undefined operations. *)
Definition is_trouble (e : Event) : bool :=
  match e with
  | EvError _ | EvWarning _ | EvUndefined _ => true
  | _ => false
  end.

(** The places of [nrows] rows that follow each other from [start], and
    the places of all rows of a request, slice after slice. *)
Definition slice_places (outIncr1 start : Z) (nrows : nat) : list Z :=
  map (fun j => start + Z.of_nat j * outIncr1) (seq 0 nrows).

Definition slices_places (outIncr1 outIncr2 start : Z) (nrows nslices : nat)
    : list Z :=
  flat_map
    (fun i => slice_places outIncr1 (start + Z.of_nat i * outIncr2) nrows)
    (seq 0 nslices).

Definition grid_places (data : ImageData) : list Z :=
  slices_places (img_Increments data !!! 1%fin)
    (img_Increments data !!! 2%fin) 0
    (Z.to_nat (axisSize (img_Extent data) 1%fin))
    (Z.to_nat (axisSize (img_Extent data) 2%fin)).

(** A trace without trouble has read the rows at [places], in this
    order. *)
Definition delivers (places : list Z) (tr : list Event) : Prop :=
  existsb is_trouble tr = false -> row_places tr = places.

(** The stream that [OpenFile] makes of a path: on the bytes of the file,
    or failed when the file cannot be opened. *)
Definition open_stream (env : Env) (path : option string) : Stream :=
  match path ≫= env_open env with
  | Some bytes => fresh_stream bytes
  | None => {| st_bytes := []; st_pos := 0; st_fail := true |}
  end.

(** What a row read of [n] bytes on the stream [f] hands over: the bytes
    read, with the bytes of each element swapped when swapping applies and
    the row was read in full. *)
Definition row_of_stream (swap : option (nat * nat)) (f : Stream) (n : Z)
    : list Byte.byte :=
  let '(got, f') := read f n in
  if st_fail f' then got
  else match swap with
       | Some (num, size) => SwapVoidRange got num size
       | None => got
       end.

(** The trace [tr], started on the stream [st], hands over in each row
    what the stream gives where the opens and seeks of the trace have put
    it, and ends on the stream [final]. *)
Fixpoint follows (env : Env) (n : Z) (swap : option (nat * nat))
    (st : option Stream) (tr : list Event) (final : option Stream) : Prop :=
  match tr with
  | [] => final = st
  | e :: tr' =>
      match e with
      | EvOpen path =>
          follows env n swap (Some (open_stream env path)) tr' final
      | EvClose => follows env n swap None tr' final
      | EvSeek off =>
          match st with
          | Some f => follows env n swap (Some (seekg f off)) tr' final
          | None => False
          end
      | EvRead _ bytes =>
          match st with
          | Some f =>
              bytes = row_of_stream swap f n /\
              follows env n swap (Some (snd (read f n))) tr' final
          | None => False
          end
      | _ => follows env n swap st tr' final
      end
  end.

(** The stream of the object is the one the trace leads to. *)
Definition tracked (env : Env) (n : Z) (swap : option (nat * nat))
    (st0 : option Stream) (w : World) : Prop :=
  follows env n swap st0 (trace w) (File (self w)).

(** Whether [vtkImageReader2Update] swaps the bytes of a row, and how. *)
Definition swap_of (s : Reader) (data : ImageData) (sizeofOT : Z)
    : option (nat * nat) :=
  let outExtent := img_Extent data in
  if negb (SwapBytes s =? 0) && (1 <? sizeofOT)
  then Some (Z.to_nat
               (to_ulong
                  (int_mul
                     (int_add
                        (int_sub (outExtent !!! 1%fin) (outExtent !!! 0%fin))
                        1)
                     (img_NumberOfScalarComponents data))),
             Z.to_nat sizeofOT)
  else None.

(** A reader of one 16-bit component whose rows run from x = -2^30 to
    x = 2^30 - 1, and one whose three axes run from 0 to 2^31 - 2. *)
Definition wide_row_reader : Reader :=
  configured [# - 2 ^ 30; 2 ^ 30 - 1; 0; 0; 0; 0] 1 2 1 a_raw_reader.

Definition huge_volume_reader : Reader :=
  configured [# 0; 2 ^ 31 - 2; 0; 2 ^ 31 - 2; 0; 2 ^ 31 - 2] 1 2 1
    a_raw_reader.

(** A value that an [int] holds. *)
Definition fits_int (z : Z) : Prop := INT_MIN <= z <= INT_MAX.

(** The row difference of [SeekFile] over the integers. *)
Definition row_difference (s : Reader) (j : Z) : Z :=
  let ext := DataExtent s in
  match orientation s with
  | OriginLowerLeft => j - ext !!! 2%fin
  | OriginUpperLeft => ext !!! 3%fin - ext !!! 2%fin - j
  end.

(** The offset as [SeekFile] has it, without the header: the three
    differences are [int]s, and the slice term is there from file
    dimensionality 3 on. *)
Definition seek_sum (s : Reader) (i j k : Z) : Z :=
  let ext := DataExtent s in
  let inc := DataIncrements s in
  to_int (i - ext !!! 0%fin) * inc !!! 0%fin
  + to_int (row_difference s j) * inc !!! 1%fin
  + (if 3 <=? FileDimensionality s
     then to_int (k - ext !!! 4%fin) * inc !!! 2%fin
     else 0).

(** The reader [rgb_reader_128] with a file dimensionality of 4, and a
    reader of one 16-bit component whose rows run from x = -1 to
    x = 2^31 - 1, with a header of 0 bytes set by hand. *)
Definition four_dimensional_reader : Reader :=
  configured [# 0; 3; 0; 2; 0; 1] 3 4 0 rgb_reader_128.

Definition long_row_reader : Reader :=
  after ComputeDataIncrements
    (after (SetHeaderSize 0)
       (configured [# -1; 2 ^ 31 - 1; 0; 0; 0; 0] 1 2 1 a_raw_reader)).

(** ** Arithmetic of the conversions *)

Lemma to_ulong_range z : 0 <= to_ulong z <= ULONG_MAX.
Proof.
  unfold to_ulong, wrap_unsigned, ULONG_MAX, LONG_BITS.
  pose proof (Z.mod_pos_bound z (2 ^ 64) ltac:(lia)). lia.
Qed.

Lemma to_ulong_small z : 0 <= z <= ULONG_MAX -> to_ulong z = z.
Proof.
  unfold to_ulong, wrap_unsigned, ULONG_MAX, LONG_BITS. intros H.
  apply Z.mod_small. lia.
Qed.

Lemma ul_mul_to_ulong_l a b : ul_mul (to_ulong a) b = to_ulong (a * b).
Proof.
  unfold ul_mul, to_ulong, wrap_unsigned.
  apply Z.mul_mod_idemp_l. unfold LONG_BITS. lia.
Qed.

Lemma ul_mul_to_ulong_r a b : ul_mul a (to_ulong b) = to_ulong (a * b).
Proof.
  unfold ul_mul, to_ulong, wrap_unsigned.
  apply Z.mul_mod_idemp_r. unfold LONG_BITS. lia.
Qed.

Lemma ul_add_to_ulong_l a b : ul_add (to_ulong a) b = to_ulong (a + b).
Proof.
  unfold ul_add, to_ulong, wrap_unsigned.
  apply Z.add_mod_idemp_l. unfold LONG_BITS. lia.
Qed.

Lemma ul_add_to_ulong_r a b : ul_add a (to_ulong b) = to_ulong (a + b).
Proof.
  unfold ul_add, to_ulong, wrap_unsigned.
  apply Z.add_mod_idemp_r. unfold LONG_BITS. lia.
Qed.

Lemma to_ulong_add_r a b : to_ulong (a + to_ulong b) = to_ulong (a + b).
Proof. apply ul_add_to_ulong_r. Qed.

Lemma ul_add_to_ulong_both a b :
  ul_add (to_ulong a) (to_ulong b) = to_ulong (a + b).
Proof. rewrite ul_add_to_ulong_l. apply to_ulong_add_r. Qed.

(** A value that the signed type holds is kept by the conversion. *)
Lemma wrap_signed_small (bits z : Z) :
  0 < bits -> - 2 ^ (bits - 1) <= z < 2 ^ (bits - 1) ->
  wrap_signed bits z = z.
Proof.
  intros Hbits Hz. unfold wrap_signed.
  assert (Hhalf : 0 < 2 ^ (bits - 1)) by (apply Z.pow_pos_nonneg; lia).
  assert (Hpow : 2 ^ bits = 2 * 2 ^ (bits - 1)).
  { replace bits with (Z.succ (bits - 1)) at 1 by lia.
    apply Z.pow_succ_r. lia. }
  rewrite Hpow.
  destruct (Z_lt_le_dec z 0) as [Hneg | Hpos].
  - assert (Hmod : z mod (2 * 2 ^ (bits - 1)) = z + 2 * 2 ^ (bits - 1)).
    { symmetry. apply (Z.mod_unique_pos _ _ (-1)); lia. }
    rewrite Hmod.
    destruct (Z.ltb_spec (z + 2 * 2 ^ (bits - 1)) (2 ^ (bits - 1))); lia.
  - rewrite Z.mod_small by lia.
    destruct (Z.ltb_spec z (2 ^ (bits - 1))); lia.
Qed.

Lemma to_int_small z : INT_MIN <= z <= INT_MAX -> to_int z = z.
Proof.
  unfold INT_MIN, INT_MAX, to_int. intros H.
  apply wrap_signed_small; unfold INT_BITS in *; lia.
Qed.

Lemma to_long_small z : - 2 ^ 63 <= z < 2 ^ 63 -> to_long z = z.
Proof.
  intros H. unfold to_long. apply wrap_signed_small; unfold LONG_BITS; lia.
Qed.

(** ** Recomputing the increments *)

(** What [ComputeDataIncrements] stores for a supported scalar kind. *)
Lemma ComputeDataIncrements_supported (s : Reader) (size : Z) :
  vtkTemplateMacro_sizeof (DataScalarType s) = Some size ->
  after ComputeDataIncrements s =
    with_DataIncrements
      (increments_loop (DataExtent s) (DataIncrements s)
         (ul_mul size (to_ulong (NumberOfScalarComponents s)))) s
  /\ effects ComputeDataIncrements s = [].
Proof.
  intros Hsize.
  unfold after, effects, run, ComputeDataIncrements, bind, this. simpl.
  rewrite Hsize. split; reflexivity.
Qed.

(** Narrowing to [int] keeps the value modulo 2^32, so that a wrap inside
    a sum, a difference or a product that is narrowed again can be left
    out. *)
Lemma to_int_congruent (x y : Z) :
  x mod 2 ^ 32 = y mod 2 ^ 32 -> to_int x = to_int y.
Proof.
  unfold to_int, wrap_signed, INT_BITS. intros ->. reflexivity.
Qed.

Lemma to_int_mod (x : Z) : to_int x mod 2 ^ 32 = x mod 2 ^ 32.
Proof.
  unfold to_int, wrap_signed, INT_BITS.
  destruct (x mod 2 ^ 32 <? 2 ^ (32 - 1)).
  - apply Z.mod_mod. lia.
  - rewrite <- (Z.mod_add (x mod 2 ^ 32 - 2 ^ 32) 1 (2 ^ 32)) by lia.
    replace (x mod 2 ^ 32 - 2 ^ 32 + 1 * 2 ^ 32) with (x mod 2 ^ 32) by lia.
    apply Z.mod_mod. lia.
Qed.

Lemma to_int_add_l (a b : Z) : to_int (to_int a + b) = to_int (a + b).
Proof.
  apply to_int_congruent.
  rewrite Z.add_mod, to_int_mod, <- Z.add_mod by lia. reflexivity.
Qed.

Lemma to_int_sub_l (a b : Z) : to_int (to_int a - b) = to_int (a - b).
Proof.
  apply to_int_congruent.
  rewrite Zminus_mod, to_int_mod, <- Zminus_mod. reflexivity.
Qed.

(** The size of an axis as [ComputeDataIncrements] computes it. *)
Lemma int_axis_size (lo hi : Z) :
  int_add (int_sub hi lo) 1 = to_int (hi - lo + 1).
Proof. unfold int_add, int_sub. apply to_int_add_l. Qed.

Lemma increments_loop_lookup (ext : vec Z 6) (incs : vec Z 4) (len : Z) :
  let incs' := increments_loop ext incs len in
  incs' !!! 0%fin = len /\
  incs' !!! 1%fin
    = ul_mul (incs' !!! 0%fin) (to_ulong (to_int (axisSize ext 0%fin))) /\
  incs' !!! 2%fin
    = ul_mul (incs' !!! 1%fin) (to_ulong (to_int (axisSize ext 1%fin))) /\
  incs' !!! 3%fin
    = ul_mul (incs' !!! 2%fin) (to_ulong (to_int (axisSize ext 2%fin))).
Proof.
  inv_vec incs; intros a b c d.
  unfold axisSize. cbn [fin_to_nat]. rewrite <- !int_axis_size.
  repeat split; reflexivity.
Qed.

Lemma vtkTemplateMacro_sizeof_range (t size : Z) :
  vtkTemplateMacro_sizeof t = Some size -> 1 <= size <= 8.
Proof.
  unfold vtkTemplateMacro_sizeof. intros H.
  repeat case_match; inversion H; lia.
Qed.

(** The products of [ComputeDataIncrements] do not wrap when the whole
    volume, in bytes, fits an [unsigned long]. *)
Lemma increments_exact (len sx sy sz : Z) :
  0 < len -> 0 < sx -> 0 < sy -> 0 < sz ->
  len * sx * sy * sz <= ULONG_MAX ->
  0 < len <= ULONG_MAX /\ 0 < len * sx <= ULONG_MAX /\
  0 < len * sx * sy <= ULONG_MAX.
Proof.
  intros Hlen Hx Hy Hz Hfit.
  assert (H1 : 0 < len * sx) by (apply Z.mul_pos_pos; lia).
  assert (H2 : 0 < len * sx * sy) by (apply Z.mul_pos_pos; lia).
  assert (G1 : len <= len * sx) by nia.
  assert (G2 : len * sx <= len * sx * sy) by nia.
  assert (G3 : len * sx * sy <= len * sx * sy * sz) by nia.
  lia.
Qed.

(** C8, as the code has it.  For a supported scalar kind of byte width
    [width], the increments that [ComputeDataIncrements] stores are
    [increments[0] = width * components] and
    [increments[k] = increments[k-1] * size(k-1)] for k = 1, 2, 3, where
    [size(a)] is [axisSize(a)] narrowed to [int] and the products are those
    of [unsigned long].  For a valid extent and a positive number of
    components the equations of the claim hold over the integers when no
    axis is longer than [INT_MAX] and the byte size of the whole volume
    fits an [unsigned long]. *)
Theorem increments_follow_extent (s : Reader) (width : Z) :
  vtkTemplateMacro_sizeof (DataScalarType s) = Some width ->
  let ext := DataExtent s in
  let components := NumberOfScalarComponents s in
  let inc := DataIncrements (after ComputeDataIncrements s) in
  (inc !!! 0%fin = ul_mul width components /\
   inc !!! 1%fin = ul_mul (inc !!! 0%fin) (to_int (axisSize ext 0%fin)) /\
   inc !!! 2%fin = ul_mul (inc !!! 1%fin) (to_int (axisSize ext 1%fin)) /\
   inc !!! 3%fin = ul_mul (inc !!! 2%fin) (to_int (axisSize ext 2%fin))) /\
  (valid_extent ext ->
   0 < components ->
   axisSize ext 0%fin <= INT_MAX ->
   axisSize ext 1%fin <= INT_MAX ->
   axisSize ext 2%fin <= INT_MAX ->
   width * components * axisSize ext 0%fin * axisSize ext 1%fin
     * axisSize ext 2%fin <= ULONG_MAX ->
   inc !!! 0%fin = width * components /\
   inc !!! 1%fin = inc !!! 0%fin * axisSize ext 0%fin /\
   inc !!! 2%fin = inc !!! 1%fin * axisSize ext 1%fin /\
   inc !!! 3%fin = inc !!! 2%fin * axisSize ext 2%fin).
Proof.
  intros Hsize ext components inc.
  destruct (ComputeDataIncrements_supported s width Hsize) as [Hafter _].
  assert (Hinc : inc = increments_loop ext (DataIncrements s)
                         (ul_mul width (to_ulong components))).
  { unfold inc. rewrite Hafter. reflexivity. }
  destruct (increments_loop_lookup ext (DataIncrements s)
              (ul_mul width (to_ulong components)))
    as (H0 & H1 & H2 & H3).
  rewrite <- Hinc in H0, H1, H2, H3.
  rewrite ul_mul_to_ulong_r in H0, H1, H2, H3.
  fold (ul_mul width components) in H0.
  fold (ul_mul (inc !!! 0%fin) (to_int (axisSize ext 0%fin))) in H1.
  fold (ul_mul (inc !!! 1%fin) (to_int (axisSize ext 1%fin))) in H2.
  fold (ul_mul (inc !!! 2%fin) (to_int (axisSize ext 2%fin))) in H3.
  split; [tauto |].
  intros (Hx & Hy & Hz) Hcomp Hix Hiy Hiz Hfit.
  pose proof (vtkTemplateMacro_sizeof_range _ _ Hsize) as Hw.
  assert (Hsx : 0 < axisSize ext 0%fin)
    by (unfold axisSize; cbn [fin_to_nat]; lia).
  assert (Hsy : 0 < axisSize ext 1%fin)
    by (unfold axisSize; cbn [fin_to_nat]; lia).
  assert (Hsz : 0 < axisSize ext 2%fin)
    by (unfold axisSize; cbn [fin_to_nat]; lia).
  assert (Hmin : INT_MIN <= 0) by (unfold INT_MIN, INT_BITS; simpl; lia).
  rewrite (to_int_small (axisSize ext 0%fin)) in H1 by lia.
  rewrite (to_int_small (axisSize ext 1%fin)) in H2 by lia.
  rewrite (to_int_small (axisSize ext 2%fin)) in H3 by lia.
  assert (Hlen : 0 < width * components) by nia.
  destruct (increments_exact _ _ _ _ Hlen Hsx Hsy Hsz Hfit) as (E0 & E1 & E2).
  assert (I0 : inc !!! 0%fin = width * components).
  { rewrite H0. apply to_ulong_small. lia. }
  assert (I1 : inc !!! 1%fin = inc !!! 0%fin * axisSize ext 0%fin).
  { rewrite H1, I0. apply to_ulong_small. lia. }
  assert (I2 : inc !!! 2%fin = inc !!! 1%fin * axisSize ext 1%fin).
  { rewrite H2, I1, I0. apply to_ulong_small. lia. }
  assert (I3 : inc !!! 3%fin = inc !!! 2%fin * axisSize ext 2%fin).
  { rewrite H3, I2, I1, I0. apply to_ulong_small. lia. }
  tauto.
Qed.

Lemma increments_follow_extent_witness :
  DataIncrements (after ComputeDataIncrements rgb_reader) = [# 3; 12; 36; 72]
  /\ (let inc := DataIncrements (after ComputeDataIncrements rgb_reader) in
      inc !!! 0%fin = 1 * 3 /\
      inc !!! 1%fin = inc !!! 0%fin * 4 /\
      inc !!! 2%fin = inc !!! 1%fin * 3 /\
      inc !!! 3%fin = inc !!! 2%fin * 2).
Proof.
  split; [reflexivity |].
  assert (Hsize : vtkTemplateMacro_sizeof (DataScalarType rgb_reader) = Some 1)
    by reflexivity.
  assert (Hext : valid_extent (DataExtent rgb_reader))
    by (unfold valid_extent; simpl; lia).
  assert (Hcomp : 0 < NumberOfScalarComponents rgb_reader)
    by (simpl; lia).
  destruct (increments_follow_extent rgb_reader 1 Hsize) as [_ Hexact].
  apply (Hexact Hext Hcomp); vm_compute; discriminate.
Defined.

(** C8 as stated fails on valid extents.  With x from -2^30 to 2^30 - 1
    the axis has 2^31 pixels, which as an [int] is -2^31: for one 16-bit
    component the code stores 2^64 - 2^32 in [increments[1]], not
    2 * 2^31.  With 2^31 - 1 pixels along each axis no [int] wraps, but the
    volume does not fit an [unsigned long], and [increments[3]] is not
    [increments[2]] times the length of the z axis. *)
Lemma increments_wrap_on_valid_extents :
  let inc := DataIncrements (after ComputeDataIncrements wide_row_reader) in
  let inc' := DataIncrements (after ComputeDataIncrements huge_volume_reader) in
  (vtkTemplateMacro_sizeof (DataScalarType wide_row_reader) = Some 2 /\
   NumberOfScalarComponents wide_row_reader = 1 /\
   valid_extent (DataExtent wide_row_reader) /\
   axisSize (DataExtent wide_row_reader) 0%fin = 2 ^ 31 /\
   inc !!! 0%fin = 2 /\ inc !!! 1%fin = 2 ^ 64 - 2 ^ 32 /\
   inc !!! 1%fin <> inc !!! 0%fin * axisSize (DataExtent wide_row_reader) 0%fin)
  /\
  (vtkTemplateMacro_sizeof (DataScalarType huge_volume_reader) = Some 2 /\
   NumberOfScalarComponents huge_volume_reader = 1 /\
   valid_extent (DataExtent huge_volume_reader) /\
   axisSize (DataExtent huge_volume_reader) 0%fin = INT_MAX /\
   axisSize (DataExtent huge_volume_reader) 1%fin = INT_MAX /\
   axisSize (DataExtent huge_volume_reader) 2%fin = INT_MAX /\
   inc' !!! 3%fin
     <> inc' !!! 2%fin * axisSize (DataExtent huge_volume_reader) 2%fin).
Proof.
  vm_compute. repeat split; discriminate.
Qed.

(** C10.  When the configured scalar type is not one of the supported
    kinds, [ComputeDataIncrements] reports "Unknown DataScalarType" and
    returns with the object, and so each of the four increments, as it
    was. *)
Theorem unknown_scalar_type_keeps_increments (s : Reader) :
  vtkTemplateMacro_sizeof (DataScalarType s) = None ->
  effects ComputeDataIncrements s = [EvError "Unknown DataScalarType"] /\
  DataIncrements (after ComputeDataIncrements s) = DataIncrements s /\
  after ComputeDataIncrements s = s.
Proof.
  intros Hnone.
  unfold effects, after, run, ComputeDataIncrements, bind, this. simpl.
  rewrite Hnone. simpl. destruct s; auto.
Qed.

Lemma unknown_scalar_type_keeps_increments_witness :
  let s := with_DataScalarType 1 (after ComputeDataIncrements rgb_reader) in
  vtkTemplateMacro_sizeof (DataScalarType s) = None /\
  DataIncrements s = [# 3; 12; 36; 72] /\
  effects ComputeDataIncrements s = [EvError "Unknown DataScalarType"] /\
  DataIncrements (after ComputeDataIncrements s) = [# 3; 12; 36; 72].
Proof.
  intros s.
  assert (Hnone : vtkTemplateMacro_sizeof (DataScalarType s) = None)
    by reflexivity.
  destruct (unknown_scalar_type_keeps_increments s Hnone) as (He & Hi & _).
  split; [exact Hnone |]. split; [reflexivity |].
  split; [exact He |]. rewrite Hi. reflexivity.
Defined.

(** ** The naming setters *)

(** Unfolds a member function down to the record operations. *)
Ltac run_member f :=
  unfold after, effects, result, run, f, Modified, vtkErrorMacro,
    vtkWarningMacro, vtkGenericWarningMacro, when, bind, this, update, emit,
    ret;
  simpl.

Lemma SetFileName_fields (name : string) (s : Reader) :
  let s' := after (SetFileName (Some name)) s in
  FileName s' = Some name /\
  FilePattern s' = FilePattern s /\
  ((identities_set s <= 1)%nat ->
   FilePrefix s' = None /\ FileNames s' = None).
Proof.
  run_member SetFileName. unfold identities_set.
  destruct s as [fn fp fpat fns ? ? ? ? ? ? ? ? ? ? ? ? ? ? ? ?]; simpl.
  destruct fn as [old |]; simpl.
  - destruct (String.eqb_spec old name) as [-> | Hne]; simpl.
    + destruct fns, fp; simpl; repeat split; auto; lia.
    + repeat split; auto.
  - repeat split; auto.
Qed.

Lemma SetFilePrefix_fields (prefix : string) (s : Reader) :
  let s' := after (SetFilePrefix (Some prefix)) s in
  FilePrefix s' = Some prefix /\
  FilePattern s' = FilePattern s /\
  ((identities_set s <= 1)%nat ->
   FileName s' = None /\ FileNames s' = None).
Proof.
  run_member SetFilePrefix. unfold identities_set.
  destruct s as [fn fp fpat fns ? ? ? ? ? ? ? ? ? ? ? ? ? ? ? ?]; simpl.
  destruct fp as [old |]; simpl.
  - destruct (String.eqb_spec old prefix) as [-> | Hne]; simpl.
    + destruct fns, fn; simpl; repeat split; auto; lia.
    + repeat split; auto.
  - repeat split; auto.
Qed.

Lemma SetFileNames_fields env (a : StringArrayPtr) (s : Reader) :
  let s' := after (SetFileNames env (Some a)) s in
  FileNames s' = Some a /\
  FilePattern s' = FilePattern s /\
  ((identities_set s <= 1)%nat ->
   FileName s' = None /\ FilePrefix s' = None).
Proof.
  run_member SetFileNames. unfold identities_set.
  destruct s as [fn fp fpat fns ? ? ? ? ? ? ? ? ? ? ? ? ? ? ? ?]; simpl.
  case_bool_decide as Hsame; simpl.
  - subst fns. destruct fn, fp; simpl; repeat split; auto; lia.
  - destruct fns; simpl;
      destruct (0 <? GetNumberOfValues (env_strings env a)); simpl;
      repeat split; auto.
Qed.

Lemma SetFilePattern_fields (pattern : string) (s : Reader) :
  let s' := after (SetFilePattern (Some pattern)) s in
  FilePattern s' = Some pattern /\
  FilePrefix s' = FilePrefix s /\
  (FilePattern s <> Some pattern ->
   FileName s' = None /\ FileNames s' = None).
Proof.
  run_member SetFilePattern.
  destruct s as [fn fp fpat fns ? ? ? ? ? ? ? ? ? ? ? ? ? ? ? ?]; simpl.
  destruct fpat as [old |]; simpl.
  - destruct (String.eqb_spec old pattern) as [-> | Hne]; simpl.
    + intuition congruence.
    + repeat split; auto.
  - repeat split; auto.
Qed.

Lemma SetFilePattern_same (pattern : string) (s : Reader) :
  FilePattern s = Some pattern ->
  after (SetFilePattern (Some pattern)) s = s /\
  effects (SetFilePattern (Some pattern)) s = [].
Proof.
  intros Hsame. run_member SetFilePattern. rewrite Hsame. simpl.
  rewrite String.eqb_refl. simpl. destruct s; auto.
Qed.

(** Every naming setter keeps "at most one of FileName, FileNames and
    FilePrefix is non-null". *)
Lemma naming_call_exclusive (c : NamingCall) (s : Reader) :
  (identities_set s <= 1)%nat ->
  (identities_set (after (naming_call c) s) <= 1)%nat.
Proof.
  intros Hinv. destruct c as [name | env filenames | prefix | pattern]; simpl.
  - destruct name as [name |].
    + destruct (SetFileName_fields name s) as (Hn & _ & Hclr).
      destruct (Hclr Hinv) as [Hp Hfs].
      unfold identities_set. rewrite Hn, Hp, Hfs. simpl. lia.
    + revert Hinv. run_member SetFileName. unfold identities_set.
      destruct s as [fn fp fpat fns ? ? ? ? ? ? ? ? ? ? ? ? ? ? ? ?]; simpl.
      destruct fn, fns, fp; simpl; lia.
  - destruct filenames as [a |].
    + destruct (SetFileNames_fields env a s) as (Hfs & _ & Hclr).
      destruct (Hclr Hinv) as [Hn Hp].
      unfold identities_set. rewrite Hn, Hp, Hfs. simpl. lia.
    + revert Hinv. run_member SetFileNames. unfold identities_set.
      destruct s as [fn fp fpat fns ? ? ? ? ? ? ? ? ? ? ? ? ? ? ? ?]; simpl.
      case_bool_decide; destruct fn, fns, fp; simpl; lia.
  - destruct prefix as [prefix |].
    + destruct (SetFilePrefix_fields prefix s) as (Hp & _ & Hclr).
      destruct (Hclr Hinv) as [Hn Hfs].
      unfold identities_set. rewrite Hn, Hp, Hfs. simpl. lia.
    + revert Hinv. run_member SetFilePrefix. unfold identities_set.
      destruct s as [fn fp fpat fns ? ? ? ? ? ? ? ? ? ? ? ? ? ? ? ?]; simpl.
      destruct fn, fns, fp; simpl; lia.
  - revert Hinv. run_member SetFilePattern. unfold identities_set.
    destruct s as [fn fp fpat fns ? ? ? ? ? ? ? ? ? ? ? ? ? ? ? ?]; simpl.
    destruct pattern as [pattern |], fpat as [old |]; simpl;
      try destruct (String.eqb_spec old pattern); simpl;
      destruct fn, fns, fp; simpl; lia.
Qed.

Lemma naming_calls_exclusive (cs : list NamingCall) (s : Reader) :
  (identities_set s <= 1)%nat ->
  (identities_set (naming_calls cs s) <= 1)%nat.
Proof.
  revert s. induction cs as [| c cs IH]; intros s Hinv; simpl.
  - exact Hinv.
  - apply IH. apply naming_call_exclusive. exact Hinv.
Qed.

(** C2, as the code has it.  After any sequence of naming setters on a
    freshly constructed reader at most one of [FileName], [FileNames] and
    [FilePrefix] is non-null, and setting one of these three with a non-null
    argument leaves the other two null.  [FilePattern] belongs to none of
    this: the constructor sets it, [SetFileName], [SetFileNames] and
    [SetFilePrefix] keep it, and [SetFilePattern] with a non-null pattern
    clears [FileName] and [FileNames] only when the pattern differs from the
    stored one. *)
Theorem naming_setters_exclusive (cs : list NamingCall) :
  let s := naming_calls cs vtkImageReader2_new in
  (identities_set s <= 1)%nat /\
  (forall name : string,
     let s' := after (SetFileName (Some name)) s in
     FileName s' = Some name /\ FileNames s' = None /\ FilePrefix s' = None /\
     FilePattern s' = FilePattern s) /\
  (forall env (a : StringArrayPtr),
     let s' := after (SetFileNames env (Some a)) s in
     FileNames s' = Some a /\ FileName s' = None /\ FilePrefix s' = None /\
     FilePattern s' = FilePattern s) /\
  (forall prefix : string,
     let s' := after (SetFilePrefix (Some prefix)) s in
     FilePrefix s' = Some prefix /\ FileName s' = None /\ FileNames s' = None /\
     FilePattern s' = FilePattern s) /\
  (forall pattern : string,
     FilePattern s <> Some pattern ->
     let s' := after (SetFilePattern (Some pattern)) s in
     FilePattern s' = Some pattern /\ FileName s' = None /\
     FileNames s' = None /\ FilePrefix s' = FilePrefix s) /\
  (forall pattern : string,
     FilePattern s = Some pattern ->
     after (SetFilePattern (Some pattern)) s = s).
Proof.
  intros s.
  assert (Hinv : (identities_set s <= 1)%nat).
  { apply naming_calls_exclusive. vm_compute. lia. }
  split; [exact Hinv |].
  split; [| split; [| split; [| split]]].
  - intros name. destruct (SetFileName_fields name s) as (H1 & H2 & H3).
    destruct (H3 Hinv). auto.
  - intros env a. destruct (SetFileNames_fields env a s) as (H1 & H2 & H3).
    destruct (H3 Hinv). auto.
  - intros prefix. destruct (SetFilePrefix_fields prefix s) as (H1 & H2 & H3).
    destruct (H3 Hinv). auto.
  - intros pattern Hdiff.
    destruct (SetFilePattern_fields pattern s) as (H1 & H2 & H3).
    destruct (H3 Hdiff). auto.
  - intros pattern Hsame. apply (SetFilePattern_same pattern s Hsame).
Qed.

Lemma naming_setters_exclusive_witness :
  let s := naming_calls
             [CallSetFileNames no_files (Some 1%positive);
              CallSetFilePrefix (Some "img"%string)]
             vtkImageReader2_new in
  FilePattern s <> Some "%s.%03d"%string /\
  FileName s = None /\ FileNames s = None /\
  FilePrefix s = Some "img"%string /\
  FileName (after (SetFilePattern (Some "%s.%03d"%string)) s) = None.
Proof.
  intros s.
  assert (Hdiff : FilePattern s <> Some "%s.%03d"%string)
    by (vm_compute; discriminate).
  destruct (naming_setters_exclusive
              [CallSetFileNames no_files (Some 1%positive);
               CallSetFilePrefix (Some "img"%string)])
    as (_ & _ & _ & _ & Hpat & _).
  destruct (Hpat "%s.%03d"%string Hdiff) as (_ & Hname & _ & _).
  split; [exact Hdiff |].
  split; [reflexivity |]. split; [reflexivity |].
  split; [reflexivity | exact Hname].
Defined.

(** C2 as stated fails: on a fresh reader, [SetFileName] and then
    [SetFilePattern], both with non-null arguments, end with the file name
    and the pattern both set; the second call returns early because the
    pattern is the stored one and clears nothing, and the first never
    touches the pattern. *)
Lemma naming_setters_leave_two_set :
  let s1 := after (SetFileName (Some "a.raw"%string)) vtkImageReader2_new in
  let s2 := after (SetFilePattern (Some "%s.%d"%string)) s1 in
  (FileName s1 = Some "a.raw"%string /\ FilePattern s1 = Some "%s.%d"%string) /\
  (FileName s2 = Some "a.raw"%string /\ FilePattern s2 = Some "%s.%d"%string).
Proof. vm_compute. auto. Qed.

(** ** The explicit list and the Z bounds *)

Lemma SetFileNames_same_pointer env (s : Reader) :
  after (SetFileNames env (FileNames s)) s = s /\
  effects (SetFileNames env (FileNames s)) s = [].
Proof.
  run_member SetFileNames.
  rewrite bool_decide_eq_true_2 by reflexivity. simpl.
  destruct s; auto.
Qed.

Lemma SetFileNames_extent env (a : StringArrayPtr) (s : Reader) :
  FileNames s <> Some a ->
  DataExtent (after (SetFileNames env (Some a)) s) =
    if 0 <? GetNumberOfValues (env_strings env a)
    then vinsert 5%fin (to_int (GetNumberOfValues (env_strings env a) - 1))
           (vinsert 4%fin 0 (DataExtent s))
    else DataExtent s.
Proof.
  intros Hne. run_member SetFileNames.
  rewrite bool_decide_eq_false_2 by congruence. simpl.
  destruct (FileNames s); simpl;
    destruct (0 <? GetNumberOfValues (env_strings env a)); reflexivity.
Qed.

Lemma RequestInformation_extent env (a : StringArrayPtr) (s : Reader) :
  FileNames s = Some a ->
  result (RequestInformation env) s = 1 /\
  DataExtent (after (RequestInformation env) s) =
    if 0 <? GetNumberOfValues (env_strings env a)
    then vinsert 5%fin (to_int (GetNumberOfValues (env_strings env a) - 1))
           (vinsert 4%fin 0 (DataExtent s))
    else DataExtent s.
Proof.
  intros Hfs. run_member RequestInformation. rewrite Hfs. simpl.
  destruct (0 <? GetNumberOfValues (env_strings env a)); auto.
Qed.

Lemma z_bounds_lookup (ext : vec Z 6) (lo hi : Z) :
  let ext' := vinsert 5%fin hi (vinsert 4%fin lo ext) in
  ext' !!! 0%fin = ext !!! 0%fin /\ ext' !!! 1%fin = ext !!! 1%fin /\
  ext' !!! 2%fin = ext !!! 2%fin /\ ext' !!! 3%fin = ext !!! 3%fin /\
  ext' !!! 4%fin = lo /\ ext' !!! 5%fin = hi.
Proof. inv_vec ext; intros. repeat split; reflexivity. Qed.

(** C9, as the code has it.  [SetFileNames] with an array that is not the
    one already installed and that holds N paths, 1 <= N <= INT_MAX + 1,
    sets zMin to 0 and zMax to N - 1 and leaves the X and Y bounds alone;
    with no path it leaves the Z bounds alone too.  With the array that is
    already installed the call returns at once, whatever the array holds by
    then; the Z bounds of an installed, non-empty list are forced again by
    [RequestInformation]. *)
Theorem SetFileNames_forces_z env (a : StringArrayPtr) (s : Reader) :
  let n := GetNumberOfValues (env_strings env a) in
  let ext := DataExtent s in
  (FileNames s <> Some a ->
   let ext' := DataExtent (after (SetFileNames env (Some a)) s) in
   (ext' !!! 0%fin = ext !!! 0%fin /\ ext' !!! 1%fin = ext !!! 1%fin /\
    ext' !!! 2%fin = ext !!! 2%fin /\ ext' !!! 3%fin = ext !!! 3%fin) /\
   (1 <= n <= INT_MAX + 1 -> ext' !!! 4%fin = 0 /\ ext' !!! 5%fin = n - 1) /\
   (n = 0 -> ext' !!! 4%fin = ext !!! 4%fin /\ ext' !!! 5%fin = ext !!! 5%fin))
  /\
  (FileNames s = Some a ->
   after (SetFileNames env (Some a)) s = s /\
   let ext' := DataExtent (after (RequestInformation env) s) in
   (1 <= n <= INT_MAX + 1 -> ext' !!! 4%fin = 0 /\ ext' !!! 5%fin = n - 1)).
Proof.
  intros n ext.
  destruct (z_bounds_lookup ext 0 (to_int (n - 1)))
    as (L0 & L1 & L2 & L3 & L4 & L5).
  assert (Hfit : 1 <= n <= INT_MAX + 1 -> to_int (n - 1) = n - 1).
  { intros Hn. apply to_int_small.
    unfold INT_MIN, INT_MAX, INT_BITS in *. lia. }
  split.
  - intros Hne ext'. unfold ext'.
    rewrite (SetFileNames_extent env a s Hne). fold n. fold ext.
    destruct (Z.ltb_spec 0 n) as [Hpos | Hzero].
    + split; [tauto |]. split.
      * intros Hn. rewrite L4, L5, (Hfit Hn). auto.
      * intros Hn. lia.
    + split; [tauto |]. split.
      * intros Hn. lia.
      * intros _. split; reflexivity.
  - intros Hsame. split.
    + rewrite <- Hsame. apply SetFileNames_same_pointer.
    + intros ext' Hn. unfold ext'.
      destruct (RequestInformation_extent env a s Hsame) as [_ ->].
      fold n. fold ext. destruct (Z.ltb_spec 0 n) as [Hpos | Hzero]; [| lia].
      rewrite L4, L5, (Hfit Hn). auto.
Qed.

Lemma SetFileNames_forces_z_witness :
  let s := with_DataExtent [# 0; 63; 0; 31; 5; 9] vtkImageReader2_new in
  FileNames s <> Some 2%positive /\
  1 <= GetNumberOfValues (env_strings (empty_then_three false) 2%positive)
    <= INT_MAX + 1 /\
  DataExtent (after (SetFileNames (empty_then_three false) (Some 2%positive)) s)
    !!! 4%fin = 0 /\
  DataExtent (after (SetFileNames (empty_then_three false) (Some 2%positive)) s)
    !!! 5%fin = 3 - 1.
Proof.
  intros s.
  assert (Hne : FileNames s <> Some 2%positive) by (simpl; discriminate).
  assert (Hn : 1 <= GetNumberOfValues
                      (env_strings (empty_then_three false) 2%positive)
               <= INT_MAX + 1) by (vm_compute; split; discriminate).
  destruct (SetFileNames_forces_z (empty_then_three false) 2%positive s)
    as [Hset _].
  destruct (Hset Hne) as (_ & Hz & _).
  split; [exact Hne |]. split; [exact Hn |]. exact (Hz Hn).
Defined.

(** C9 as stated fails: the caller installs an empty array, fills it with
    three paths and sets it again; the second call sees the installed
    pointer and returns, and zMax stays 0 instead of 3 - 1. *)
Lemma SetFileNames_again_keeps_z :
  let s1 := after (SetFileNames (empty_then_three false) (Some 1%positive))
              vtkImageReader2_new in
  let s2 := after (SetFileNames (empty_then_three true) (Some 1%positive)) s1 in
  GetNumberOfValues (env_strings (empty_then_three true) 1%positive) = 3 /\
  DataExtent s2 !!! 5%fin = 0 /\
  DataExtent s2 !!! 5%fin <> 3 - 1.
Proof. vm_compute. repeat split; discriminate. Qed.

(** ** Sequencing member functions *)

Lemma appends_ret {A} (a : A) : appends (ret a).
Proof. intros s t. unfold result, after, effects, run, ret. simpl.
  rewrite app_nil_r. reflexivity. Qed.

Lemma appends_this : appends this.
Proof. intros s t. unfold result, after, effects, run, this. simpl.
  rewrite app_nil_r. reflexivity. Qed.

Lemma appends_update (f : Reader -> Reader) : appends (update f).
Proof. intros s t. unfold result, after, effects, run, update. simpl.
  rewrite app_nil_r. reflexivity. Qed.

Lemma appends_emit (e : Event) : appends (emit e).
Proof. intros s t. reflexivity. Qed.

Lemma appends_bind {A B} (m : M A) (k : A -> M B) :
  appends m -> (forall a, appends (k a)) -> appends (bind m k).
Proof.
  intros Hm Hk s t.
  unfold result, after, effects, run, bind.
  rewrite (Hm s t), (Hm s []). simpl.
  rewrite (Hk (result m s) (after m s) (t ++ effects m s)).
  rewrite (Hk (result m s) (after m s) (effects m s)). simpl.
  rewrite app_assoc. reflexivity.
Qed.

(** The three observations of a sequence, from those of its parts. *)
Lemma bind_observed {A B} (m : M A) (k : A -> M B) (s : Reader) :
  appends m -> (forall a, appends (k a)) ->
  result (bind m k) s = result (k (result m s)) (after m s) /\
  after (bind m k) s = after (k (result m s)) (after m s) /\
  effects (bind m k) s = effects m s ++ effects (k (result m s)) (after m s).
Proof.
  intros Hm Hk.
  pose proof (appends_bind m k Hm Hk s []) as Hb.
  unfold bind in Hb. rewrite (Hm s []) in Hb. simpl in Hb.
  rewrite (Hk (result m s) (after m s) (effects m s)) in Hb.
  inversion Hb as [[Hr Ha He]].
  change (fun w : World => let '(a, w') := m w in k a w') with (bind m k)
    in Hr, Ha, He.
  repeat split; symmetry; assumption.
Qed.

Lemma appends_when (b : bool) (m : M unit) : appends m -> appends (when b m).
Proof. intros Hm. destruct b; [exact Hm | apply appends_ret]. Qed.

Create HintDb appends.

#[local] Hint Resolve appends_ret appends_this appends_update appends_emit
  : appends.

(** Proves [appends] for a computation built from the primitives and from
    member functions already known to append, by following its sequencing
    and case analyses. *)
Ltac appends_step :=
  first
    [ solve [auto with appends nocore]
    | progress cbv zeta
    | progress unfold vtkErrorMacro, vtkWarningMacro,
        vtkGenericWarningMacro, Modified
    | apply appends_when
    | apply appends_bind; [| intros ?]
    | match goal with
      | |- appends (if ?b then _ else _) => destruct b
      | |- appends (match ?x with _ => _ end) => destruct x
      | |- appends (let '(_, _) := ?x in _) => destruct x
      end ].

Ltac appends_auto := intros; repeat appends_step.

Lemma appends_Stat env path : appends (Stat env path).
Proof. unfold Stat. appends_auto. Qed.

Lemma appends_ComputeInternalFileName env slice :
  appends (ComputeInternalFileName env slice).
Proof. unfold ComputeInternalFileName, vtkErrorMacro. appends_auto. Qed.

Lemma appends_ComputeDataIncrements : appends ComputeDataIncrements.
Proof. unfold ComputeDataIncrements, vtkErrorMacro. appends_auto. Qed.

Lemma appends_CloseFile : appends CloseFile.
Proof. unfold CloseFile. appends_auto. Qed.

#[local] Hint Resolve appends_Stat appends_ComputeInternalFileName
  appends_ComputeDataIncrements appends_CloseFile : appends.

Lemma appends_OpenFile env : appends (OpenFile env).
Proof. unfold OpenFile, vtkErrorMacro. appends_auto. Qed.

Lemma appends_DataIncrements_at incs d : appends (DataIncrements_at incs d).
Proof. unfold DataIncrements_at. appends_auto. Qed.

#[local] Hint Resolve appends_OpenFile appends_DataIncrements_at : appends.

Lemma appends_GetHeaderSize env idx : appends (GetHeaderSize env idx).
Proof. unfold GetHeaderSize, vtkErrorMacro. appends_auto. Qed.

#[local] Hint Resolve appends_GetHeaderSize : appends.

Lemma appends_SeekFile_streamStart env i j k :
  appends (SeekFile_streamStart env i j k).
Proof. unfold SeekFile_streamStart. appends_auto. Qed.

#[local] Hint Resolve appends_SeekFile_streamStart : appends.

Lemma appends_SeekFile env i j k : appends (SeekFile env i j k).
Proof. unfold SeekFile, vtkWarningMacro. appends_auto. Qed.

#[local] Hint Resolve appends_SeekFile : appends.

Lemma result_bind {A B} (m : M A) (k : A -> M B) (s : Reader) :
  appends m -> (forall a, appends (k a)) ->
  result (bind m k) s = result (k (result m s)) (after m s).
Proof. intros Hm Hk. apply (bind_observed m k s Hm Hk). Qed.

Lemma after_bind {A B} (m : M A) (k : A -> M B) (s : Reader) :
  appends m -> (forall a, appends (k a)) ->
  after (bind m k) s = after (k (result m s)) (after m s).
Proof. intros Hm Hk. apply (bind_observed m k s Hm Hk). Qed.

Lemma effects_bind {A B} (m : M A) (k : A -> M B) (s : Reader) :
  appends m -> (forall a, appends (k a)) ->
  effects (bind m k) s = effects m s ++ effects (k (result m s)) (after m s).
Proof. intros Hm Hk. apply (bind_observed m k s Hm Hk). Qed.

(** ** Resolving the header size *)

(** [ComputeDataIncrements] writes [DataIncrements] and nothing else, and
    reports at most the unknown scalar type. *)
Lemma ComputeDataIncrements_frame (s : Reader) :
  after ComputeDataIncrements s =
    with_DataIncrements (DataIncrements (after ComputeDataIncrements s)) s /\
  (effects ComputeDataIncrements s = [] \/
   effects ComputeDataIncrements s = [EvError "Unknown DataScalarType"]).
Proof.
  run_member ComputeDataIncrements.
  destruct (vtkTemplateMacro_sizeof (DataScalarType s)); simpl.
  - auto.
  - destruct s; auto.
Qed.

(** [ComputeInternalFileName] writes [InternalFileName] and nothing else;
    it reports an error only when no naming member is set. *)
Lemma ComputeInternalFileName_frame env (slice : Z) (s : Reader) :
  after (ComputeInternalFileName env slice) s =
    with_InternalFileName
      (InternalFileName (after (ComputeInternalFileName env slice) s)) s /\
  (forall msg,
     In (EvError msg) (effects (ComputeInternalFileName env slice) s) ->
     FileName s = None /\ FilePattern s = None /\ FileNames s = None).
Proof.
  run_member ComputeInternalFileName.
  destruct s as [fn fp fpat fns ? ? ? ? ? ? ? ? ? ? ? ? ? ? ? ?]; simpl.
  destruct fn, fpat, fns; simpl; repeat case_match; simpl;
    (split; [reflexivity | intros msg Hin; simpl in Hin; intuition congruence]).
Qed.

Lemma resolved_path_increments env (incs : vec Z 4) (s : Reader) (idx : Z) :
  resolved_path env (with_DataIncrements incs s) idx = resolved_path env s idx.
Proof.
  unfold resolved_path. run_member ComputeInternalFileName.
  repeat case_match; reflexivity.
Qed.

(** The three ways of resolving a path: the list first, then the file
    name, then the pattern with the prefix or alone. *)
Example resolved_path_by_strategy :
  resolved_path no_files
    (after (SetFilePrefix (Some "img"%string)) vtkImageReader2_new) 3
    = Some "img.3"%string /\
  resolved_path no_files
    (after (SetFilePattern (Some "slice%d.raw"%string)) vtkImageReader2_new) 3
    = Some "slice3.raw"%string /\
  resolved_path no_files
    (after (SetFilePattern (Some "%s%d.raw"%string)) vtkImageReader2_new) 3
    = Some "3.raw"%string /\
  resolved_path no_files a_raw_reader 3 = Some "a.raw"%string /\
  resolved_path volume_and_gap volume_reader 1 = Some "missing.raw"%string.
Proof. vm_compute. repeat split; reflexivity. Qed.

Lemma ComputeInternalFileName_increments env (incs : vec Z 4) (s : Reader)
    (slice : Z) :
  effects (ComputeInternalFileName env slice) (with_DataIncrements incs s) =
  effects (ComputeInternalFileName env slice) s.
Proof.
  run_member ComputeInternalFileName.
  repeat case_match; reflexivity.
Qed.

(** [GetHeaderSize(idx)] when no header size was set by hand and a file
    name or a pattern is there: the increments are recomputed, the path is
    resolved and probed, and the answer is the difference of the sizes,
    narrowed to [int] and widened to [unsigned long], or the stored header
    size when the probe fails. *)
Lemma GetHeaderSize_auto env (idx : Z) (s : Reader) :
  ManualHeaderSize s = 0 ->
  FileName s <> None \/ FilePattern s <> None ->
  let s1 := after ComputeDataIncrements s in
  let path := resolved_path env s idx in
  let inc := DataIncrements_at (DataIncrements s1) (FileDimensionality s) in
  result (GetHeaderSize env idx) s =
    match path ≫= env_stat env with
    | Some st_size =>
        to_ulong (to_int (st_size - to_long (result inc s1)))
    | None => HeaderSize s
    end /\
  effects (GetHeaderSize env idx) s =
    effects ComputeDataIncrements s
    ++ effects (ComputeInternalFileName env (to_int idx)) s
    ++ [EvStat path]
    ++ match path ≫= env_stat env with
       | Some _ => effects inc s1
       | None => []
       end /\
  after (GetHeaderSize env idx) s = with_InternalFileName path s1.
Proof.
  intros Hauto Hnamed s1 path inc.
  assert (Hnull : is_null (FileName s) && is_null (FilePattern s) = false).
  { destruct (FileName s), (FilePattern s); simpl; try reflexivity.
    destruct Hnamed; congruence. }
  destruct (ComputeDataIncrements_frame s) as [Hs1 _].
  fold s1 in Hs1.
  destruct (ComputeInternalFileName_frame env (to_int idx) s1) as [Hs2 _].
  assert (Hpath : InternalFileName
                    (after (ComputeInternalFileName env (to_int idx)) s1)
                  = path).
  { unfold path. rewrite Hs1. apply resolved_path_increments. }
  rewrite Hpath in Hs2.
  assert (Heff : effects (ComputeInternalFileName env (to_int idx)) s1
                 = effects (ComputeInternalFileName env (to_int idx)) s).
  { rewrite Hs1. apply ComputeInternalFileName_increments. }
  unfold GetHeaderSize.
  rewrite result_bind, effects_bind, after_bind by
    appends_auto.
  change (result this s) with s. change (after this s) with s.
  change (effects this s) with (@nil Event).
  rewrite Hnull, Hauto. change (0 =? 0) with true. cbv iota.
  rewrite result_bind, effects_bind, after_bind by
    appends_auto.
  fold s1.
  rewrite result_bind, effects_bind, after_bind by
    appends_auto.
  rewrite Heff, Hs2.
  rewrite result_bind, effects_bind, after_bind by
    appends_auto.
  change (result this (with_InternalFileName path s1))
    with (with_InternalFileName path s1).
  change (after this (with_InternalFileName path s1))
    with (with_InternalFileName path s1).
  change (effects this (with_InternalFileName path s1)) with (@nil Event).
  rewrite result_bind, effects_bind, after_bind by
    appends_auto.
  change (InternalFileName (with_InternalFileName path s1)) with path.
  change (after (Stat env path) (with_InternalFileName path s1))
    with (with_InternalFileName path s1).
  change (effects (Stat env path) (with_InternalFileName path s1))
    with [EvStat path].
  change (result (Stat env path) (with_InternalFileName path s1))
    with (match path with Some p => env_stat env p | None => None end).
  assert (Hbind : match path with Some p => env_stat env p | None => None end
                  = path ≫= env_stat env) by (destruct path; reflexivity).
  rewrite Hbind.
  change (DataIncrements (with_InternalFileName path s1))
    with (DataIncrements s1).
  change (FileDimensionality (with_InternalFileName path s1))
    with (FileDimensionality s1).
  assert (Hdim : FileDimensionality s1 = FileDimensionality s)
    by (rewrite Hs1; reflexivity).
  assert (Hhdr : HeaderSize s1 = HeaderSize s) by (rewrite Hs1; reflexivity).
  rewrite Hdim. fold inc.
  destruct (path ≫= env_stat env) as [st_size |].
  - rewrite result_bind, effects_bind, after_bind by
      (unfold inc; appends_auto).
    assert (Hinc : forall r,
              result inc r = result inc s1 /\ after inc r = r /\
              effects inc r = effects inc s1).
    { intros r. unfold inc, DataIncrements_at.
      destruct ((0 <=? FileDimensionality s) && (FileDimensionality s <? 4));
        repeat split. }
    destruct (Hinc (with_InternalFileName path s1)) as (-> & -> & ->).
    simpl. repeat split. rewrite app_nil_r. reflexivity.
  - simpl. rewrite Hhdr. repeat split.
Qed.

(** C1, as the code has it.  With no header size set by hand, a file name
    or pattern present and a failing probe of the resolved path,
    [GetHeaderSize(idx)] answers the stored [HeaderSize]; the probe is made,
    and the only error that the call can report is the unknown scalar type
    of [ComputeDataIncrements].  Nothing says that the file is not
    accessible. *)
Theorem header_probe_failure_falls_back env (idx : Z) (s : Reader) :
  ManualHeaderSize s = 0 ->
  FileName s <> None \/ FilePattern s <> None ->
  resolved_path env s idx ≫= env_stat env = None ->
  result (GetHeaderSize env idx) s = HeaderSize s /\
  HeaderSize (after (GetHeaderSize env idx) s) = HeaderSize s /\
  In (EvStat (resolved_path env s idx)) (effects (GetHeaderSize env idx) s) /\
  (forall msg, In (EvError msg) (effects (GetHeaderSize env idx) s) ->
               msg = "Unknown DataScalarType"%string).
Proof.
  intros Hauto Hnamed Hprobe.
  destruct (GetHeaderSize_auto env idx s Hauto Hnamed) as (Hres & Heff & Haft).
  rewrite Hprobe in Hres, Heff.
  split; [exact Hres |]. split.
  { rewrite Haft. destruct (ComputeDataIncrements_frame s) as [-> _].
    reflexivity. }
  split.
  { rewrite Heff. rewrite !in_app_iff. right. right. left. left. reflexivity. }
  intros msg Hin. rewrite Heff in Hin. rewrite !in_app_iff in Hin.
  destruct Hin as [Hin | [Hin | [Hin | Hin]]].
  - destruct (ComputeDataIncrements_frame s) as [_ [He | He]];
      rewrite He in Hin; simpl in Hin; intuition congruence.
  - destruct (ComputeInternalFileName_frame env (to_int idx) s) as [_ Herr].
    destruct (Herr msg Hin) as (Hn & Hp & _).
    destruct Hnamed; congruence.
  - simpl in Hin. intuition congruence.
  - destruct Hin.
Qed.

Lemma header_probe_failure_falls_back_witness :
  ManualHeaderSize a_raw_reader = 0 /\
  resolved_path no_files a_raw_reader 0 ≫= env_stat no_files = None /\
  result (GetHeaderSize no_files 0) a_raw_reader = HeaderSize a_raw_reader.
Proof.
  assert (Hauto : ManualHeaderSize a_raw_reader = 0) by reflexivity.
  assert (Hprobe : resolved_path no_files a_raw_reader 0 ≫= env_stat no_files
                   = None) by reflexivity.
  assert (Hnamed : FileName a_raw_reader <> None \/
                   FilePattern a_raw_reader <> None) by (left; discriminate).
  destruct (header_probe_failure_falls_back no_files 0 a_raw_reader
              Hauto Hnamed Hprobe) as (Hres & _).
  split; [exact Hauto |]. split; [exact Hprobe | exact Hres].
Defined.

(** C1 as stated fails: the file a.raw cannot be probed, and the header
    size of the reader comes back as 0 with the probe as the only effect;
    no error is reported.  In a read, the probe for slice 1 of the volume
    fails after the header of slice 0 was found to be 4 bytes: the read goes
    on with a header of 0 and delivers two header bytes as the pixel of
    slice 1. *)
Lemma header_probe_failure_is_silent :
  (ManualHeaderSize a_raw_reader = 0 /\
   env_stat no_files "a.raw" = None /\
   result (GetHeaderSize no_files 0) a_raw_reader = 0 /\
   effects (GetHeaderSize no_files 0) a_raw_reader
     = [EvStat (Some "a.raw"%string)]) /\
  (ManualHeaderSize volume_reader = 0 /\
   env_stat volume_and_gap "missing.raw" = None /\
   effects (ExecuteDataWithInformation volume_and_gap two_slices) volume_reader
     = [EvStat (Some "vol.raw"%string); EvOpen (Some "vol.raw"%string);
        EvProgress 0 1; EvStat (Some "vol.raw"%string);
        EvSeek 4; EvRead 0 [Byte.x01; Byte.x02]; EvProgress 1 1;
        EvStat (Some "missing.raw"%string); EvSeek 2;
        EvRead 1 [Byte.x12; Byte.x13]]).
Proof. vm_compute. auto 10. Qed.

(** C3, as the code has it.  With no header size set by hand, a file name
    or pattern present, a file dimensionality that indexes the increments
    and a probe that finds [fileSize] bytes, [GetHeaderSize(idx)] is
    [fileSize] minus the recomputed increment at the file dimensionality,
    narrowed to [int] and then widened to [unsigned long], so never
    negative.  That is [max(0, fileSize - payload)] when the difference
    lies between 0 and INT_MAX; a file shorter than the payload gives the
    difference plus 2^64, not 0. *)
Theorem auto_header_size env (idx : Z) (s : Reader) (fileSize : Z) :
  ManualHeaderSize s = 0 ->
  FileName s <> None \/ FilePattern s <> None ->
  0 <= FileDimensionality s < 4 ->
  resolved_path env s idx ≫= env_stat env = Some fileSize ->
  let payload :=
    increment_at (DataIncrements (after ComputeDataIncrements s))
      (FileDimensionality s) in
  let header := result (GetHeaderSize env idx) s in
  header = to_ulong (to_int (fileSize - to_long payload)) /\
  0 <= header <= ULONG_MAX /\
  (0 <= fileSize < 2 ^ 63 -> 0 <= fileSize - payload <= INT_MAX ->
   header = Z.max 0 (fileSize - payload)) /\
  (0 <= fileSize < payload -> payload - fileSize <= - INT_MIN ->
   payload < 2 ^ 63 ->
   header = 2 ^ 64 + (fileSize - payload)).
Proof.
  intros Hauto Hnamed Hdim Hprobe payload header.
  destruct (GetHeaderSize_auto env idx s Hauto Hnamed) as (Hres & _ & _).
  rewrite Hprobe in Hres.
  assert (Hinc : result (DataIncrements_at
                           (DataIncrements (after ComputeDataIncrements s))
                           (FileDimensionality s))
                   (after ComputeDataIncrements s) = payload).
  { unfold DataIncrements_at.
    destruct (Z.leb_spec 0 (FileDimensionality s)); [| lia].
    destruct (Z.ltb_spec (FileDimensionality s) 4); [| lia].
    reflexivity. }
  rewrite Hinc in Hres. fold header in Hres.
  split; [exact Hres |].
  split; [rewrite Hres; apply to_ulong_range |].
  split.
  - intros Hsize Hdiff.
    assert (Hint : INT_MIN <= fileSize - payload <= INT_MAX)
      by (unfold INT_MIN, INT_MAX, INT_BITS in *; lia).
    assert (Hul : ULONG_MAX = 2 ^ 64 - 1) by reflexivity.
    rewrite Hres, to_long_small
      by (unfold INT_MAX, INT_BITS in *; lia).
    rewrite to_int_small by exact Hint.
    rewrite to_ulong_small by (unfold INT_MAX, INT_BITS in *; lia).
    lia.
  - intros Hshort Hint Hpay.
    rewrite Hres, to_long_small by lia.
    rewrite to_int_small
      by (unfold INT_MIN, INT_MAX, INT_BITS in *; lia).
    unfold to_ulong, wrap_unsigned, LONG_BITS.
    symmetry. apply (Z.mod_unique_pos _ _ (-1)).
    + unfold INT_MIN, INT_BITS in *. lia.
    + lia.
Qed.

Lemma auto_header_size_witness :
  let env := one_file "a.raw" (replicate 10 Byte.x00) in
  resolved_path env a_raw_reader 0 ≫= env_stat env = Some 10 /\
  increment_at (DataIncrements (after ComputeDataIncrements a_raw_reader))
    (FileDimensionality a_raw_reader) = 2 /\
  result (GetHeaderSize env 0) a_raw_reader = Z.max 0 (10 - 2).
Proof.
  intros env.
  assert (Hprobe : resolved_path env a_raw_reader 0 ≫= env_stat env = Some 10)
    by reflexivity.
  split; [exact Hprobe |]. split; [reflexivity |].
  destruct (auto_header_size env 0 a_raw_reader 10) as (_ & _ & Hmax & _).
  - reflexivity.
  - left. discriminate.
  - simpl. lia.
  - exact Hprobe.
  - apply Hmax.
    + lia.
    + vm_compute. split; discriminate.
Defined.

(** C3 as stated fails: a.raw holds one byte where a slice of the reader
    takes two, and the header size comes back as 2^64 - 1, not as
    max(0, 1 - 2) = 0. *)
Lemma auto_header_size_not_clamped :
  let env := one_file "a.raw" [Byte.x00] in
  env_stat env "a.raw" = Some 1 /\
  increment_at (DataIncrements (after ComputeDataIncrements a_raw_reader))
    (FileDimensionality a_raw_reader) = 2 /\
  result (GetHeaderSize env 0) a_raw_reader = 2 ^ 64 - 1 /\
  result (GetHeaderSize env 0) a_raw_reader <> Z.max 0 (1 - 2).
Proof. vm_compute. repeat split; discriminate. Qed.

(** ** Seeking *)

(** [GetHeaderSize] leaves the open stream alone. *)
Lemma GetHeaderSize_File env (idx : Z) (s : Reader) :
  File (after (GetHeaderSize env idx) s) = File s.
Proof.
  destruct (is_null (FileName s) && is_null (FilePattern s)) eqn:Hnull.
  - run_member GetHeaderSize. rewrite Hnull. reflexivity.
  - destruct (Z.eqb_spec (ManualHeaderSize s) 0) as [Hauto | Hmanual].
    + assert (Hnamed : FileName s <> None \/ FilePattern s <> None).
      { destruct (FileName s), (FilePattern s); simpl in Hnull;
          try discriminate; [left | left | right]; discriminate. }
      destruct (GetHeaderSize_auto env idx s Hauto Hnamed) as (_ & _ & ->).
      destruct (ComputeDataIncrements_frame s) as [-> _]. reflexivity.
    + run_member GetHeaderSize. rewrite Hnull.
      destruct (Z.eqb_spec (ManualHeaderSize s) 0); [contradiction |].
      reflexivity.
Qed.

Lemma SeekFile_streamStart_result env (i j k : Z) (s : Reader) :
  result (SeekFile_streamStart env i j k) s =
    let ext := DataExtent s in
    let inc := DataIncrements s in
    let streamStart :=
      ul_mul (to_ulong (int_sub i (ext !!! 0%fin))) (inc !!! 0%fin) in
    let streamStart :=
      if negb (FileLowerLeft s =? 0)
      then ul_add streamStart
             (ul_mul (to_ulong (int_sub j (ext !!! 2%fin))) (inc !!! 1%fin))
      else ul_add streamStart
             (ul_mul
                (to_ulong
                   (int_sub (int_sub (ext !!! 3%fin) (ext !!! 2%fin)) j))
                (inc !!! 1%fin)) in
    let streamStart :=
      if 3 <=? FileDimensionality s
      then ul_add streamStart
             (ul_mul (to_ulong (int_sub k (ext !!! 4%fin))) (inc !!! 2%fin))
      else streamStart in
    ul_add streamStart (result (GetHeaderSize env (to_ulong k)) s).
Proof.
  unfold SeekFile_streamStart.
  rewrite result_bind by appends_auto.
  change (result this s) with s. change (after this s) with s.
  rewrite result_bind by appends_auto.
  reflexivity.
Qed.

Lemma SeekFile_seeks env (i j k : Z) (s : Reader) (f : Stream) :
  File s = Some f ->
  In (EvSeek (to_long (result (SeekFile_streamStart env i j k) s)))
     (effects (SeekFile env i j k) s).
Proof.
  intros Hfile. unfold SeekFile.
  rewrite effects_bind by appends_auto.
  rewrite effects_bind by appends_auto.
  assert (Hafter : File (after (SeekFile_streamStart env i j k) s) = Some f).
  { unfold SeekFile_streamStart.
    rewrite after_bind by appends_auto.
    change (result this s) with s. change (after this s) with s.
    rewrite after_bind by appends_auto.
    change (after (ret ?x) ?r) with r.
    rewrite GetHeaderSize_File. exact Hfile. }
  change (result this ?r) with r. change (after this ?r) with r.
  rewrite Hafter.
  rewrite effects_bind by appends_auto.
  rewrite !in_app_iff. right. right. left. left. reflexivity.
Qed.

(** The [streamStart] of [SeekFile] is the sum of the code, taken as an
    [unsigned long]. *)
Lemma SeekFile_streamStart_sum env (i j k : Z) (s : Reader) :
  result (SeekFile_streamStart env i j k) s
  = to_ulong (seek_sum s i j k
              + result (GetHeaderSize env (to_ulong k)) s).
Proof.
  rewrite SeekFile_streamStart_result. cbv zeta.
  unfold seek_sum, row_difference, orientation, int_sub.
  rewrite to_int_sub_l.
  destruct (FileLowerLeft s =? 0), (3 <=? FileDimensionality s);
    cbv [negb];
    rewrite !ul_mul_to_ulong_l, !ul_add_to_ulong_both, ul_add_to_ulong_l;
    f_equal; ring.
Qed.

(** C6, as the code has it.  The [streamStart] that [SeekFile(i, j, k)]
    computes is, as an [unsigned long], [(i - xMin) * increments[0]], plus
    [(j - yMin) * increments[1]] for a lower-left origin or
    [(yMax - yMin - j) * increments[1]] for an upper-left one, plus
    [(k - zMin) * increments[2]] from file dimensionality 3 on, plus the
    header size that [GetHeaderSize(k)] gives, the three differences being
    [int]s; and it is where an open stream is sent.  Where the three
    differences fit an [int] and the file dimensionality is at most 3 this
    is the sum of the claim, and the sum itself whenever that fits an
    [unsigned long]. *)
Theorem seek_offset_formula env (i j k : Z) (s : Reader) :
  let header := result (GetHeaderSize env (to_ulong k)) s in
  let streamStart := result (SeekFile_streamStart env i j k) s in
  streamStart = to_ulong (seek_sum s i j k + header) /\
  (fits_int (i - DataExtent s !!! 0%fin) ->
   fits_int (row_difference s j) ->
   fits_int (k - DataExtent s !!! 4%fin) ->
   FileDimensionality s <= 3 ->
   let offset := seek_terms s i j k + header in
   streamStart = to_ulong offset /\
   (0 <= offset <= ULONG_MAX -> streamStart = offset)) /\
  (forall f, File s = Some f ->
     In (EvSeek (to_long streamStart)) (effects (SeekFile env i j k) s)).
Proof.
  intros header streamStart.
  assert (Hsum : streamStart = to_ulong (seek_sum s i j k + header))
    by apply SeekFile_streamStart_sum.
  split; [exact Hsum |]. split.
  - intros Hx Hy Hz Hdim offset.
    assert (Hterms : seek_sum s i j k = seek_terms s i j k).
    { unfold seek_sum, seek_terms.
      rewrite (to_int_small _ Hx), (to_int_small _ Hy), (to_int_small _ Hz).
      assert (H3 : (3 <=? FileDimensionality s) = (FileDimensionality s =? 3)).
      { destruct (Z.leb_spec 3 (FileDimensionality s)) as [Hle | Hlt];
          symmetry; [apply Z.eqb_eq | apply Z.eqb_neq]; lia. }
      rewrite H3. unfold row_difference.
      destruct (orientation s); reflexivity. }
    assert (Hmod : streamStart = to_ulong offset)
      by (unfold offset; rewrite <- Hterms; exact Hsum).
    split; [exact Hmod |].
    intros Hfit. rewrite Hmod. apply to_ulong_small. exact Hfit.
  - intros f Hfile. apply (SeekFile_seeks env i j k s f Hfile).
Qed.

Lemma seek_offset_formula_witness :
  FileDimensionality rgb_reader_128 = 2 /\
  result (GetHeaderSize no_files (to_ulong 1)) rgb_reader_128 = 128 /\
  seek_terms rgb_reader_128 2 1 1 = (2 - 0) * 3 + (2 - 0 - 1) * 12 + 0 /\
  result (SeekFile_streamStart no_files 2 1 1) rgb_reader_128 = 146.
Proof.
  assert (Hdim : FileDimensionality rgb_reader_128 = 2) by reflexivity.
  split; [exact Hdim |]. split; [reflexivity |]. split; [reflexivity |].
  destruct (seek_offset_formula no_files 2 1 1 rgb_reader_128)
    as (_ & Hclaim & _).
  destruct Hclaim as [_ Hexact].
  - vm_compute. split; discriminate.
  - vm_compute. split; discriminate.
  - vm_compute. split; discriminate.
  - rewrite Hdim. lia.
  - rewrite Hexact.
    + reflexivity.
    + vm_compute. split; discriminate.
Defined.

(** C6 as stated fails in two places.  At file dimensionality 4 the code
    adds the slice term, which the claim has for dimensionality 3 only: at
    (2, 1, 1) of [four_dimensional_reader] the stream is sent to 182, the
    sum of the claim is 146.  And a difference of two [int]s need not be
    an [int]: at x = 2^31 - 1 of a row that starts at x = -1, inside the
    extent, the stream is sent to 2^64 - 2^32 where the sum of the claim
    is 2^32. *)
Lemma seek_offset_formula_fails :
  (FileDimensionality four_dimensional_reader = 4 /\
   DataExtent four_dimensional_reader = [# 0; 3; 0; 2; 0; 1] /\
   seek_terms four_dimensional_reader 2 1 1
   + result (GetHeaderSize no_files (to_ulong 1)) four_dimensional_reader
     = 146 /\
   result (SeekFile_streamStart no_files 2 1 1) four_dimensional_reader
     = 182) /\
  (DataExtent long_row_reader !!! 0%fin <= 2 ^ 31 - 1
     <= DataExtent long_row_reader !!! 1%fin /\
   FileDimensionality long_row_reader = 2 /\
   seek_terms long_row_reader (2 ^ 31 - 1) 0 0
   + result (GetHeaderSize no_files (to_ulong 0)) long_row_reader
     = 2 ^ 32 /\
   result (SeekFile_streamStart no_files (2 ^ 31 - 1) 0 0) long_row_reader
     = 2 ^ 64 - 2 ^ 32).
Proof. vm_compute. repeat split; discriminate. Qed.

(** [GetHeaderSize] with a header size set by hand. *)
Lemma GetHeaderSize_manual env (idx : Z) (s : Reader) :
  ManualHeaderSize s <> 0 ->
  FileName s <> None \/ FilePattern s <> None ->
  result (GetHeaderSize env idx) s = HeaderSize s /\
  after (GetHeaderSize env idx) s = s /\
  effects (GetHeaderSize env idx) s = [].
Proof.
  intros Hmanual Hnamed. run_member GetHeaderSize.
  assert (Hnull : is_null (FileName s) && is_null (FilePattern s) = false).
  { destruct (FileName s), (FilePattern s); simpl; try reflexivity.
    destruct Hnamed; congruence. }
  rewrite Hnull.
  destruct (Z.eqb_spec (ManualHeaderSize s) 0); [contradiction |].
  simpl. destruct s; auto.
Qed.

(** X19.  With the header size set by hand, row [j] of an upper-left
    file is sought where row [yMax - j] of a lower-left file is, whatever
    [yMin] is: the two orientations mirror each other about [yMax / 2],
    which is the middle of the extent only when [yMin] is 0. *)
Lemma upper_left_mirrors_lower_left env (i j k : Z) (upper lower : Reader) :
  same_but_orientation upper lower ->
  result (SeekFile_streamStart env i j k) upper =
  result (SeekFile_streamStart env i (DataExtent upper !!! 3%fin - j) k) lower.
Proof.
  intros (Hup & Hlow & Hext & Hinc & Hdim & Hhdr & Hmu & Hml & Hnu & Hnl).
  rewrite !SeekFile_streamStart_result. cbv zeta.
  destruct (GetHeaderSize_manual env (to_ulong k) upper Hmu Hnu) as (-> & _).
  destruct (GetHeaderSize_manual env (to_ulong k) lower Hml Hnl) as (-> & _).
  rewrite Hup. change (negb (0 =? 0)) with false.
  destruct (Z.eqb_spec (FileLowerLeft lower) 0); [contradiction |].
  rewrite <- Hext, <- Hinc, <- Hdim, <- Hhdr. cbv [negb].
  unfold int_sub. rewrite to_int_sub_l.
  replace (DataExtent upper !!! 3%fin - j - DataExtent upper !!! 2%fin)
    with (DataExtent upper !!! 3%fin - DataExtent upper !!! 2%fin - j) by lia.
  reflexivity.
Qed.

(** C7 on the code.  For the extent y = 1..2 the offset of row [yMin]
    under an upper-left origin is 0 and the offset of row [yMax] under a
    lower-left origin is 2: they are not equal.  Under the upper-left origin
    row [yMax] is sought 2 bytes before the start of the file. *)
Theorem mirror_fails_off_zero :
  DataIncrements (two_rows 0) = [# 2; 2; 4; 4] /\
  same_but_orientation (two_rows 0) (two_rows 1) /\
  result (SeekFile_streamStart no_files 0 1 0) (two_rows 0) = 0 /\
  result (SeekFile_streamStart no_files 0 2 0) (two_rows 1) = 2 /\
  result (SeekFile_streamStart no_files 0 1 0) (two_rows 0) <>
    result (SeekFile_streamStart no_files 0 2 0) (two_rows 1) /\
  to_long (result (SeekFile_streamStart no_files 0 2 0) (two_rows 0)) = -2.
Proof.
  split; [reflexivity |]. split.
  { unfold same_but_orientation. simpl.
    repeat split; try reflexivity; try discriminate; left; discriminate. }
  vm_compute. repeat split; discriminate.
Qed.

(** ** The memory buffer *)

Lemma buffer_blind_ret {A} (a : A) : buffer_blind (ret a).
Proof. intros m l w. reflexivity. Qed.

Lemma buffer_blind_emit (e : Event) : buffer_blind (emit e).
Proof. intros m l w. reflexivity. Qed.

Lemma buffer_blind_update (f : Reader -> Reader) :
  (forall m l r, f (set_buffer m l r) = set_buffer m l (f r)) ->
  buffer_blind (update f).
Proof.
  intros Hf m l w. unfold update, set_buffer_world. simpl.
  rewrite Hf. reflexivity.
Qed.

Lemma buffer_blind_bind {A B} (c : M A) (k : A -> M B) :
  buffer_blind c -> (forall a, buffer_blind (k a)) -> buffer_blind (bind c k).
Proof.
  intros Hc Hk m l w. unfold bind. rewrite Hc.
  destruct (c w) as [a w1]. simpl. rewrite Hk.
  destruct (k a w1) as [b w2]. reflexivity.
Qed.

Lemma buffer_blind_this_bind {B} (k : Reader -> M B) :
  (forall r, buffer_blind (k r)) ->
  (forall m l r, k (set_buffer m l r) = k r) ->
  buffer_blind (bind this k).
Proof.
  intros Hk Heq m l w. unfold bind, this. simpl.
  rewrite Heq. apply Hk.
Qed.

Lemma buffer_blind_when (b : bool) (c : M unit) :
  buffer_blind c -> buffer_blind (when b c).
Proof. intros Hc. destruct b; [exact Hc | apply buffer_blind_ret]. Qed.

Create HintDb blind.

#[local] Hint Resolve buffer_blind_ret buffer_blind_emit : blind.

Ltac blind_step :=
  first
    [ solve [auto with blind nocore]
    | progress cbv zeta
    | progress unfold vtkErrorMacro, vtkWarningMacro,
        vtkGenericWarningMacro, Modified
    | apply buffer_blind_when
    | apply buffer_blind_update; intros; reflexivity
    | apply buffer_blind_this_bind; [intros ? | intros; reflexivity]
    | apply buffer_blind_bind; [| intros ?]
    | match goal with
      | |- buffer_blind (if ?b then _ else _) => destruct b
      | |- buffer_blind (match ?x with _ => _ end) => destruct x
      | |- buffer_blind (let '(_, _) := ?x in _) => destruct x
      end ].

Ltac blind_auto := intros; repeat blind_step.

Lemma buffer_blind_Stat env path : buffer_blind (Stat env path).
Proof. unfold Stat. blind_auto. Qed.

Lemma buffer_blind_ComputeInternalFileName env slice :
  buffer_blind (ComputeInternalFileName env slice).
Proof. unfold ComputeInternalFileName. blind_auto. Qed.

Lemma buffer_blind_ComputeDataIncrements : buffer_blind ComputeDataIncrements.
Proof. unfold ComputeDataIncrements. blind_auto. Qed.

Lemma buffer_blind_CloseFile : buffer_blind CloseFile.
Proof. unfold CloseFile. blind_auto. Qed.

#[local] Hint Resolve buffer_blind_Stat buffer_blind_ComputeInternalFileName
  buffer_blind_ComputeDataIncrements buffer_blind_CloseFile : blind.

Lemma buffer_blind_OpenFile env : buffer_blind (OpenFile env).
Proof. unfold OpenFile. blind_auto. Qed.

Lemma buffer_blind_DataIncrements_at incs d :
  buffer_blind (DataIncrements_at incs d).
Proof. unfold DataIncrements_at. blind_auto. Qed.

#[local] Hint Resolve buffer_blind_OpenFile buffer_blind_DataIncrements_at
  : blind.

Lemma buffer_blind_GetHeaderSize env idx : buffer_blind (GetHeaderSize env idx).
Proof. unfold GetHeaderSize. blind_auto. Qed.

#[local] Hint Resolve buffer_blind_GetHeaderSize : blind.

Lemma buffer_blind_SeekFile_streamStart env i j k :
  buffer_blind (SeekFile_streamStart env i j k).
Proof. unfold SeekFile_streamStart. blind_auto. Qed.

#[local] Hint Resolve buffer_blind_SeekFile_streamStart : blind.

Lemma buffer_blind_SeekFile env i j k : buffer_blind (SeekFile env i j k).
Proof. unfold SeekFile. blind_auto. Qed.

#[local] Hint Resolve buffer_blind_SeekFile : blind.

Lemma buffer_blind_read_rows env e0 streamRead target swap outIncr1 idx2 rows :
  forall outPtr1 count,
    buffer_blind
      (read_rows env e0 streamRead target swap outIncr1 idx2 rows
         outPtr1 count).
Proof.
  induction rows as [| idx1 rows IH]; intros outPtr1 count; simpl.
  - blind_auto.
  - blind_auto.
Qed.

#[local] Hint Resolve buffer_blind_read_rows : blind.

Lemma buffer_blind_read_slices env e0 streamRead target swap outIncr1 outIncr2
    rows slices :
  forall outPtr2 count,
    buffer_blind
      (read_slices env e0 streamRead target swap outIncr1 outIncr2 rows
         slices outPtr2 count).
Proof.
  induction slices as [| idx2 slices IH]; intros outPtr2 count; simpl.
  - blind_auto.
  - blind_auto.
Qed.

#[local] Hint Resolve buffer_blind_read_slices : blind.

Lemma buffer_blind_vtkImageReader2Update env data sizeofOT :
  buffer_blind (vtkImageReader2Update env data sizeofOT).
Proof. unfold vtkImageReader2Update. blind_auto. Qed.

#[local] Hint Resolve buffer_blind_vtkImageReader2Update : blind.

Lemma buffer_blind_ExecuteDataWithInformation env data :
  buffer_blind (ExecuteDataWithInformation env data).
Proof. unfold ExecuteDataWithInformation. blind_auto. Qed.

Lemma buffer_blind_observed {A} (c : M A) (membuf : option positive)
    (buflen : Z) (s : Reader) :
  buffer_blind c ->
  result c (set_buffer membuf buflen s) = result c s /\
  effects c (set_buffer membuf buflen s) = effects c s /\
  after c (set_buffer membuf buflen s) = set_buffer membuf buflen (after c s).
Proof.
  intros Hc. unfold result, effects, after, run.
  change (mkWorld (set_buffer membuf buflen s) [])
    with (set_buffer_world membuf buflen (mkWorld s [])).
  rewrite Hc. auto.
Qed.

Lemma SetMemoryBuffer_sets (membuf : option positive) (buflen : Z)
    (s : Reader) :
  after (SetMemoryBufferLength buflen) (after (SetMemoryBuffer membuf) s)
  = set_buffer membuf buflen s.
Proof.
  run_member SetMemoryBuffer. run_member SetMemoryBufferLength.
  destruct s as [? ? ? ? ? ? ? ? ? ? mb len ? ? ? ? ? ? ? ?]; simpl.
  case_bool_decide as Hmb; simpl;
    destruct (Z.eqb_spec len buflen) as [Hlen | Hlen]; simpl;
    unfold set_buffer, with_MemoryBuffer, with_MemoryBufferLength; simpl;
    congruence.
Qed.

(** C5, as the code has it.  [SetMemoryBuffer] and [SetMemoryBufferLength]
    store the pointer and the length, and the read does not look at them:
    with a buffer configured, [ExecuteDataWithInformation] has the effects
    it has without one (the same probes, the same files opened, the same
    rows from the same streams) and leaves the object as it would, the
    stored buffer apart. *)
Theorem memory_buffer_is_ignored env (data : ImageData)
    (membuf : option positive) (buflen : Z) (s : Reader) :
  let configured :=
    after (SetMemoryBufferLength buflen) (after (SetMemoryBuffer membuf) s) in
  MemoryBuffer configured = membuf /\
  MemoryBufferLength configured = buflen /\
  effects (ExecuteDataWithInformation env data) configured
    = effects (ExecuteDataWithInformation env data) s /\
  after (ExecuteDataWithInformation env data) configured
    = set_buffer membuf buflen (after (ExecuteDataWithInformation env data) s).
Proof.
  intros configured. unfold configured. rewrite SetMemoryBuffer_sets.
  pose proof (buffer_blind_ExecuteDataWithInformation env data) as Hblind.
  destruct (buffer_blind_observed (ExecuteDataWithInformation env data)
              membuf buflen s Hblind) as (_ & Heff & Haft).
  repeat split; assumption.
Qed.

(** C5 as stated fails: with a memory buffer of two bytes configured, the
    read of one 16-bit pixel probes and opens a.raw and delivers the two
    bytes of that file; when a.raw is not there it stops at the failed
    opening and delivers nothing. *)
Lemma memory_buffer_read_opens_file :
  let s := after (SetMemoryBufferLength 2)
             (after (SetMemoryBuffer (Some 7%positive)) a_raw_reader) in
  MemoryBuffer s = Some 7%positive /\ MemoryBufferLength s = 2 /\
  effects (ExecuteDataWithInformation
             (one_file "a.raw" [Byte.x01; Byte.x02]) one_pixel) s
    = [EvStat (Some "a.raw"%string); EvOpen (Some "a.raw"%string);
       EvProgress 0 1; EvStat (Some "a.raw"%string); EvSeek 0;
       EvRead 0 [Byte.x01; Byte.x02]] /\
  effects (ExecuteDataWithInformation no_files one_pixel) s
    = [EvStat (Some "a.raw"%string);
       EvError "Initialize: Could not open file a.raw"].
Proof. vm_compute. auto. Qed.

(** ** Validating the identity *)

(** When neither a file name nor a pattern is set, the read stops at its
    first test: one error, no probe, no file opened, no row. *)
Lemma ExecuteDataWithInformation_unnamed env (data : ImageData) (s : Reader) :
  FileName s = None -> FilePattern s = None ->
  effects (ExecuteDataWithInformation env data) s = [EvError msg_no_identity]
  /\ after (ExecuteDataWithInformation env data) s = s.
Proof.
  intros Hn Hp. run_member ExecuteDataWithInformation.
  rewrite Hn, Hp. simpl. destruct s; auto.
Qed.

(** C4 on the code.  The reader has an explicit list alone, and the listed
    file is there: [ComputeInternalFileName] and [OpenFile] resolve and open
    it without an error, yet [ExecuteDataWithInformation] reports that a
    file name or pattern must be specified and reads nothing. *)
Theorem explicit_list_alone_is_rejected :
  FileName list_only_reader = None /\
  FilePattern list_only_reader = None /\
  FileNames list_only_reader = Some 1%positive /\
  result (ComputeInternalFileName listed_slice 0 ;;; OpenFile listed_slice)
    list_only_reader = 1 /\
  effects (ComputeInternalFileName listed_slice 0 ;;; OpenFile listed_slice)
    list_only_reader
    = [EvStat (Some "s0.raw"%string); EvOpen (Some "s0.raw"%string)] /\
  effects (ExecuteDataWithInformation listed_slice one_pixel) list_only_reader
    = [EvError msg_no_identity].
Proof. vm_compute. repeat split; reflexivity. Qed.

Lemma never_emits_ret {A} (e : Event) (a : A) : never_emits e (ret a).
Proof. intros w H. exact H. Qed.

Lemma never_emits_this (e : Event) : never_emits e this.
Proof. intros w H. exact H. Qed.

Lemma never_emits_update (e : Event) (f : Reader -> Reader) :
  never_emits e (update f).
Proof. intros w H. exact H. Qed.

Lemma never_emits_emit (e e' : Event) : e' <> e -> never_emits e (emit e').
Proof.
  intros Hne w H. unfold emit. simpl. rewrite in_app_iff.
  intros [Hin | [Hin | []]]; [exact (H Hin) | exact (Hne Hin)].
Qed.

Lemma never_emits_bind {A B} (e : Event) (c : M A) (k : A -> M B) :
  never_emits e c -> (forall a, never_emits e (k a)) ->
  never_emits e (bind c k).
Proof.
  intros Hc Hk w H. unfold bind.
  specialize (Hc w H). destruct (c w) as [a w1]. simpl in Hc.
  apply Hk. exact Hc.
Qed.

Lemma never_emits_when (e : Event) (b : bool) (c : M unit) :
  never_emits e c -> never_emits e (when b c).
Proof. intros Hc. destruct b; [exact Hc | apply never_emits_ret]. Qed.

Create HintDb quiet.

#[local] Hint Resolve never_emits_ret never_emits_this never_emits_update
  : quiet.

Ltac quiet_step :=
  first
    [ solve [auto with quiet nocore]
    | progress cbv zeta
    | progress unfold vtkErrorMacro, vtkWarningMacro,
        vtkGenericWarningMacro, Modified
    | apply never_emits_when
    | apply never_emits_emit; discriminate
    | apply never_emits_bind; [| intros ?]
    | match goal with
      | |- never_emits _ (if ?b then _ else _) => destruct b
      | |- never_emits _ (match ?x with _ => _ end) => destruct x
      | |- never_emits _ (let '(_, _) := ?x in _) => destruct x
      end ].

Ltac quiet_auto := intros; repeat quiet_step.

Lemma quiet_Stat env path :
  never_emits (EvError msg_no_identity) (Stat env path).
Proof. unfold Stat. quiet_auto. Qed.

Lemma quiet_ComputeInternalFileName env slice :
  never_emits (EvError msg_no_identity) (ComputeInternalFileName env slice).
Proof. unfold ComputeInternalFileName. quiet_auto. Qed.

Lemma quiet_ComputeDataIncrements :
  never_emits (EvError msg_no_identity) ComputeDataIncrements.
Proof. unfold ComputeDataIncrements. quiet_auto. Qed.

Lemma quiet_CloseFile : never_emits (EvError msg_no_identity) CloseFile.
Proof. unfold CloseFile. quiet_auto. Qed.

#[local] Hint Resolve quiet_Stat quiet_ComputeInternalFileName
  quiet_ComputeDataIncrements quiet_CloseFile : quiet.

Lemma quiet_OpenFile env : never_emits (EvError msg_no_identity) (OpenFile env).
Proof. unfold OpenFile. quiet_auto. Qed.

Lemma quiet_DataIncrements_at incs d :
  never_emits (EvError msg_no_identity) (DataIncrements_at incs d).
Proof. unfold DataIncrements_at. quiet_auto. Qed.

#[local] Hint Resolve quiet_OpenFile quiet_DataIncrements_at : quiet.

Lemma quiet_GetHeaderSize env idx :
  never_emits (EvError msg_no_identity) (GetHeaderSize env idx).
Proof. unfold GetHeaderSize. quiet_auto. Qed.

#[local] Hint Resolve quiet_GetHeaderSize : quiet.

Lemma quiet_SeekFile env i j k :
  never_emits (EvError msg_no_identity) (SeekFile env i j k).
Proof. unfold SeekFile, SeekFile_streamStart. quiet_auto. Qed.

#[local] Hint Resolve quiet_SeekFile : quiet.

Lemma quiet_read_rows env e0 streamRead target swap outIncr1 idx2 rows :
  forall outPtr1 count,
    never_emits (EvError msg_no_identity)
      (read_rows env e0 streamRead target swap outIncr1 idx2 rows
         outPtr1 count).
Proof.
  induction rows as [| idx1 rows IH]; intros outPtr1 count; simpl; quiet_auto.
Qed.

#[local] Hint Resolve quiet_read_rows : quiet.

Lemma quiet_read_slices env e0 streamRead target swap outIncr1 outIncr2 rows
    slices :
  forall outPtr2 count,
    never_emits (EvError msg_no_identity)
      (read_slices env e0 streamRead target swap outIncr1 outIncr2 rows
         slices outPtr2 count).
Proof.
  induction slices as [| idx2 slices IH]; intros outPtr2 count; simpl;
    quiet_auto.
Qed.

#[local] Hint Resolve quiet_read_slices : quiet.

Lemma quiet_vtkImageReader2Update env data sizeofOT :
  never_emits (EvError msg_no_identity)
    (vtkImageReader2Update env data sizeofOT).
Proof. unfold vtkImageReader2Update. quiet_auto. Qed.

#[local] Hint Resolve quiet_vtkImageReader2Update : quiet.

(** X20.  The identity test of the read looks at [FileName] and
    [FilePattern] and at nothing else: the read reports the missing
    identity exactly when both are null, whatever [FileNames] is. *)
Lemma identity_validation_tests_two_members env (data : ImageData)
    (s : Reader) :
  In (EvError msg_no_identity) (effects (ExecuteDataWithInformation env data) s)
  <-> FileName s = None /\ FilePattern s = None.
Proof.
  assert (Hq : never_emits (EvError msg_no_identity)
                 (ComputeDataIncrements ;;;
                  r' <-- this ;;
                  match vtkTemplateMacro_sizeof (DataScalarType r') with
                  | Some sizeofOT => vtkImageReader2Update env data sizeofOT
                  | None => vtkErrorMacro "UpdateFromFile: Unknown data type"
                  end)) by quiet_auto.
  specialize (Hq (mkWorld s []) (fun H => H)).
  split.
  - intros Hin.
    destruct (FileName s) as [name |] eqn:Hn;
      [exfalso | destruct (FilePattern s) as [pattern |] eqn:Hp;
                   [exfalso | auto]];
      apply Hq; revert Hin;
      unfold effects, run, ExecuteDataWithInformation;
      unfold bind at 1, this at 1; simpl; rewrite Hn; simpl;
      try (rewrite Hp; simpl); exact (fun H => H).
  - intros [Hn Hp].
    destruct (ExecuteDataWithInformation_unnamed env data s Hn Hp) as [-> _].
    left. reflexivity.
Qed.

(** ** The byte order of the file *)

Lemma SetSwapBytes_sets (arg : Z) (s : Reader) :
  SwapBytes (after (SetSwapBytes arg) s) = arg.
Proof.
  run_member SetSwapBytes.
  destruct (Z.eqb_spec (SwapBytes s) arg) as [Heq | Hne]; simpl; auto.
Qed.

(** X1.  Whatever the platform and whatever the object held before,
    [GetDataByteOrder] after [SetDataByteOrder(byteOrder)] gives the
    big-endian tag when [byteOrder] is that tag and the little-endian tag for
    every other value; [GetDataByteOrderAsString] agrees with it, and bytes
    are swapped exactly when the order asked for is not the platform's. *)
Theorem byte_order_round_trip (bigendian : bool) (BIG LITTLE : Z)
    (byteOrder : Z) (s : Reader) :
  let s' := after (SetDataByteOrder bigendian BIG byteOrder) s in
  result (GetDataByteOrder bigendian BIG LITTLE) s'
    = (if byteOrder =? BIG then BIG else LITTLE) /\
  result (GetDataByteOrderAsString bigendian) s'
    = (if byteOrder =? BIG then "BigEndian"%string
       else "LittleEndian"%string) /\
  SwapBytes s' = (if Bool.eqb (byteOrder =? BIG) bigendian then 0 else 1).
Proof.
  intros s'.
  assert (Hswap : SwapBytes s'
                  = if Bool.eqb (byteOrder =? BIG) bigendian then 0 else 1).
  { unfold s', SetDataByteOrder, SetDataByteOrderToBigEndian,
      SetDataByteOrderToLittleEndian, SwapBytesOn, SwapBytesOff.
    destruct (byteOrder =? BIG), bigendian; simpl; apply SetSwapBytes_sets. }
  split; [| split; [| exact Hswap]].
  - run_member GetDataByteOrder. rewrite Hswap.
    destruct (byteOrder =? BIG), bigendian; reflexivity.
  - run_member GetDataByteOrderAsString. rewrite Hswap.
    destruct (byteOrder =? BIG), bigendian; reflexivity.
Qed.

(** ** What a member function leaves alone *)

Lemma preserves_ret {A X} (proj : Reader -> X) (a : A) : preserves proj (ret a).
Proof. intros w. reflexivity. Qed.

Lemma preserves_this {X} (proj : Reader -> X) : preserves proj this.
Proof. intros w. reflexivity. Qed.

Lemma preserves_emit {X} (proj : Reader -> X) (e : Event) :
  preserves proj (emit e).
Proof. intros w. reflexivity. Qed.

Lemma preserves_update {X} (proj : Reader -> X) (f : Reader -> Reader) :
  (forall r, proj (f r) = proj r) -> preserves proj (update f).
Proof. intros Hf w. apply Hf. Qed.

Lemma preserves_bind {A B X} (proj : Reader -> X) (c : M A) (k : A -> M B) :
  preserves proj c -> (forall a, preserves proj (k a)) ->
  preserves proj (bind c k).
Proof.
  intros Hc Hk w. unfold bind.
  specialize (Hc w). destruct (c w) as [a w1]. simpl in Hc.
  rewrite <- Hc. apply Hk.
Qed.

Lemma preserves_when {X} (proj : Reader -> X) (b : bool) (c : M unit) :
  preserves proj c -> preserves proj (when b c).
Proof. intros Hc. destruct b; [exact Hc | apply preserves_ret]. Qed.

Create HintDb frame.

#[local] Hint Resolve preserves_ret preserves_this preserves_emit : frame.

Ltac frame_step :=
  first
    [ solve [auto with frame nocore]
    | progress cbv zeta
    | progress unfold vtkErrorMacro, vtkWarningMacro,
        vtkGenericWarningMacro, Modified
    | apply preserves_when
    | apply preserves_update; intros; reflexivity
    | apply preserves_bind; [| intros ?]
    | match goal with
      | |- preserves _ (if ?b then _ else _) => destruct b
      | |- preserves _ (match ?x with _ => _ end) => destruct x
      | |- preserves _ (let '(_, _) := ?x in _) => destruct x
      end ].

Ltac frame_auto := intros; repeat frame_step.

Lemma configuration_Stat env path : preserves configuration (Stat env path).
Proof. unfold Stat. frame_auto. Qed.

Lemma configuration_ComputeInternalFileName env slice :
  preserves configuration (ComputeInternalFileName env slice).
Proof. unfold ComputeInternalFileName. frame_auto. Qed.

Lemma configuration_ComputeDataIncrements :
  preserves configuration ComputeDataIncrements.
Proof. unfold ComputeDataIncrements. frame_auto. Qed.

Lemma configuration_CloseFile : preserves configuration CloseFile.
Proof. unfold CloseFile. frame_auto. Qed.

#[local] Hint Resolve configuration_Stat configuration_ComputeInternalFileName
  configuration_ComputeDataIncrements configuration_CloseFile : frame.

Lemma configuration_OpenFile env : preserves configuration (OpenFile env).
Proof. unfold OpenFile. frame_auto. Qed.

Lemma configuration_DataIncrements_at incs d :
  preserves configuration (DataIncrements_at incs d).
Proof. unfold DataIncrements_at. frame_auto. Qed.

#[local] Hint Resolve configuration_OpenFile configuration_DataIncrements_at
  : frame.

Lemma configuration_GetHeaderSize env idx :
  preserves configuration (GetHeaderSize env idx).
Proof. unfold GetHeaderSize. frame_auto. Qed.

#[local] Hint Resolve configuration_GetHeaderSize : frame.

Lemma configuration_SeekFile env i j k :
  preserves configuration (SeekFile env i j k).
Proof. unfold SeekFile, SeekFile_streamStart. frame_auto. Qed.

#[local] Hint Resolve configuration_SeekFile : frame.

Lemma configuration_read_rows env e0 streamRead target swap outIncr1 idx2 rows :
  forall outPtr1 count,
    preserves configuration
      (read_rows env e0 streamRead target swap outIncr1 idx2 rows
         outPtr1 count).
Proof.
  induction rows as [| idx1 rows IH]; intros outPtr1 count; simpl; frame_auto.
Qed.

#[local] Hint Resolve configuration_read_rows : frame.

Lemma configuration_read_slices env e0 streamRead target swap outIncr1
    outIncr2 rows slices :
  forall outPtr2 count,
    preserves configuration
      (read_slices env e0 streamRead target swap outIncr1 outIncr2 rows
         slices outPtr2 count).
Proof.
  induction slices as [| idx2 slices IH]; intros outPtr2 count; simpl;
    frame_auto.
Qed.

#[local] Hint Resolve configuration_read_slices : frame.

Lemma configuration_vtkImageReader2Update env data sizeofOT :
  preserves configuration (vtkImageReader2Update env data sizeofOT).
Proof. unfold vtkImageReader2Update. frame_auto. Qed.

#[local] Hint Resolve configuration_vtkImageReader2Update : frame.

Lemma configuration_ExecuteDataWithInformation env data :
  preserves configuration (ExecuteDataWithInformation env data).
Proof. unfold ExecuteDataWithInformation. frame_auto. Qed.

Lemma preserves_after {A X} (proj : Reader -> X) (c : M A) (s : Reader) :
  preserves proj c -> proj (after c s) = proj s.
Proof. intros Hc. apply (Hc (mkWorld s [])). Qed.

(** X2.  Reading, seeking, opening and resolving the header size do not
    touch what the caller configured: after [ExecuteDataWithInformation],
    [SeekFile], [OpenFile] or [GetHeaderSize] every member other than
    [InternalFileName], [File] and [DataIncrements] is as it was. *)
Theorem read_keeps_configuration env (data : ImageData) (i j k idx : Z)
    (s : Reader) :
  configuration (after (ExecuteDataWithInformation env data) s)
    = configuration s /\
  configuration (after (SeekFile env i j k) s) = configuration s /\
  configuration (after (OpenFile env) s) = configuration s /\
  configuration (after (GetHeaderSize env idx) s) = configuration s.
Proof.
  repeat split; apply preserves_after.
  - apply configuration_ExecuteDataWithInformation.
  - apply configuration_SeekFile.
  - apply configuration_OpenFile.
  - apply configuration_GetHeaderSize.
Qed.

(** ** The header size set by hand *)

Lemma SetHeaderSize_fields (size : Z) (s : Reader) :
  HeaderSize (after (SetHeaderSize size) s) = size /\
  ManualHeaderSize (after (SetHeaderSize size) s) = 1 /\
  FileName (after (SetHeaderSize size) s) = FileName s /\
  FilePattern (after (SetHeaderSize size) s) = FilePattern s.
Proof.
  run_member SetHeaderSize.
  destruct (Z.eqb_spec size (HeaderSize s)) as [Heq | Hne]; simpl; auto.
Qed.

(** X3.  Once [SetHeaderSize(size)] was called on a reader with a file
    name or a pattern, [GetHeaderSize(idx)] answers [size] for every slice
    and in every file system, without a probe and without an effect, and
    still does after a read. *)
Theorem manual_header_is_sticky env env' (data : ImageData) (size idx : Z)
    (s : Reader) :
  FileName s <> None \/ FilePattern s <> None ->
  let s1 := after (SetHeaderSize size) s in
  let s2 := after (ExecuteDataWithInformation env data) s1 in
  (result (GetHeaderSize env' idx) s1 = size /\
   effects (GetHeaderSize env' idx) s1 = [] /\
   after (GetHeaderSize env' idx) s1 = s1) /\
  (result (GetHeaderSize env' idx) s2 = size /\
   effects (GetHeaderSize env' idx) s2 = [] /\
   after (GetHeaderSize env' idx) s2 = s2).
Proof.
  intros Hnamed s1 s2.
  destruct (SetHeaderSize_fields size s) as (Hsize & Hmanual & Hfn & Hfp).
  fold s1 in Hsize, Hmanual, Hfn, Hfp.
  assert (Hnamed1 : FileName s1 <> None \/ FilePattern s1 <> None)
    by (rewrite Hfn, Hfp; exact Hnamed).
  assert (Hman1 : ManualHeaderSize s1 <> 0) by (rewrite Hmanual; discriminate).
  pose proof (preserves_after configuration
                (ExecuteDataWithInformation env data) s1
                (configuration_ExecuteDataWithInformation env data)) as Hcfg.
  fold s2 in Hcfg. unfold configuration in Hcfg.
  injection Hcfg as Hn2 Hp2 Hpat2 _ _ _ _ _ _ Hhdr2 Hman2 _ _ _ _ _ _.
  assert (Hnamed2 : FileName s2 <> None \/ FilePattern s2 <> None)
    by (rewrite Hn2, Hpat2; exact Hnamed1).
  assert (Hman2' : ManualHeaderSize s2 <> 0) by (rewrite Hman2; exact Hman1).
  split.
  - destruct (GetHeaderSize_manual env' idx s1 Hman1 Hnamed1) as (-> & -> & ->).
    auto.
  - destruct (GetHeaderSize_manual env' idx s2 Hman2' Hnamed2)
      as (-> & -> & ->).
    rewrite Hhdr2. auto.
Qed.

Lemma manual_header_is_sticky_witness :
  let s1 := after (SetHeaderSize 128) a_raw_reader in
  let s2 := after (ExecuteDataWithInformation no_files one_pixel) s1 in
  (FileName a_raw_reader <> None \/ FilePattern a_raw_reader <> None) /\
  result (GetHeaderSize (one_file "a.raw" [Byte.x00]) 7) s1 = 128 /\
  result (GetHeaderSize (one_file "a.raw" [Byte.x00]) 7) s2 = 128.
Proof.
  intros s1 s2.
  assert (Hnamed : FileName a_raw_reader <> None \/
                   FilePattern a_raw_reader <> None) by (left; discriminate).
  destruct (manual_header_is_sticky no_files (one_file "a.raw" [Byte.x00])
              one_pixel 128 7 a_raw_reader Hnamed)
    as ((H1 & _) & (H2 & _)).
  split; [exact Hnamed |]. split; [exact H1 | exact H2].
Defined.

(** ** The file that is probed *)

(** The slice index survives the conversions of [SeekFile] and
    [GetHeaderSize]: [int] to [unsigned long] and back. *)
Lemma to_int_to_ulong (k : Z) :
  INT_MIN <= k <= INT_MAX -> to_int (to_ulong k) = k.
Proof.
  intros Hk. rewrite <- (to_int_small k Hk) at 2.
  unfold to_int, to_ulong, wrap_signed, wrap_unsigned, INT_BITS, LONG_BITS.
  assert (Hmod : (k mod 2 ^ 64) mod 2 ^ 32 = k mod 2 ^ 32).
  { apply Z.mod_mod_divide. exists (2 ^ 32). reflexivity. }
  rewrite Hmod. reflexivity.
Qed.

Lemma GetHeaderSize_probes env (idx : Z) (s : Reader) :
  ManualHeaderSize s = 0 ->
  FileName s <> None \/ FilePattern s <> None ->
  In (EvStat (resolved_path env s idx)) (effects (GetHeaderSize env idx) s).
Proof.
  intros Hauto Hnamed.
  destruct (GetHeaderSize_auto env idx s Hauto Hnamed) as (_ & -> & _).
  rewrite !in_app_iff. right. right. left. left. reflexivity.
Qed.

(** X4.  With the header size in automatic mode, [SeekFile(i, j, k)]
    probes the file that [ComputeInternalFileName(k)] resolves, for every
    [int] k, negative ones too, whatever file is open; and the
    [GetHeaderSize()] without argument probes the file of slice 0 when a
    list of names is set and the file of slice [DataExtent[4]] otherwise. *)
Theorem header_probe_follows_slice env (i j k : Z) (s : Reader) :
  ManualHeaderSize s = 0 ->
  FileName s <> None \/ FilePattern s <> None ->
  let path_of slice :=
    InternalFileName (after (ComputeInternalFileName env slice) s) in
  (INT_MIN <= k <= INT_MAX ->
   In (EvStat (path_of k)) (effects (SeekFile env i j k) s)) /\
  (FileNames s <> None ->
   In (EvStat (path_of 0)) (effects (GetHeaderSize_first env) s)) /\
  (FileNames s = None ->
   INT_MIN <= DataExtent s !!! 4%fin <= INT_MAX ->
   In (EvStat (path_of (DataExtent s !!! 4%fin)))
      (effects (GetHeaderSize_first env) s)).
Proof.
  intros Hauto Hnamed path_of.
  assert (Hpath : forall z, INT_MIN <= z <= INT_MAX ->
            resolved_path env s (to_ulong z) = path_of z).
  { intros z Hz. unfold resolved_path, path_of.
    rewrite (to_int_to_ulong z Hz). reflexivity. }
  split; [| split].
  - intros Hk. unfold SeekFile.
    rewrite effects_bind by appends_auto.
    unfold SeekFile_streamStart at 1.
    rewrite effects_bind by appends_auto.
    change (result this s) with s. change (after this s) with s.
    rewrite effects_bind by appends_auto.
    rewrite !in_app_iff. left. right. left.
    rewrite <- (Hpath k Hk). apply GetHeaderSize_probes; assumption.
  - intros Hlist. unfold GetHeaderSize_first.
    rewrite effects_bind by appends_auto.
    change (result this s) with s. change (after this s) with s.
    destruct (FileNames s) as [a |]; [| contradiction]. simpl.
    change (path_of 0) with (resolved_path env s 0).
    apply GetHeaderSize_probes; assumption.
  - intros Hnone Hz. unfold GetHeaderSize_first.
    rewrite effects_bind by appends_auto.
    change (result this s) with s. change (after this s) with s.
    rewrite Hnone. simpl.
    rewrite <- (Hpath _ Hz). apply GetHeaderSize_probes; assumption.
Qed.

Lemma header_probe_follows_slice_witness :
  ManualHeaderSize volume_reader = 0 /\
  INT_MIN <= 1 <= INT_MAX /\
  InternalFileName (after (ComputeInternalFileName volume_and_gap 1)
                      volume_reader) = Some "missing.raw"%string /\
  In (EvStat (Some "missing.raw"%string))
     (effects (SeekFile volume_and_gap 0 0 1) volume_reader).
Proof.
  assert (Hauto : ManualHeaderSize volume_reader = 0) by reflexivity.
  assert (Hk : INT_MIN <= 1 <= INT_MAX) by (vm_compute; split; discriminate).
  assert (Hnamed : FileName volume_reader <> None \/
                   FilePattern volume_reader <> None) by (right; discriminate).
  destruct (header_probe_follows_slice volume_and_gap 0 0 1 volume_reader
              Hauto Hnamed) as (Hseek & _).
  split; [exact Hauto |]. split; [exact Hk |]. split; [reflexivity |].
  exact (Hseek Hk).
Defined.

(** ** Opening the file *)

Lemma classic_named (s : Reader) : named s \/ ~ named s.
Proof.
  unfold named.
  destruct (FileName s); [left; left; discriminate |].
  destruct (FilePattern s); [left; right; left; discriminate |].
  destruct (FileNames s); [left; right; right; discriminate |].
  right. intros [H | [H | H]]; congruence.
Qed.

Lemma OpenFile_unnamed env (s : Reader) :
  ~ named s ->
  result (OpenFile env) s = 0 /\ after (OpenFile env) s = s /\
  count_events is_error (effects (OpenFile env) s) = 1%nat.
Proof.
  intros Hun. unfold named in Hun.
  run_member OpenFile.
  destruct (FileName s) eqn:Hn; [exfalso; apply Hun; left; discriminate |].
  destruct (FilePattern s) eqn:Hp;
    [exfalso; apply Hun; right; left; discriminate |].
  destruct (FileNames s) eqn:Hl;
    [exfalso; apply Hun; right; right; discriminate |].
  simpl. destruct s; auto.
Qed.

Lemma named_not_all_null (s : Reader) :
  named s ->
  is_null (FileName s) && is_null (FilePattern s) && is_null (FileNames s)
  = false.
Proof.
  intros [H | [H | H]];
    destruct (FileName s), (FilePattern s), (FileNames s); simpl;
    congruence.
Qed.

Lemma OpenFile_named env (s : Reader) :
  named s ->
  match InternalFileName s with
  | Some path =>
      match env_stat env path with
      | Some _ =>
          match env_open env path with
          | Some bytes =>
              result (OpenFile env) s = 1 /\
              File (after (OpenFile env) s) = Some (fresh_stream bytes) /\
              count_events is_error (effects (OpenFile env) s) = 0%nat
          | None =>
              result (OpenFile env) s = 0 /\
              (exists f, File (after (OpenFile env) s) = Some f /\
                         st_fail f = true) /\
              count_events is_error (effects (OpenFile env) s) = 1%nat
          end
      | None =>
          result (OpenFile env) s = 0 /\
          File (after (OpenFile env) s) = None /\
          count_events is_error (effects (OpenFile env) s) = 1%nat
      end
  | None =>
      result (OpenFile env) s = 0 /\
      File (after (OpenFile env) s) = None /\
      count_events is_error (effects (OpenFile env) s) = 1%nat
  end.
Proof.
  intros Hnamed. pose proof (named_not_all_null s Hnamed) as Hnull.
  unfold after, effects, result, run, OpenFile, CloseFile, Stat, Modified,
    vtkErrorMacro, when, bind, this, update, emit, ret.
  destruct s as [fn fp fpat fns ifn file ? ? ? ? ? ? ? ? ? ? ? ? ? ?].
  cbn [FileName FilePattern FileNames InternalFileName File self trace] in *.
  rewrite Hnull.
  destruct ifn as [path |]; cbn;
    [destruct (env_stat env path) as [size |]; cbn;
     [destruct (env_open env path) as [bytes |] |] |];
    destruct file as [f |]; cbn; eauto 6.
Qed.

(** X5.  [OpenFile] returns 1 exactly when a naming member is set and the
    resolved [InternalFileName] is a file that can be probed and opened; the
    stream it then leaves is at the start of that file, and nothing is
    reported.  Otherwise it returns 0 and reports one error.  With no naming
    member it leaves the object, an open stream included, as it was; with a
    naming member and a failing probe it leaves no stream at all, the one
    that was open being closed first. *)
Theorem OpenFile_outcome env (s : Reader) :
  let r := result (OpenFile env) s in
  let s' := after (OpenFile env) s in
  let errors := count_events is_error (effects (OpenFile env) s) in
  (r = 1 <->
   named s /\
   exists path bytes,
     InternalFileName s = Some path /\ env_stat env path <> None /\
     env_open env path = Some bytes) /\
  (forall path bytes,
     named s -> InternalFileName s = Some path ->
     env_stat env path <> None -> env_open env path = Some bytes ->
     File s' = Some (fresh_stream bytes) /\ errors = 0%nat) /\
  (r <> 1 -> r = 0 /\ errors = 1%nat) /\
  (~ named s -> s' = s) /\
  (named s -> InternalFileName s ≫= env_stat env = None -> File s' = None).
Proof.
  intros r s' errors.
  destruct (classic_named s) as [Hnamed | Hun].
  - pose proof (OpenFile_named env s Hnamed) as Hcase.
    fold r s' errors in Hcase.
    destruct (InternalFileName s) as [path |] eqn:Hpath;
      [destruct (env_stat env path) as [size |] eqn:Hstat;
       [destruct (env_open env path) as [bytes |] eqn:Hopen |] |];
      simpl; destruct Hcase as (Hr & Hf & He);
      (split; [split; [intros Hone | intros (_ & p & b & Heq & Hst & Hop)] |
       split; [intros p b _ Heq Hst Hop |
       split; [intros Hone |
       split; [intros Hun | intros _ Hfail]]]]);
      simplify_eq; try (rewrite Hstat in *); try contradiction;
      try lia; try congruence; auto.
    split; [assumption |]. exists path, bytes. rewrite Hstat. auto.
  - destruct (OpenFile_unnamed env s Hun) as (Hr & Hs & He).
    fold r in Hr. fold s' in Hs. fold errors in He.
    split; [split; [intros Hone; lia | tauto] |].
    split; [tauto |].
    split; [auto |]. split; [auto | tauto].
Qed.

Lemma OpenFile_outcome_witness :
  let env := one_file "a.raw" [Byte.x01; Byte.x02] in
  let s := after (ComputeInternalFileName env 0) a_raw_reader in
  named s /\ InternalFileName s = Some "a.raw"%string /\
  env_stat env "a.raw" <> None /\
  File (after (OpenFile env) s) = Some (fresh_stream [Byte.x01; Byte.x02]).
Proof.
  intros env s.
  assert (Hnamed : named s) by (left; discriminate).
  assert (Hpath : InternalFileName s = Some "a.raw"%string) by reflexivity.
  assert (Hstat : env_stat env "a.raw" <> None) by discriminate.
  destruct (OpenFile_outcome env s) as (_ & Hopen & _).
  destruct (Hopen "a.raw"%string [Byte.x01; Byte.x02] Hnamed Hpath Hstat
              eq_refl) as [Hfile _].
  split; [exact Hnamed |]. split; [exact Hpath |]. split; [exact Hstat |].
  exact Hfile.
Defined.

(** ** One stream at a time *)

Lemma stream_held_app (held : bool) (t1 t2 : list Event) :
  stream_held held (t1 ++ t2) =
  match stream_held held t1 with
  | Some held' => stream_held held' t2
  | None => None
  end.
Proof.
  revert held. induction t1 as [| e t1 IH]; intros held; simpl.
  - reflexivity.
  - destruct (handle_step held e); [apply IH | reflexivity].
Qed.

Lemma keeps_handles_ret {A} (a : A) : keeps_handles (ret a).
Proof. intros b w H. exact H. Qed.

Lemma keeps_handles_this : keeps_handles this.
Proof. intros b w H. exact H. Qed.

Lemma keeps_handles_update (f : Reader -> Reader) :
  (forall r, File (f r) = File r) -> keeps_handles (update f).
Proof.
  intros Hf b w H. unfold handles_agree, update in *. simpl.
  rewrite Hf. exact H.
Qed.

Lemma keeps_handles_emit (e : Event) :
  (forall held, handle_step held e = Some held) -> keeps_handles (emit e).
Proof.
  intros He b w H. unfold handles_agree, emit in *. simpl.
  rewrite stream_held_app, H. simpl. rewrite He. reflexivity.
Qed.

Lemma keeps_handles_bind {A B} (c : M A) (k : A -> M B) :
  keeps_handles c -> (forall a, keeps_handles (k a)) ->
  keeps_handles (bind c k).
Proof.
  intros Hc Hk b w H. unfold bind.
  specialize (Hc b w H). destruct (c w) as [a w1]. simpl in Hc.
  apply Hk. exact Hc.
Qed.

Lemma keeps_handles_when (b : bool) (c : M unit) :
  keeps_handles c -> keeps_handles (when b c).
Proof. intros Hc. destruct b; [exact Hc | apply keeps_handles_ret]. Qed.

Create HintDb handles.

#[local] Hint Resolve keeps_handles_ret keeps_handles_this : handles.

Ltac handles_step :=
  first
    [ solve [auto with handles nocore]
    | progress cbv zeta
    | progress unfold vtkErrorMacro, vtkWarningMacro,
        vtkGenericWarningMacro, Modified
    | apply keeps_handles_when
    | apply keeps_handles_update; intros; reflexivity
    | apply keeps_handles_emit; intros; reflexivity
    | apply keeps_handles_bind; [| intros ?]
    | match goal with
      | |- keeps_handles (if ?b then _ else _) => destruct b
      | |- keeps_handles (match ?x with _ => _ end) => destruct x
      | |- keeps_handles (let '(_, _) := ?x in _) => destruct x
      end ].

Ltac handles_auto := intros; repeat handles_step.

Ltac handles_from H :=
  match goal with
  | |- handles_agree ?b (snd (?c ?w)) =>
      let Hk := fresh in
      cut (keeps_handles c); [intros Hk; exact (Hk b w H) | handles_auto]
  end.

Lemma keeps_handles_Stat env path : keeps_handles (Stat env path).
Proof. unfold Stat. handles_auto. Qed.

Lemma keeps_handles_ComputeInternalFileName env slice :
  keeps_handles (ComputeInternalFileName env slice).
Proof. unfold ComputeInternalFileName. handles_auto. Qed.

Lemma keeps_handles_ComputeDataIncrements : keeps_handles ComputeDataIncrements.
Proof. unfold ComputeDataIncrements. handles_auto. Qed.

Lemma keeps_handles_DataIncrements_at incs d :
  keeps_handles (DataIncrements_at incs d).
Proof. unfold DataIncrements_at. handles_auto. Qed.

#[local] Hint Resolve keeps_handles_Stat keeps_handles_ComputeInternalFileName
  keeps_handles_ComputeDataIncrements keeps_handles_DataIncrements_at
  : handles.

Lemma keeps_handles_GetHeaderSize env idx :
  keeps_handles (GetHeaderSize env idx).
Proof. unfold GetHeaderSize. handles_auto. Qed.

#[local] Hint Resolve keeps_handles_GetHeaderSize : handles.

Lemma keeps_handles_SeekFile_streamStart env i j k :
  keeps_handles (SeekFile_streamStart env i j k).
Proof. unfold SeekFile_streamStart. handles_auto. Qed.

(** [CloseFile] ends with no stream, and closes only a stream that is
    held. *)
Lemma CloseFile_handles (held0 : bool) (w : World) :
  handles_agree held0 w ->
  handles_agree held0 (snd (CloseFile w)) /\
  File (self (snd (CloseFile w))) = None.
Proof.
  destruct w as [s t]. unfold handles_agree, CloseFile, bind, this, when,
    emit, update, ret. simpl.
  destruct (File s) as [f |] eqn:Hf; simpl; intros H.
  - rewrite stream_held_app, H. simpl. auto.
  - rewrite Hf. auto.
Qed.

Lemma keeps_handles_CloseFile : keeps_handles CloseFile.
Proof. intros b w H. apply CloseFile_handles. exact H. Qed.

Lemma keeps_handles_OpenFile env : keeps_handles (OpenFile env).
Proof.
  intros b w H. unfold OpenFile. unfold bind at 1, this at 1.
  cbn [fst snd].
  destruct (is_null (FileName (self w)) && is_null (FilePattern (self w))
            && is_null (FileNames (self w))).
  - handles_from H.
  - unfold bind at 1.
    destruct (CloseFile_handles b w H) as [Hc Hnone].
    destruct (CloseFile w) as [[] w1]. cbn [snd] in Hc, Hnone.
    unfold bind at 1.
    pose proof (keeps_handles_Stat env (InternalFileName (self w)) b w1 Hc)
      as Hs.
    assert (Hnone' : File (self (snd (Stat env (InternalFileName (self w)) w1)))
                     = None).
    { unfold Stat, bind, emit, ret. simpl. exact Hnone. }
    destruct (Stat env (InternalFileName (self w)) w1) as [fs w2].
    cbn [snd] in Hs, Hnone'.
    unfold bind at 1.
    assert (Hopen : handles_agree b
              (snd (when (not_null fs)
                      (emit (EvOpen (InternalFileName (self w))) ;;;
                       update (with_File
                         (Some match InternalFileName (self w) ≫= env_open env
                               with
                               | Some bytes =>
                                   {| st_bytes := bytes; st_pos := 0;
                                      st_fail := false |}
                               | None =>
                                   {| st_bytes := []; st_pos := 0;
                                      st_fail := true |}
                               end))) w2))).
    { destruct fs as [size |]; simpl; [| exact Hs].
      unfold handles_agree, bind, emit, update in *. simpl.
      rewrite stream_held_app, Hs, Hnone'. reflexivity. }
    destruct (when (not_null fs) _ w2) as [[] w3]. cbn [snd] in Hopen.
    handles_from Hopen.
Qed.

#[local] Hint Resolve keeps_handles_SeekFile_streamStart
  keeps_handles_CloseFile keeps_handles_OpenFile : handles.

Lemma held_when_open (held0 : bool) (w : World) (f : Stream) :
  handles_agree held0 w -> File (self w) = Some f ->
  stream_held held0 (trace w) = Some true.
Proof. unfold handles_agree. intros H Hf. rewrite H, Hf. reflexivity. Qed.

Lemma keeps_handles_SeekFile env i j k : keeps_handles (SeekFile env i j k).
Proof.
  intros b w H. unfold SeekFile. unfold bind at 1.
  pose proof (keeps_handles_SeekFile_streamStart env i j k b w H) as H1.
  destruct (SeekFile_streamStart env i j k w) as [streamStart w1].
  cbn [snd] in H1. unfold bind at 1, this at 1. cbn [fst snd].
  destruct (File (self w1)) as [f |] eqn:Hf.
  - pose proof (held_when_open b w1 f H1 Hf) as Hheld.
    unfold bind at 1, emit at 1. cbn [fst snd self trace].
    unfold bind at 1, update at 1. cbn [fst snd self trace].
    match goal with
    | |- handles_agree b (snd (_ ?w3)) => assert (H3 : handles_agree b w3)
    end.
    { unfold handles_agree. simpl. rewrite stream_held_app, Hheld.
      reflexivity. }
    handles_from H3.
  - handles_from H1.
Qed.

#[local] Hint Resolve keeps_handles_SeekFile : handles.

Lemma keeps_handles_read_rows env e0 streamRead target swap outIncr1 idx2
    rows :
  forall outPtr1 count,
    keeps_handles
      (read_rows env e0 streamRead target swap outIncr1 idx2 rows
         outPtr1 count).
Proof.
  induction rows as [| idx1 rows IH]; intros outPtr1 count; simpl.
  - handles_auto.
  - destruct (env_abort env count); [handles_auto |].
    apply keeps_handles_bind; [handles_auto | intros _].
    apply keeps_handles_bind; [handles_auto | intros _].
    intros b w H. unfold bind at 1, this at 1. cbn [fst snd].
    destruct (File (self w)) as [f |] eqn:Hf.
    + pose proof (held_when_open b w f H Hf) as Hheld.
      destruct (read f streamRead) as [got f'].
      unfold bind at 1, update at 1. cbn [fst snd self trace].
      destruct (st_fail f').
      * unfold bind at 1, emit at 1. cbn [fst snd self trace].
        match goal with
        | |- handles_agree b (snd (_ ?w3)) => assert (H3 : handles_agree b w3)
        end.
        { unfold handles_agree. simpl. rewrite stream_held_app, Hheld.
          reflexivity. }
        handles_from H3.
      * unfold bind at 1, emit at 1. cbn [fst snd self trace].
        apply IH. unfold handles_agree. simpl.
        rewrite stream_held_app, Hheld. reflexivity.
    + handles_from H.
Qed.

#[local] Hint Resolve keeps_handles_read_rows : handles.

Lemma keeps_handles_read_slices env e0 streamRead target swap outIncr1
    outIncr2 rows slices :
  forall outPtr2 count,
    keeps_handles
      (read_slices env e0 streamRead target swap outIncr1 outIncr2 rows
         slices outPtr2 count).
Proof.
  induction slices as [| idx2 slices IH]; intros outPtr2 count; simpl;
    handles_auto.
Qed.

#[local] Hint Resolve keeps_handles_read_slices : handles.

Lemma keeps_handles_vtkImageReader2Update env data sizeofOT :
  keeps_handles (vtkImageReader2Update env data sizeofOT).
Proof. unfold vtkImageReader2Update. handles_auto. Qed.

#[local] Hint Resolve keeps_handles_vtkImageReader2Update : handles.

Lemma keeps_handles_ExecuteDataWithInformation env data :
  keeps_handles (ExecuteDataWithInformation env data).
Proof. unfold ExecuteDataWithInformation. handles_auto. Qed.

Lemma delete_closes (r : Reader) : File (after vtkImageReader2_delete r) = None.
Proof.
  unfold after, run, vtkImageReader2_delete, CloseFile, bind, this, when,
    update, emit, ret.
  destruct r as [? ? ? fns ? file ? ? ? ? ? ? ? ? ? ? ? ? ? ?].
  cbn. destruct file, fns; reflexivity.
Qed.

Lemma keeps_handles_delete : keeps_handles vtkImageReader2_delete.
Proof. unfold vtkImageReader2_delete. handles_auto. Qed.


(** ** The stream is there when a row is read *)

Lemma keeps_ret {A} I (a : A) : keeps I (ret a).
Proof. intros w H. exact H. Qed.

Lemma keeps_this I : keeps I this.
Proof. intros w H. exact H. Qed.

Lemma keeps_emit I (e : Event) :
  (forall w, I w -> I (mkWorld (self w) (trace w ++ [e]))) ->
  keeps I (emit e).
Proof. intros He w H. apply He. exact H. Qed.

Lemma keeps_update I (f : Reader -> Reader) :
  (forall w, I w -> I (mkWorld (f (self w)) (trace w))) ->
  keeps I (update f).
Proof. intros Hf w H. apply Hf. exact H. Qed.

Lemma keeps_bind {A B} I (c : M A) (k : A -> M B) :
  keeps I c -> (forall a, keeps I (k a)) -> keeps I (bind c k).
Proof.
  intros Hc Hk w H. unfold bind.
  specialize (Hc w H). destruct (c w) as [a w1]. apply Hk. exact Hc.
Qed.

Lemma keeps_when I (b : bool) (c : M unit) :
  keeps I c -> keeps I (when b c).
Proof. intros Hc. destruct b; [exact Hc | apply keeps_ret]. Qed.

Create HintDb keeps.

#[local] Hint Resolve keeps_ret keeps_this : keeps.

Ltac keeps_with side :=
  intros;
  repeat first
    [ solve [auto with keeps nocore]
    | progress cbv zeta
    | progress unfold vtkErrorMacro, vtkWarningMacro,
        vtkGenericWarningMacro, Modified
    | apply keeps_when
    | apply keeps_update; solve [side]
    | apply keeps_emit; solve [side]
    | apply keeps_bind; [| intros ?]
    | match goal with
      | |- keeps _ (if ?b then _ else _) => destruct b
      | |- keeps _ (match ?x with _ => _ end) => destruct x
      | |- keeps _ (let '(_, _) := ?x in _) => destruct x
      end ].

Ltac steady_side HI :=
  let w := fresh "w" in
  let Hw := fresh "Hw" in
  intros w Hw;
  first
    [ apply (proj1 HI); [reflexivity | exact Hw]
    | apply (proj2 HI);
        [intros; reflexivity | intros; reflexivity | exact Hw] ].

Lemma keeps_Stat I env path : steady I -> keeps I (Stat env path).
Proof. intros HI. unfold Stat. keeps_with ltac:(steady_side HI). Qed.

Lemma keeps_ComputeInternalFileName I env slice :
  steady I -> keeps I (ComputeInternalFileName env slice).
Proof.
  intros HI. unfold ComputeInternalFileName. keeps_with ltac:(steady_side HI).
Qed.

Lemma keeps_ComputeDataIncrements I : steady I -> keeps I ComputeDataIncrements.
Proof.
  intros HI. unfold ComputeDataIncrements. keeps_with ltac:(steady_side HI).
Qed.

Lemma keeps_DataIncrements_at I incs d :
  steady I -> keeps I (DataIncrements_at incs d).
Proof.
  intros HI. unfold DataIncrements_at. keeps_with ltac:(steady_side HI).
Qed.

#[local] Hint Resolve keeps_Stat keeps_ComputeInternalFileName
  keeps_ComputeDataIncrements keeps_DataIncrements_at : keeps.

Lemma keeps_GetHeaderSize I env idx :
  steady I -> keeps I (GetHeaderSize env idx).
Proof. intros HI. unfold GetHeaderSize. keeps_with ltac:(steady_side HI). Qed.

#[local] Hint Resolve keeps_GetHeaderSize : keeps.

Lemma keeps_SeekFile_streamStart I env i j k :
  steady I -> keeps I (SeekFile_streamStart env i j k).
Proof.
  intros HI. unfold SeekFile_streamStart. keeps_with ltac:(steady_side HI).
Qed.

#[local] Hint Resolve keeps_SeekFile_streamStart : keeps.

Lemma steady_has_stream : steady has_stream.
Proof.
  split.
  - intros e w _ H. exact H.
  - intros f w Hf _ H. unfold has_stream in *. simpl. rewrite Hf. exact H.
Qed.

Lemma steady_no_null_read d : steady (no_null_read d).
Proof.
  split.
  - intros e w He [Hn Hd]. split; [| exact Hd]. simpl.
    rewrite in_app_iff. intros [Hin | [Heq | []]]; [exact (Hn Hin) |].
    subst e. discriminate He.
  - intros f w _ Hf [Hn Hd]. split; [exact Hn |]. simpl. rewrite Hf.
    exact Hd.
Qed.

#[local] Hint Resolve steady_has_stream steady_no_null_read : keeps.

(** Side conditions of the two invariants for the events and assignments
    that are not passive. *)
Ltac stream_side :=
  let w := fresh "w" in
  let Hw := fresh "Hw" in
  intros w Hw;
  first
    [ exact Hw
    | unfold has_stream; simpl; discriminate
    | destruct Hw as [? ?]; split; [| assumption]; simpl;
      rewrite in_app_iff; simpl;
      intros [? | [? | []]]; [contradiction | discriminate]
    | destruct Hw as [? ?]; split; assumption ].

Lemma has_stream_SeekFile env i j k : keeps has_stream (SeekFile env i j k).
Proof. unfold SeekFile. keeps_with stream_side. Qed.

Lemma no_null_read_SeekFile d env i j k :
  keeps (no_null_read d) (SeekFile env i j k).
Proof. unfold SeekFile. keeps_with stream_side. Qed.

Lemma no_null_read_CloseFile d : keeps (no_null_read d) CloseFile.
Proof. unfold CloseFile. keeps_with stream_side. Qed.

#[local] Hint Resolve has_stream_SeekFile no_null_read_SeekFile
  no_null_read_CloseFile : keeps.

Lemma no_null_read_OpenFile d env : keeps (no_null_read d) (OpenFile env).
Proof. unfold OpenFile. keeps_with stream_side. Qed.

#[local] Hint Resolve no_null_read_OpenFile : keeps.

Lemma keeps_and {A} (I J : World -> Prop) (c : M A) :
  keeps I c -> keeps J c -> keeps (fun w => I w /\ J w) c.
Proof. intros HI HJ w [Hi Hj]. split; [apply HI | apply HJ]; assumption. Qed.

Lemma OpenFile_opened env (s : Reader) :
  result (OpenFile env) s <> 0 -> File (after (OpenFile env) s) <> None.
Proof.
  intros Hr. destruct (classic_named s) as [Hn | Hn].
  - pose proof (OpenFile_named env s Hn) as H.
    destruct (InternalFileName s) as [path |].
    + destruct (env_stat env path).
      * destruct (env_open env path).
        -- destruct H as (_ & Hf & _). rewrite Hf. discriminate.
        -- destruct H as (H0 & _). contradiction.
      * destruct H as (H0 & _). contradiction.
    + destruct H as (H0 & _). contradiction.
  - destruct (OpenFile_unnamed env s Hn) as (H0 & _). contradiction.
Qed.

(** Resolving the name of a slice and opening it: no read through a null
    [File] is added, and a stream is there when the result is not 0. *)
Lemma open_slice_ready d env slice (w : World) :
  no_null_read d w ->
  let c := ComputeInternalFileName env slice ;;; OpenFile env in
  no_null_read d (snd (c w)) /\ (fst (c w) <> 0 -> has_stream (snd (c w))).
Proof.
  intros H c. split.
  - revert w H. change (keeps (no_null_read d) c). unfold c.
    keeps_with stream_side.
  - unfold c, bind.
    destruct (ComputeInternalFileName env slice w) as [[] [s1 t1]].
    rewrite (appends_OpenFile env s1 t1). cbn [fst snd].
    unfold has_stream. cbn [self]. apply OpenFile_opened.
Qed.

Lemma stream_ready_read_rows d env e0 streamRead target swap outIncr1 idx2
    rows :
  forall outPtr1 count,
    keeps (stream_ready d)
      (read_rows env e0 streamRead target swap outIncr1 idx2 rows
         outPtr1 count).
Proof.
  induction rows as [| idx1 rows IH]; intros outPtr1 count; simpl.
  - apply keeps_ret.
  - destruct (env_abort env count); [apply keeps_ret |].
    apply keeps_bind;
      [apply keeps_and; keeps_with stream_side | intros _].
    apply keeps_bind;
      [apply keeps_and; keeps_with stream_side | intros _].
    intros w [Hs [Hn Hd]]. unfold bind at 1, this at 1. cbn [fst snd].
    destruct (File (self w)) as [f |] eqn:Hf; [| contradiction].
    destruct (read f streamRead) as [got f'].
    unfold bind at 1, update at 1. cbn [fst snd self trace].
    assert (Hrow : forall bytes,
              stream_ready d
                (mkWorld (with_File (Some f') (self w))
                   (trace w ++ [EvRead outPtr1 bytes]))).
    { intros bytes. split; [unfold has_stream; simpl; discriminate |].
      split; [| exact Hd]. simpl. rewrite in_app_iff.
      intros [Hin | [Heq | []]]; [exact (Hn Hin) | discriminate Heq]. }
    destruct (st_fail f'); unfold bind at 1, emit at 1;
      cbn [fst snd self trace].
    + specialize (Hrow got). revert Hrow.
      match goal with
      | |- stream_ready d ?w1 -> stream_ready d (snd (?k ?w1)) =>
          generalize w1; change (keeps (stream_ready d) k)
      end.
      apply keeps_and; keeps_with stream_side.
    + apply IH. apply Hrow.
Qed.

Lemma slices_ready_read_slices d env e0 streamRead target swap outIncr1
    outIncr2 rows slices :
  forall outPtr2 count,
    keeps (slices_ready d)
      (read_slices env e0 streamRead target swap outIncr1 outIncr2 rows
         slices outPtr2 count).
Proof.
  induction slices as [| idx2 slices IH]; intros outPtr2 count; simpl.
  - apply keeps_ret.
  - intros w [Hn Hd]. unfold bind at 1, this at 1. cbn [fst snd].
    assert (Hrows : forall w1, stream_ready d w1 ->
              slices_ready d
                (snd ((rows_done <--
                         read_rows env e0 streamRead target swap outIncr1
                           idx2 rows outPtr2 count ;;
                       match rows_done with
                       | None => ret tt
                       | Some count' =>
                           read_slices env e0 streamRead target swap
                             outIncr1 outIncr2 rows slices
                             (outPtr2 + outIncr2) count'
                       end) w1))).
    { intros w1 H1. unfold bind.
      pose proof (stream_ready_read_rows d env e0 streamRead target swap
                    outIncr1 idx2 rows outPtr2 count w1 H1) as H2.
      destruct (read_rows env e0 streamRead target swap outIncr1 idx2 rows
                  outPtr2 count w1) as [[count' |] w2]; cbn [snd] in H2.
      - apply IH. destruct H2 as [Hs2 Hn2].
        split; [exact Hn2 | right; exact Hs2].
      - destruct H2 as [Hs2 Hn2]. split; [exact Hn2 | right; exact Hs2]. }
    destruct (FileDimensionality (self w) =? 2) eqn:Hdim.
    + unfold bind at 1.
      destruct (open_slice_ready d env idx2 w Hn) as [Hn1 Hs1].
      cbv zeta in Hn1, Hs1.
      destruct ((ComputeInternalFileName env idx2 ;;; OpenFile env) w)
        as [opened w1]. cbn [fst snd] in Hn1, Hs1.
      destruct (opened =? 0) eqn:Hopened.
      * split; [exact Hn1 | left].
        destruct Hn as [_ Hd']. apply Z.eqb_eq in Hdim. congruence.
      * apply Hrows. split; [| exact Hn1]. apply Hs1.
        intros ->. discriminate Hopened.
    + unfold bind at 1, ret at 1. cbn [fst snd].
      change (1 =? 0) with false. cbv iota.
      apply Hrows. split; [| exact Hn].
      destruct Hd as [Hd | Hd]; [| exact Hd].
      destruct Hn as [_ Hd']. rewrite Hd', Hd in Hdim. discriminate Hdim.
Qed.

Lemma no_null_read_vtkImageReader2Update d env data sizeofOT :
  d = 2 \/ d = 3 ->
  keeps (no_null_read d) (vtkImageReader2Update env data sizeofOT).
Proof.
  intros Hd w Hn. unfold vtkImageReader2Update. cbv zeta.
  unfold bind at 1, this at 1. cbn [fst snd].
  destruct (FileDimensionality (self w) =? 3) eqn:Hdim.
  - unfold bind at 1.
    destruct (open_slice_ready d env 0 w Hn) as [Hn1 Hs1].
    cbv zeta in Hn1, Hs1.
    destruct ((ComputeInternalFileName env 0 ;;; OpenFile env) w)
      as [opened w1]. cbn [fst snd] in Hn1, Hs1.
    destruct (opened =? 0) eqn:Hopened; [exact Hn1 |].
    apply slices_ready_read_slices. split; [exact Hn1 | right].
    apply Hs1. intros ->. discriminate Hopened.
  - unfold bind at 1, ret at 1. cbn [fst snd].
    change (1 =? 0) with false. cbv iota.
    apply slices_ready_read_slices. split; [exact Hn | left].
    destruct Hd as [Hd | Hd]; [exact Hd |].
    destruct Hn as [_ Hd']. rewrite Hd', Hd in Hdim. discriminate Hdim.
Qed.

(** X7.  A read of a file of dimensionality 2 or 3 never reads a row
    through a null [File]: every row is read after an [OpenFile] that
    returned non-zero, and nothing between that and the read gives the
    stream up. *)
Theorem rows_are_read_from_a_stream env (data : ImageData) (s : Reader) :
  FileDimensionality s = 2 \/ FileDimensionality s = 3 ->
  ~ In null_stream_read (effects (ExecuteDataWithInformation env data) s).
Proof.
  intros Hd.
  assert (H0 : no_null_read (FileDimensionality s) (mkWorld s []))
    by (split; [intros [] | reflexivity]).
  assert (Hk : keeps (no_null_read (FileDimensionality s))
                 (ExecuteDataWithInformation env data)).
  { unfold ExecuteDataWithInformation.
    pose proof (no_null_read_vtkImageReader2Update (FileDimensionality s)
                  env data) as Hu.
    keeps_with stream_side; apply Hu; exact Hd. }
  exact (proj1 (Hk _ H0)).
Qed.

Lemma rows_are_read_from_a_stream_witness :
  let env := one_file "a.raw" [Byte.x01; Byte.x02] in
  FileDimensionality a_raw_reader = 2 /\
  (In null_stream_read
     (effects (ExecuteDataWithInformation env one_pixel) a_raw_reader) ->
   False).
Proof.
  intros env. split; [reflexivity |].
  apply (rows_are_read_from_a_stream env one_pixel a_raw_reader).
  left. reflexivity.
Defined.

(** ** Counting the events of a read *)

Lemma count_events_app (P : Event -> bool) (t1 t2 : list Event) :
  count_events P (t1 ++ t2) = (count_events P t1 + count_events P t2)%nat.
Proof.
  induction t1 as [| e t1 IH]; simpl; [reflexivity |]. rewrite IH. lia.
Qed.

Lemma silent_ret {A} P (a : A) : silent P (ret a).
Proof. intros w. reflexivity. Qed.

Lemma silent_this P : silent P this.
Proof. intros w. reflexivity. Qed.

Lemma silent_update P (f : Reader -> Reader) : silent P (update f).
Proof. intros w. reflexivity. Qed.

Lemma silent_emit P (e : Event) : P e = false -> silent P (emit e).
Proof.
  intros He w. unfold emit. simpl. rewrite count_events_app. simpl.
  rewrite He. lia.
Qed.

Lemma silent_bind {A B} P (c : M A) (k : A -> M B) :
  silent P c -> (forall a, silent P (k a)) -> silent P (bind c k).
Proof.
  intros Hc Hk w. unfold bind. specialize (Hc w).
  destruct (c w) as [a w1]. simpl in Hc. rewrite Hk. exact Hc.
Qed.

Lemma silent_when P (b : bool) (c : M unit) :
  silent P c -> silent P (when b c).
Proof. intros Hc. destruct b; [exact Hc | apply silent_ret]. Qed.

Lemma ignores_is_open : ignores is_open.
Proof. intros [] H; try reflexivity; discriminate H. Qed.

Lemma ignores_is_row : ignores is_row.
Proof. intros [] H; try reflexivity; discriminate H. Qed.

Lemma ignores_is_progress : ignores is_progress.
Proof. intros [] H; try reflexivity; discriminate H. Qed.

Create HintDb silent.

#[local] Hint Resolve silent_ret silent_this silent_update ignores_is_open
  ignores_is_row ignores_is_progress : silent.

Ltac silent_side :=
  first
    [ reflexivity
    | match goal with HP : ignores _ |- _ => apply HP; reflexivity end
    | match goal with
      | Hopen : forall path, _ (EvOpen path) = false |- _ => apply Hopen
      end ].

Ltac silent_auto :=
  intros;
  repeat first
    [ solve [auto with silent nocore]
    | progress cbv zeta
    | progress unfold vtkErrorMacro, vtkWarningMacro,
        vtkGenericWarningMacro, Modified
    | apply silent_when
    | apply silent_emit; solve [silent_side]
    | apply silent_bind; [| intros ?]
    | match goal with
      | |- silent _ (if ?b then _ else _) => destruct b
      | |- silent _ (match ?x with _ => _ end) => destruct x
      | |- silent _ (let '(_, _) := ?x in _) => destruct x
      end ].

Lemma silent_Stat P env path : ignores P -> silent P (Stat env path).
Proof. intros HP. unfold Stat. silent_auto. Qed.

Lemma silent_ComputeInternalFileName P env slice :
  ignores P -> silent P (ComputeInternalFileName env slice).
Proof. intros HP. unfold ComputeInternalFileName. silent_auto. Qed.

Lemma silent_ComputeDataIncrements P :
  ignores P -> silent P ComputeDataIncrements.
Proof. intros HP. unfold ComputeDataIncrements. silent_auto. Qed.

Lemma silent_CloseFile P : ignores P -> silent P CloseFile.
Proof. intros HP. unfold CloseFile. silent_auto. Qed.

Lemma silent_DataIncrements_at P incs d :
  ignores P -> silent P (DataIncrements_at incs d).
Proof. intros HP. unfold DataIncrements_at. silent_auto. Qed.

#[local] Hint Resolve silent_Stat silent_ComputeInternalFileName
  silent_ComputeDataIncrements silent_CloseFile silent_DataIncrements_at
  : silent.

Lemma silent_GetHeaderSize P env idx :
  ignores P -> silent P (GetHeaderSize env idx).
Proof. intros HP. unfold GetHeaderSize. silent_auto. Qed.

#[local] Hint Resolve silent_GetHeaderSize : silent.

Lemma silent_SeekFile P env i j k :
  ignores P -> silent P (SeekFile env i j k).
Proof. intros HP. unfold SeekFile, SeekFile_streamStart. silent_auto. Qed.

Lemma silent_OpenFile P env :
  ignores P -> (forall path, P (EvOpen path) = false) ->
  silent P (OpenFile env).
Proof.
  intros HP Hopen. unfold OpenFile. silent_auto.
Qed.

#[local] Hint Resolve silent_SeekFile : silent.

Lemma silent_is_open_read_rows env e0 streamRead target swap outIncr1 idx2
    rows :
  forall outPtr1 count,
    silent is_open
      (read_rows env e0 streamRead target swap outIncr1 idx2 rows
         outPtr1 count).
Proof.
  induction rows as [| idx1 rows IH]; intros outPtr1 count; simpl;
    silent_auto.
Qed.

Lemma bind_snd {A B} (c : M A) (k : A -> M B) (w : World) :
  snd (bind c k w) = snd (k (fst (c w)) (snd (c w))).
Proof. unfold bind. destruct (c w). reflexivity. Qed.

Lemma dimensionality_kept {A} (c : M A) :
  preserves configuration c -> preserves FileDimensionality c.
Proof.
  intros Hc w. specialize (Hc w). unfold configuration in Hc.
  congruence.
Qed.

Lemma OpenFile_opens_once env (w : World) :
  (count_events is_open (trace (snd (OpenFile env w)))
   <= count_events is_open (trace w) + 1)%nat.
Proof.
  destruct w as [s t]. rewrite (appends_OpenFile env s t). cbn [snd trace].
  rewrite count_events_app.
  enough (count_events is_open (effects (OpenFile env) s) <= 1)%nat by lia.
  run_member OpenFile.
  destruct (is_null (FileName s) && is_null (FilePattern s)
            && is_null (FileNames s)); [simpl; lia |].
  destruct s as [? ? ? ? ifn file ? ? ? ? ? ? ? ? ? ? ? ? ? ?].
  cbn [InternalFileName File self trace].
  destruct file; destruct ifn as [path |]; cbn;
    try (destruct (env_stat env path); cbn);
    try (destruct (env_open env path); cbn); lia.
Qed.

(** Resolving the name of a slice and opening it opens at most one file. *)
Lemma open_slice_opens_once env slice (w : World) :
  let c := ComputeInternalFileName env slice ;;; OpenFile env in
  (count_events is_open (trace (snd (c w)))
   <= count_events is_open (trace w) + 1)%nat /\
  FileDimensionality (self (snd (c w))) = FileDimensionality (self w).
Proof.
  intros c. split.
  - unfold c. rewrite bind_snd.
    pose proof (silent_ComputeInternalFileName is_open env slice
                  ignores_is_open w) as H1.
    pose proof (OpenFile_opens_once env
                  (snd (ComputeInternalFileName env slice w))) as H2.
    lia.
  - apply (dimensionality_kept c). unfold c. frame_auto.
Qed.

Lemma opens_read_slices env e0 streamRead target swap outIncr1 outIncr2
    rows slices :
  forall outPtr2 count w,
    (count_events is_open
       (trace (snd (read_slices env e0 streamRead target swap outIncr1
                      outIncr2 rows slices outPtr2 count w)))
     <= count_events is_open (trace w)
        + (if (FileDimensionality (self w) =? 2)%Z
           then length slices else 0))%nat.
Proof.
  induction slices as [| idx2 slices IH]; intros outPtr2 count w; simpl.
  - destruct (FileDimensionality (self w) =? 2); simpl; lia.
  - unfold bind at 1, this at 1. cbn [fst snd].
    assert (Hrows : forall w1,
              FileDimensionality (self w1) = FileDimensionality (self w) ->
              (count_events is_open
                 (trace
                    (snd ((rows_done <--
                             read_rows env e0 streamRead target swap
                               outIncr1 idx2 rows outPtr2 count ;;
                           match rows_done with
                           | None => ret tt
                           | Some count' =>
                               read_slices env e0 streamRead target swap
                                 outIncr1 outIncr2 rows slices
                                 (outPtr2 + outIncr2) count'
                           end) w1)))
               <= count_events is_open (trace w1)
                  + (if (FileDimensionality (self w) =? 2)%Z
                     then length slices else 0))%nat).
    { intros w1 Hd. unfold bind.
      pose proof (silent_is_open_read_rows env e0 streamRead target swap
                    outIncr1 idx2 rows outPtr2 count w1) as Hs.
      pose proof (dimensionality_kept _
                    (configuration_read_rows env e0 streamRead target swap
                       outIncr1 idx2 rows outPtr2 count) w1) as Hk.
      destruct (read_rows env e0 streamRead target swap outIncr1 idx2 rows
                  outPtr2 count w1) as [[count' |] w2]; cbn [snd] in Hs, Hk.
      - specialize (IH (outPtr2 + outIncr2) count' w2).
        rewrite Hk, Hd in IH. lia.
      - simpl. lia. }
    destruct (FileDimensionality (self w) =? 2) eqn:Hdim.
    + unfold bind at 1.
      destruct (open_slice_opens_once env idx2 w) as [H1 Hd1].
      cbv zeta in H1, Hd1.
      destruct ((ComputeInternalFileName env idx2 ;;; OpenFile env) w)
        as [opened w1]. cbn [fst snd] in H1, Hd1.
      destruct (opened =? 0); [simpl; lia |].
      specialize (Hrows w1 Hd1). lia.
    + unfold bind at 1, ret at 1. cbn [fst snd].
      change (1 =? 0) with false. cbv iota.
      specialize (Hrows w eq_refl). lia.
Qed.

Lemma opens_vtkImageReader2Update env data sizeofOT (w : World) :
  let d := FileDimensionality (self w) in
  (count_events is_open
     (trace (snd (vtkImageReader2Update env data sizeofOT w)))
   <= count_events is_open (trace w)
      + (if (d =? 3)%Z then 1
         else if (d =? 2)%Z then slices_of data else 0))%nat.
Proof.
  intros d. unfold vtkImageReader2Update. cbv zeta.
  unfold bind at 1, this at 1. cbn [fst snd]. fold d.
  match goal with
  | |- context [read_slices ?a ?b ?c ?d' ?e ?f ?g ?h ?i ?j ?k] =>
      pose proof (opens_read_slices a b c d' e f g h i j k) as Hs;
      assert (Hlen : length i = slices_of data)
        by (unfold slices_of, axisSize; cbn [fin_to_nat];
            apply length_seqZ)
  end.
  rewrite Hlen in Hs.
  destruct (d =? 3) eqn:Hdim.
  - unfold bind at 1.
    destruct (open_slice_opens_once env 0 w) as [H1 Hd1].
    cbv zeta in H1, Hd1.
    destruct ((ComputeInternalFileName env 0 ;;; OpenFile env) w)
      as [opened w1]. cbn [fst snd] in H1, Hd1.
    destruct (opened =? 0); [simpl; lia |].
    specialize (Hs w1). rewrite Hd1 in Hs. fold d in Hs.
    apply Z.eqb_eq in Hdim. rewrite Hdim in Hs. simpl in Hs. lia.
  - unfold bind at 1, ret at 1. cbn [fst snd].
    change (1 =? 0) with false. cbv iota.
    specialize (Hs w). fold d in Hs. exact Hs.
Qed.



(** ** The file of a slice after the naming setters *)

Lemma ComputeInternalFileName_path env (slice : Z) (r : Reader) :
  InternalFileName (after (ComputeInternalFileName env slice) r) =
  match FileNames r with
  | Some a => GetValue (env_strings env a) slice
  | None =>
      match FileName r with
      | Some name => Some name
      | None =>
          match FilePattern r with
          | Some pattern =>
              Some (pattern_path env (FilePrefix r) pattern
                      (slicenum_of r slice))
          | None => None
          end
      end
  end.
Proof.
  run_member ComputeInternalFileName. unfold pattern_path, slicenum_of.
  destruct r as [fn fp fpat fns ? ? ? ? ? ? ? ? ? ? ? ? ? ? ? ?]; simpl.
  destruct fns as [a |]; simpl.
  - destruct fn, fpat; simpl;
      destruct (GetValue (env_strings env a) slice); reflexivity.
  - destruct fn as [name |]; simpl.
    + destruct fpat; reflexivity.
    + destruct fpat as [pattern |]; simpl.
      * destruct fp as [prefix |]; simpl; [reflexivity |].
        destruct (hasPercentS pattern); reflexivity.
      * destruct fp; reflexivity.
Qed.

Lemma naming_call_slicenum (c : NamingCall) (s : Reader) (slice : Z) :
  slicenum_of (after (naming_call c) s) slice = slicenum_of s slice.
Proof.
  assert (H : preserves (fun r => slicenum_of r slice) (naming_call c)).
  { destruct c as [name | env filenames | prefix | pattern]; simpl.
    - unfold SetFileName. frame_auto.
    - unfold SetFileNames. frame_auto.
    - unfold SetFilePrefix. frame_auto.
    - unfold SetFilePattern. frame_auto. }
  exact (H (mkWorld s [])).
Qed.

Lemma new_reader_identities : (identities_set vtkImageReader2_new <= 1)%nat.
Proof. unfold identities_set. simpl. lia. Qed.

(** X9.  The last naming setter decides the file of every slice.  On a
    reader that was configured by naming setters only:
    after [SetFileName(name)] every slice resolves to [name];
    after [SetFileNames(a)] slice [k] resolves to entry [k] of the array;
    after [SetFilePrefix(prefix)] the stored pattern is printed with the
    prefix and the slice number (and nothing resolves when the pattern was
    set to null);
    after [SetFilePattern(pattern)] with a pattern other than the stored
    one the pattern is printed with the stored prefix, or without one,
    while a repeated [SetFilePattern] of the stored pattern changes
    nothing, so that a file name set before stays in force. *)
Theorem last_naming_setter_decides env (cs : list NamingCall) (slice : Z) :
  let s := naming_calls cs vtkImageReader2_new in
  let path_of s' :=
    InternalFileName (after (ComputeInternalFileName env slice) s') in
  (forall name : string,
     path_of (after (SetFileName (Some name)) s) = Some name) /\
  (forall env0 (a : StringArrayPtr),
     path_of (after (SetFileNames env0 (Some a)) s)
       = GetValue (env_strings env a) slice) /\
  (forall prefix : string,
     path_of (after (SetFilePrefix (Some prefix)) s)
       = match FilePattern s with
         | Some pattern =>
             Some (pattern_path env (Some prefix) pattern
                     (slicenum_of s slice))
         | None => None
         end) /\
  (forall pattern : string,
     FilePattern s <> Some pattern ->
     path_of (after (SetFilePattern (Some pattern)) s)
       = Some (pattern_path env (FilePrefix s) pattern
                 (slicenum_of s slice))) /\
  (forall pattern : string,
     FilePattern s = Some pattern ->
     path_of (after (SetFilePattern (Some pattern)) s) = path_of s).
Proof.
  intros s path_of.
  assert (Hinv : (identities_set s <= 1)%nat)
    by (apply naming_calls_exclusive; apply new_reader_identities).
  unfold path_of.
  split; [| split; [| split; [| split]]].
  - intros name. rewrite ComputeInternalFileName_path.
    destruct (SetFileName_fields name s) as (Hn & _ & Hclr).
    destruct (Hclr Hinv) as [_ Hfs]. rewrite Hfs, Hn. reflexivity.
  - intros env0 a. rewrite ComputeInternalFileName_path.
    destruct (SetFileNames_fields env0 a s) as (Hfs & _). rewrite Hfs.
    reflexivity.
  - intros prefix. rewrite ComputeInternalFileName_path.
    destruct (SetFilePrefix_fields prefix s) as (Hp & Hpat & Hclr).
    destruct (Hclr Hinv) as [Hn Hfs]. rewrite Hfs, Hn, Hpat, Hp.
    pose proof (naming_call_slicenum (CallSetFilePrefix (Some prefix)) s
                  slice) as Hnum.
    cbn [naming_call] in Hnum. rewrite Hnum. reflexivity.
  - intros pattern Hne. rewrite ComputeInternalFileName_path.
    destruct (SetFilePattern_fields pattern s) as (Hpat & Hp & Hclr).
    destruct (Hclr Hne) as [Hn Hfs]. rewrite Hfs, Hn, Hpat, Hp.
    pose proof (naming_call_slicenum (CallSetFilePattern (Some pattern)) s
                  slice) as Hnum.
    cbn [naming_call] in Hnum. rewrite Hnum. reflexivity.
  - intros pattern Hsame.
    destruct (SetFilePattern_same pattern s Hsame) as [-> _]. reflexivity.
Qed.

Lemma last_naming_setter_decides_witness :
  let s := naming_calls [CallSetFileName (Some "a.raw"%string)]
             vtkImageReader2_new in
  FilePattern s <> Some "%s_%d.raw"%string /\
  InternalFileName
    (after (ComputeInternalFileName no_files 7)
       (after (SetFilePattern (Some "%s_%d.raw"%string)) s))
  = Some (pattern_path no_files (FilePrefix s) "%s_%d.raw"
            (slicenum_of s 7)).
Proof.
  intros s.
  assert (Hne : FilePattern s <> Some "%s_%d.raw"%string) by discriminate.
  split; [exact Hne |].
  destruct (last_naming_setter_decides no_files
              [CallSetFileName (Some "a.raw"%string)] 7)
    as (_ & _ & _ & H & _).
  exact (H "%s_%d.raw"%string Hne).
Defined.

(** ** Aborting a read *)

Section Abort.

Variable env : Env.
Variable n : Z.
Hypothesis n_range : 0 <= n <= ULONG_MAX.
Hypothesis aborted_from_n : forall c, n <= c -> env_abort env c = true.

(** [b] is the number of rows in the trace when the loops are entered. *)
Variable b : nat.

Lemma abort_read_rows e0 streamRead target swap outIncr1 idx2 rows :
  forall outPtr1 count w,
    0 <= count <= n ->
    (count_events is_row (trace w) <= b + Z.to_nat count)%nat ->
    let '(done, w') :=
      read_rows env e0 streamRead target swap outIncr1 idx2 rows outPtr1
        count w in
    (count_events is_row (trace w') <= b + Z.to_nat n)%nat /\
    (forall count', done = Some count' ->
       0 <= count' <= n /\
       (count_events is_row (trace w') <= b + Z.to_nat count')%nat).
Proof.
  induction rows as [| idx1 rows IH]; intros outPtr1 count w Hc Hw;
    cbn [read_rows].
  - unfold ret. split; [lia |]. intros count' [= <-].
    split; [exact Hc | exact Hw].
  - destruct (env_abort env count) eqn:Hab.
    + unfold ret. split; [lia |]. intros count' [= <-].
      split; [exact Hc | exact Hw].
    + assert (Hlt : count < n).
      { destruct (Z.lt_ge_cases count n) as [Hlt | Hge]; [exact Hlt |].
        rewrite (aborted_from_n count Hge) in Hab. discriminate Hab. }
      assert (Hnext : ul_add count 1 = count + 1)
        by (unfold ul_add; apply to_ulong_small; lia).
      rewrite Hnext.
      unfold bind at 1.
      assert (H1 : silent is_row
                (when (count mod target =? 0)
                   (emit (EvProgress count target)))) by silent_auto.
      specialize (H1 w).
      destruct (when (count mod target =? 0)
                  (emit (EvProgress count target)) w) as [[] w1].
      cbn [snd] in H1. unfold bind at 1.
      pose proof (silent_SeekFile is_row env e0 idx1 idx2 ignores_is_row w1)
        as H2.
      destruct (SeekFile env e0 idx1 idx2 w1) as [[] w2]. cbn [snd] in H2.
      unfold bind at 1, this at 1. cbn [fst snd].
      destruct (File (self w2)) as [f |].
      * destruct (read f streamRead) as [got f'].
        unfold bind at 1, update at 1. cbn [fst snd self trace].
        destruct (st_fail f').
        -- unfold vtkGenericWarningMacro, bind, emit, ret. cbn [fst snd self trace].
           rewrite !count_events_app. simpl.
           split; [lia | discriminate].
        -- unfold bind at 1, emit at 1. cbn [fst snd self trace].
           apply IH; [lia |]. cbn [trace].
           rewrite count_events_app. simpl. lia.
      * unfold bind, emit, ret. cbn [fst snd self trace].
        rewrite count_events_app. simpl. split; [lia | discriminate].
Qed.

Lemma abort_read_slices e0 streamRead target swap outIncr1 outIncr2 rows
    slices :
  forall outPtr2 count w,
    0 <= count <= n ->
    (count_events is_row (trace w) <= b + Z.to_nat count)%nat ->
    (count_events is_row
       (trace (snd (read_slices env e0 streamRead target swap outIncr1
                      outIncr2 rows slices outPtr2 count w)))
     <= b + Z.to_nat n)%nat.
Proof.
  induction slices as [| idx2 slices IH]; intros outPtr2 count w Hc Hw; simpl.
  - lia.
  - unfold bind at 1, this at 1. cbn [fst snd].
    unfold bind at 1.
    assert (H1 : silent is_row
              (if FileDimensionality (self w) =? 2
               then ComputeInternalFileName env idx2 ;;; OpenFile env
               else ret 1)).
    { pose proof (silent_OpenFile is_row env ignores_is_row
                    (fun _ => eq_refl)) as Ho.
      silent_auto. }
    specialize (H1 w).
    destruct ((if FileDimensionality (self w) =? 2
               then ComputeInternalFileName env idx2 ;;; OpenFile env
               else ret 1) w) as [opened w1]. cbn [snd] in H1.
    destruct (opened =? 0); [simpl; lia |].
    unfold bind at 1.
    pose proof (abort_read_rows e0 streamRead target swap outIncr1 idx2 rows
                  outPtr2 count w1 Hc ltac:(lia)) as Hrows.
    destruct (read_rows env e0 streamRead target swap outIncr1 idx2 rows
                outPtr2 count w1) as [[count' |] w2];
      destruct Hrows as [Hall Hsome].
    + destruct (Hsome count' eq_refl) as [Hc' Hw']. apply IH; assumption.
    + exact Hall.
Qed.

End Abort.

(** X10.  Once [AbortExecute] is seen set from the n-th row on, a read
    reads at most n rows: the flag is tested before every row, and the rows
    of the remaining slices are skipped as well. *)
Theorem abort_bounds_rows env (n : Z) (data : ImageData) (s : Reader) :
  0 <= n <= ULONG_MAX ->
  (forall c, n <= c -> env_abort env c = true) ->
  (count_events is_row (effects (ExecuteDataWithInformation env data) s)
   <= Z.to_nat n)%nat.
Proof.
  intros Hn Hab.
  unfold effects, run, ExecuteDataWithInformation.
  unfold bind at 1, this at 1. cbn [fst snd self].
  destruct (is_null (FileName s) && is_null (FilePattern s)).
  - simpl. lia.
  - rewrite bind_snd.
    pose proof (silent_ComputeDataIncrements is_row ignores_is_row
                  (mkWorld s [])) as Hs.
    destruct (ComputeDataIncrements (mkWorld s [])) as [[] w1].
    cbn [fst snd self trace] in *. simpl in Hs.
    unfold bind at 1, this at 1. cbn [fst snd].
    destruct (vtkTemplateMacro_sizeof (DataScalarType (self w1)))
      as [sizeofOT |].
    + unfold vtkImageReader2Update. cbv zeta.
      unfold bind at 1, this at 1. cbn [fst snd].
      unfold bind at 1.
      assert (H1 : silent is_row
                (if FileDimensionality (self w1) =? 3
                 then ComputeInternalFileName env 0 ;;; OpenFile env
                 else ret 1)).
      { pose proof (silent_OpenFile is_row env ignores_is_row
                      (fun _ => eq_refl)) as Ho.
        silent_auto. }
      specialize (H1 w1).
      destruct ((if FileDimensionality (self w1) =? 3
                 then ComputeInternalFileName env 0 ;;; OpenFile env
                 else ret 1) w1) as [opened w2]. cbn [snd] in H1.
      destruct (opened =? 0); [simpl; lia |].
      apply (abort_read_slices env n Hn Hab 0%nat); [lia | simpl; lia].
    + unfold vtkErrorMacro, bind, emit. simpl.
      rewrite count_events_app. simpl. lia.
Qed.

Lemma abort_bounds_rows_witness :
  let env :=
    {| env_stat := env_stat (one_file "a.raw" [Byte.x01; Byte.x02]);
       env_open := env_open (one_file "a.raw" [Byte.x01; Byte.x02]);
       env_snprintf := snprintf_model;
       env_strings := fun _ => [];
       env_abort := fun c => 0 <=? c |} in
  (count_events is_row
     (effects (ExecuteDataWithInformation env one_pixel) a_raw_reader)
   <= Z.to_nat 0)%nat.
Proof.
  intros env.
  apply (abort_bounds_rows env 0 one_pixel a_raw_reader).
  - unfold ULONG_MAX, LONG_BITS. lia.
  - intros c Hc. simpl. apply Z.leb_le. exact Hc.
Defined.

(** ** Progress signals *)

Lemma ignores_progress_out_of_range : ignores progress_out_of_range.
Proof. intros [] H; try reflexivity; discriminate H. Qed.

#[local] Hint Resolve ignores_progress_out_of_range : silent.

(** Opening the file of a slice, when the file dimensionality asks for
    it, adds no event of a class without housekeeping events and file
    openings. *)
Lemma silent_open_slice P env (d : Z) (b : bool) (slice : Z) :
  ignores P -> (forall path, P (EvOpen path) = false) ->
  silent P
    (if b then ComputeInternalFileName env slice ;;; OpenFile env
     else ret d).
Proof.
  intros HP Hopen.
  pose proof (silent_OpenFile P env HP Hopen) as Ho.
  silent_auto.
Qed.

Section Progress.

Variable env : Env.
Variable target limit base : Z.
Hypothesis target_pos : 0 < target.
Hypothesis limit_below : limit < 50 * target.
Hypothesis limit_fits : limit <= ULONG_MAX.

Lemma on_schedule_silent (w w' : World) (count : Z) :
  count_events is_progress (trace w') = count_events is_progress (trace w) ->
  count_events progress_out_of_range (trace w')
    = count_events progress_out_of_range (trace w) ->
  on_schedule base target w count -> on_schedule base target w' count.
Proof.
  unfold on_schedule, signals_since. intros -> ->. exact (fun H => H).
Qed.

Lemma on_schedule_later (w : World) (count count' : Z) :
  count <= count' ->
  on_schedule base target w count -> on_schedule base target w count'.
Proof. unfold on_schedule. intros Hle [H1 H2]. split; [lia | exact H2]. Qed.

Lemma on_schedule_events (w w' : World) (count : Z) (evs : list Event) :
  trace w' = trace w ++ evs ->
  count_events is_progress evs = 0%nat ->
  count_events progress_out_of_range evs = 0%nat ->
  on_schedule base target w count -> on_schedule base target w' count.
Proof.
  unfold on_schedule, signals_since. intros -> He1 He2 [H1 H2].
  rewrite !count_events_app, He1, He2, !Nat.add_0_r.
  split; [exact H1 | exact H2].
Qed.

Lemma on_schedule_signal (w : World) (count : Z) :
  0 <= count < limit ->
  on_schedule base target w count ->
  on_schedule base target
    (snd (when (count mod target =? 0) (emit (EvProgress count target)) w))
    (count + 1).
Proof.
  intros Hc [H1 H2]. unfold on_schedule, signals_since in *.
  destruct (count mod target =? 0) eqn:Hm; simpl.
  - assert (He : progress_out_of_range (EvProgress count target) = false).
    { unfold progress_out_of_range. simpl.
      replace (0 <=? count) with true by (symmetry; apply Z.leb_le; lia).
      replace (count <? 50 * target) with true
        by (symmetry; apply Z.ltb_lt; lia).
      reflexivity. }
    rewrite !count_events_app. cbn [count_events is_progress].
    rewrite He. split; [| lia].
    apply Z.eqb_eq in Hm.
    assert (Hq : count = target * (count / target))
      by (apply Z.div_exact; lia).
    assert (Hs : Z.of_nat (count_events is_progress (trace w)) - base
                 < count / target + 1) by nia.
    nia.
  - split; [lia | exact H2].
Qed.

Lemma progress_read_rows e0 streamRead swap outIncr1 idx2 rows :
  forall outPtr1 count w,
    0 <= count -> count + Z.of_nat (length rows) <= limit ->
    on_schedule base target w count ->
    let '(done, w') :=
      read_rows env e0 streamRead target swap outIncr1 idx2 rows outPtr1
        count w in
    on_schedule base target w' (count + Z.of_nat (length rows)) /\
    (forall count', done = Some count' ->
       count <= count' <= count + Z.of_nat (length rows) /\
       on_schedule base target w' count').
Proof.
  induction rows as [| idx1 rows IH]; intros outPtr1 count w Hc Hl Hw;
    cbn [read_rows].
  - unfold ret.
    split; [apply (on_schedule_later w count); [simpl; lia | exact Hw] |].
    intros count' [= <-]. split; [simpl; lia | exact Hw].
  - cbn [length] in *. destruct (env_abort env count).
    + unfold ret.
      split; [apply (on_schedule_later w count); [lia | exact Hw] |].
      intros count' [= <-]. split; [lia | exact Hw].
    + assert (Hnext : ul_add count 1 = count + 1)
        by (unfold ul_add; apply to_ulong_small; lia).
      rewrite Hnext.
      unfold bind at 1.
      pose proof (on_schedule_signal w count ltac:(lia) Hw) as H1.
      destruct (when (count mod target =? 0)
                  (emit (EvProgress count target)) w) as [[] w1].
      cbn [snd] in H1. unfold bind at 1.
      assert (H2 : on_schedule base target (snd (SeekFile env e0 idx1 idx2 w1))
                     (count + 1)).
      { apply (on_schedule_silent w1); [| | exact H1];
          apply silent_SeekFile; auto with silent nocore. }
      destruct (SeekFile env e0 idx1 idx2 w1) as [[] w2]. cbn [snd] in H2.
      unfold bind at 1, this at 1. cbn [fst snd].
      assert (Hlater : forall w', on_schedule base target w' (count + 1) ->
                on_schedule base target w' (count + Z.of_nat (S (length rows))))
        by (intros w'; apply on_schedule_later; lia).
      destruct (File (self w2)) as [f |].
      * destruct (read f streamRead) as [got f'].
        unfold bind at 1, update at 1. cbn [fst snd self trace].
        destruct (st_fail f').
        -- unfold vtkGenericWarningMacro, bind, emit, ret.
           cbn [fst snd self trace].
           split; [| discriminate]. apply Hlater.
           eapply (on_schedule_events w2);
             [cbn [trace]; rewrite <- app_assoc; reflexivity
             | reflexivity .. | exact H2].
        -- unfold bind at 1, emit at 1. cbn [fst snd self trace].
           match goal with
           | |- context [read_rows _ _ _ _ _ _ _ _ _ _ ?w3] =>
               specialize (IH (outPtr1 + outIncr1) (count + 1) w3
                             ltac:(lia) ltac:(lia));
               destruct (read_rows env e0 streamRead target swap outIncr1
                           idx2 rows (outPtr1 + outIncr1) (count + 1) w3)
                 as [done w4]
           end.
           destruct IH as [IH1 IH2].
           { eapply (on_schedule_events w2);
               [cbn [trace]; reflexivity | reflexivity .. | exact H2]. }
           split.
           ++ replace (count + Z.of_nat (S (length rows)))
                with (count + 1 + Z.of_nat (length rows)) by lia.
              exact IH1.
           ++ intros count' Hdone. destruct (IH2 count' Hdone) as [Hr Hs].
              split; [lia | exact Hs].
      * unfold bind, emit, ret. cbn [fst snd self trace].
        split; [| discriminate]. apply Hlater.
        eapply (on_schedule_events w2);
          [cbn [trace]; reflexivity | reflexivity .. | exact H2].
Qed.

Lemma progress_read_slices e0 streamRead swap outIncr1 outIncr2 rows slices :
  forall outPtr2 count w,
    0 <= count ->
    count + Z.of_nat (length slices) * Z.of_nat (length rows) <= limit ->
    on_schedule base target w count ->
    on_schedule base target
      (snd (read_slices env e0 streamRead target swap outIncr1 outIncr2
              rows slices outPtr2 count w))
      limit.
Proof.
  induction slices as [| idx2 slices IH]; intros outPtr2 count w Hc Hl Hw;
    cbn [read_slices].
  - unfold ret. cbn [snd].
    apply (on_schedule_later w count); [simpl in Hl; lia | exact Hw].
  - cbn [length] in Hl. unfold bind at 1, this at 1. cbn [fst snd].
    unfold bind at 1.
    assert (H1 : on_schedule base target
              (snd ((if FileDimensionality (self w) =? 2
                     then ComputeInternalFileName env idx2 ;;; OpenFile env
                     else ret 1) w)) count).
    { apply (on_schedule_silent w); [| | exact Hw];
        apply silent_open_slice; auto with silent nocore;
        intros; reflexivity. }
    destruct ((if FileDimensionality (self w) =? 2
               then ComputeInternalFileName env idx2 ;;; OpenFile env
               else ret 1) w) as [opened w1]. cbn [snd] in H1.
    destruct (opened =? 0).
    + unfold ret. cbn [snd].
      apply (on_schedule_later w1 count); [nia | exact H1].
    + unfold bind at 1.
      pose proof (progress_read_rows e0 streamRead swap outIncr1 idx2 rows
                    outPtr2 count w1 Hc ltac:(nia) H1) as Hrows.
      destruct (read_rows env e0 streamRead target swap outIncr1 idx2 rows
                  outPtr2 count w1) as [[count' |] w2];
        destruct Hrows as [Hall Hsome].
      * destruct (Hsome count' eq_refl) as [Hr Hs].
        apply IH; [lia | nia | exact Hs].
      * unfold ret. cbn [snd].
        apply (on_schedule_later w2 (count + Z.of_nat (length rows)));
          [nia | exact Hall].
Qed.

Lemma on_schedule_at_most_50 (w : World) :
  on_schedule base target w limit ->
  signals_since base w <= 50 /\
  count_events progress_out_of_range (trace w) = 0%nat.
Proof.
  intros [H1 H2]. split; [| exact H2]. nia.
Qed.

End Progress.

(** Without rows the loop over the slices only opens files. *)
Lemma silent_read_slices_no_rows P env e0 streamRead target swap outIncr1
    outIncr2 slices :
  ignores P -> (forall path, P (EvOpen path) = false) ->
  forall outPtr2 count,
    silent P
      (read_slices env e0 streamRead target swap outIncr1 outIncr2 []
         slices outPtr2 count).
Proof.
  intros HP Hopen.
  pose proof (silent_OpenFile P env HP Hopen) as Ho.
  induction slices as [| idx2 slices IH]; intros outPtr2 count;
    cbn [read_slices read_rows]; silent_auto.
Qed.

Lemma in_range_when_none_out (tr : list Event) :
  count_events progress_out_of_range tr = 0%nat ->
  Forall (fun e => progress_below_one e = true) tr.
Proof.
  induction tr as [| e tr IH]; simpl; intros H; constructor.
  - unfold progress_out_of_range in H.
    destruct (progress_below_one e); [reflexivity | simpl in H; lia].
  - apply IH. destruct (progress_out_of_range e); simpl in H; lia.
Qed.

Lemma progress_vtkImageReader2Update env data sizeofOT (w : World) :
  axisSize (img_Extent data) 2%fin * axisSize (img_Extent data) 1%fin
    <= INT_MAX ->
  count_events is_progress (trace w) = 0%nat ->
  count_events progress_out_of_range (trace w) = 0%nat ->
  signals_in_bounds (trace (snd (vtkImageReader2Update env data sizeofOT w))).
Proof.
  unfold axisSize. cbn [fin_to_nat]. intros Hfit Hp Ho.
  assert (Hquiet : forall w1 : World,
            count_events is_progress (trace w1) = 0%nat ->
            count_events progress_out_of_range (trace w1) = 0%nat ->
            signals_in_bounds (trace w1)).
  { intros w1 H1 H2. split; [rewrite H1; lia | exact H2]. }
  unfold vtkImageReader2Update. cbv zeta.
  set (nslices := img_Extent data !!! 5%fin - img_Extent data !!! 4%fin + 1)
    in *.
  set (nrows := img_Extent data !!! 3%fin - img_Extent data !!! 2%fin + 1)
    in *.
  set (rows := seqZ (img_Extent data !!! 2%fin) nrows).
  set (slices := seqZ (img_Extent data !!! 4%fin) nslices).
  match goal with
  | |- context [read_slices _ _ _ ?t] => set (target := t)
  end.
  unfold bind at 1, this at 1. cbn [fst snd].
  unfold bind at 1.
  pose proof (silent_open_slice is_progress env 1
                (FileDimensionality (self w) =? 3) 0 ignores_is_progress
                (fun _ => eq_refl) w) as Hp1.
  pose proof (silent_open_slice progress_out_of_range env 1
                (FileDimensionality (self w) =? 3) 0
                ignores_progress_out_of_range (fun _ => eq_refl) w) as Ho1.
  destruct ((if FileDimensionality (self w) =? 3
             then ComputeInternalFileName env 0 ;;; OpenFile env
             else ret 1) w) as [opened w1]. cbn [snd] in Hp1, Ho1.
  rewrite Hp in Hp1. rewrite Ho in Ho1.
  destruct (opened =? 0);
    [unfold ret; cbn [snd]; apply Hquiet; assumption |].
  assert (Hrows : length rows = Z.to_nat nrows) by apply length_seqZ.
  assert (Hslices : length slices = Z.to_nat nslices) by apply length_seqZ.
  destruct (Z.le_gt_cases nrows 0) as [Hr | Hr].
  { (* no row is requested *)
    assert (rows = []) as ->
      by (apply length_zero_iff_nil; rewrite Hrows; lia).
    apply Hquiet.
    - rewrite (silent_read_slices_no_rows is_progress) by
        (auto with silent nocore; intros; reflexivity).
      exact Hp1.
    - rewrite (silent_read_slices_no_rows progress_out_of_range) by
        (auto with silent nocore; intros; reflexivity).
      exact Ho1. }
  destruct (Z.le_gt_cases nslices 0) as [Hs | Hs].
  { (* no slice is requested *)
    assert (slices = []) as ->
      by (apply length_zero_iff_nil; rewrite Hslices; lia).
    cbn [read_slices]. unfold ret. cbn [snd].
    apply Hquiet; assumption. }
  assert (Hint : INT_MAX < ULONG_MAX)
    by (unfold INT_MAX, ULONG_MAX, INT_BITS, LONG_BITS; lia).
  assert (Hquot : Z.quot (nslices * nrows) 50 = nslices * nrows / 50)
    by (apply Z.quot_div_nonneg; nia).
  assert (Hq : 0 <= nslices * nrows / 50 <= nslices * nrows).
  { split; [apply Z.div_pos; nia |].
    apply Z.div_le_upper_bound; nia. }
  assert (Hmin : INT_MIN <= 0) by (unfold INT_MIN, INT_BITS; simpl; lia).
  assert (Htarget : target = nslices * nrows / 50 + 1).
  { unfold target, ul_add, int_mul. rewrite !int_axis_size.
    fold nslices. fold nrows.
    rewrite (to_int_small nslices), (to_int_small nrows) by nia.
    rewrite (to_int_small (nslices * nrows)) by nia.
    rewrite Hquot.
    rewrite (to_ulong_small (nslices * nrows / 50)) by lia.
    apply to_ulong_small. lia. }
  assert (Hbelow : nslices * nrows < 50 * target).
  { rewrite Htarget.
    pose proof (Z.mul_succ_div_gt (nslices * nrows) 50 ltac:(lia)). lia. }
  pose proof (progress_read_slices env target (nslices * nrows) 0
                ltac:(lia) Hbelow ltac:(lia)
                (img_Extent data !!! 0%fin)) as Hloop.
  match goal with
  | |- context [read_slices _ ?e0 ?sr _ ?sw ?i1 ?i2 rows slices ?o ?c w1] =>
      specialize (Hloop sr sw i1 i2 rows slices o c w1)
  end.
  destruct Hloop as [Hsig Hout].
  - lia.
  - rewrite Hrows, Hslices. lia.
  - unfold on_schedule, signals_since. rewrite Hp1, Ho1.
    split; [lia | reflexivity].
  - match goal with
    | |- context [read_slices ?a ?b ?c ?d ?e ?f ?g ?h ?i ?j ?k w1] =>
        set (w' := snd (read_slices a b c d e f g h i j k w1)) in *
    end.
    split; [| exact Hout].
    unfold signals_since in Hsig. nia.
Qed.



(** ** The setters and [Modified] *)

Ltac setter_cases :=
  repeat match goal with
    | |- context [String.eqb ?a ?b] =>
        destruct (String.eqb_spec a b); subst; simpl
    | |- context [Z.eqb ?a ?b] => destruct (Z.eqb_spec a b); subst; simpl
    | |- context [bool_decide ?P] => case_bool_decide; subst; simpl
    | |- context [Z.ltb ?a ?b] => destruct (Z.ltb a b); simpl
    end.

(** X12.  Calling a setter a second time with the same argument does
    nothing: the object stays as the first call left it and [Modified] is
    not signalled again.  This holds for the four naming setters and for
    [SetHeaderSize], [SetDataScalarType], [SetMemoryBuffer] and
    [SetMemoryBufferLength]. *)
Theorem repeated_setter_is_silent (c : SetterCall) (s : Reader) :
  let s1 := after (setter_call c) s in
  after (setter_call c) s1 = s1 /\ effects (setter_call c) s1 = [].
Proof.
  destruct s as [fn fp fpat fns ? ? ? ? ? ? ? ? ? ? ? ? ? ? ? ?].
  destruct c as [[name | env filenames | prefix | pattern] | size | type
                | membuf | buflen]; cbn [setter_call naming_call].
  - run_member SetFileName.
    destruct fn, name; simpl; setter_cases;
      rewrite ?String.eqb_refl; simpl; try contradiction; auto.
  - run_member SetFileNames.
    destruct fns, filenames; simpl; setter_cases;
      try rewrite bool_decide_eq_true_2 by reflexivity; simpl;
      try contradiction; try congruence; auto.
  - run_member SetFilePrefix.
    destruct fp, prefix; simpl; setter_cases;
      rewrite ?String.eqb_refl; simpl; try contradiction; auto.
  - run_member SetFilePattern.
    destruct fpat, pattern; simpl; setter_cases;
      rewrite ?String.eqb_refl; simpl; try contradiction; auto.
  - run_member SetHeaderSize. setter_cases;
      rewrite ?Z.eqb_refl; simpl; try contradiction; auto.
  - run_member SetDataScalarType. setter_cases;
      rewrite ?Z.eqb_refl; simpl; try contradiction; auto.
  - run_member SetMemoryBuffer. setter_cases;
      try rewrite bool_decide_eq_true_2 by reflexivity; simpl;
      try contradiction; auto.
  - run_member SetMemoryBufferLength. setter_cases;
      rewrite ?Z.eqb_refl; simpl; try contradiction; auto.
Qed.

Ltac setter_contract :=
  split; [auto |];
  split;
    [ let He := fresh in intros He; first [discriminate He | reflexivity]
    | let He := fresh in
      let Heq := fresh in
      intros He; first
        [ discriminate He
        | intros Heq; inversion Heq; subst;
          first [contradiction | congruence] ] ].

(** X13.  What [Modified] tells about a setter call.  A setter signals
    nothing but at most one [Modified]; when it signals [Modified] the
    object has changed; and when it stays silent the object is as it was,
    with one exception: a silent [SetHeaderSize] has still set
    [ManualHeaderSize] to 1, so that switching to a header set by hand
    with the size that is stored already is not signalled. *)
Theorem setter_signals_changes (c : SetterCall) (s : Reader) :
  let s' := after (setter_call c) s in
  let signalled := effects (setter_call c) s in
  (signalled = [] \/ signalled = [EvModified]) /\
  (signalled = [] -> s' = silent_change c s) /\
  (signalled = [EvModified] -> s' <> s).
Proof.
  destruct s as [fn fp fpat fns ? ? ? ? ? ? ? ? ? ? ? ? ? ? ? ?].
  destruct c as [[name | env filenames | prefix | pattern] | size | type
                | membuf | buflen];
    cbn [setter_call naming_call silent_change].
  - run_member SetFileName.
    destruct fn, name; simpl; setter_cases; setter_contract.
  - run_member SetFileNames.
    destruct fns, filenames; simpl; setter_cases; setter_contract.
  - run_member SetFilePrefix.
    destruct fp, prefix; simpl; setter_cases; setter_contract.
  - run_member SetFilePattern.
    destruct fpat, pattern; simpl; setter_cases; setter_contract.
  - run_member SetHeaderSize. setter_cases; setter_contract.
  - run_member SetDataScalarType. setter_cases; setter_contract.
  - run_member SetMemoryBuffer. setter_cases; setter_contract.
  - run_member SetMemoryBufferLength. setter_cases; setter_contract.
Qed.

Lemma setter_signals_changes_witness :
  effects (SetHeaderSize 0) vtkImageReader2_new = [] /\
  after (SetHeaderSize 0) vtkImageReader2_new
    = with_ManualHeaderSize 1 vtkImageReader2_new /\
  ManualHeaderSize vtkImageReader2_new = 0.
Proof.
  assert (He : effects (SetHeaderSize 0) vtkImageReader2_new = [])
    by reflexivity.
  split; [exact He |]. split; [| reflexivity].
  destruct (setter_signals_changes (CallSetHeaderSize 0) vtkImageReader2_new)
    as (_ & H & _).
  exact (H He).
Defined.

(** ** Reads that cannot work *)

(** X14.  A read with a scalar type that is not supported touches
    nothing: it reports the unknown type twice, once from
    [ComputeDataIncrements] and once from the dispatch on the type, probes
    and opens no file, and leaves the object as it was. *)
Theorem unknown_type_read_touches_nothing env (data : ImageData)
    (s : Reader) :
  FileName s <> None \/ FilePattern s <> None ->
  vtkTemplateMacro_sizeof (DataScalarType s) = None ->
  effects (ExecuteDataWithInformation env data) s
    = [EvError "Unknown DataScalarType";
       EvError "UpdateFromFile: Unknown data type"] /\
  after (ExecuteDataWithInformation env data) s = s.
Proof.
  intros Hnamed Hnone.
  assert (Hnull : is_null (FileName s) && is_null (FilePattern s) = false).
  { destruct (FileName s), (FilePattern s); try reflexivity.
    destruct Hnamed; congruence. }
  run_member ExecuteDataWithInformation. rewrite Hnull.
  unfold ComputeDataIncrements, vtkErrorMacro, bind, this, emit, ret.
  simpl. rewrite Hnone. simpl. rewrite Hnone. simpl.
  destruct s; auto.
Qed.

Lemma unknown_type_read_touches_nothing_witness :
  let s := with_DataScalarType 1 a_raw_reader in
  vtkTemplateMacro_sizeof (DataScalarType s) = None /\
  after (ExecuteDataWithInformation no_files one_pixel) s = s.
Proof.
  intros s.
  assert (Hnone : vtkTemplateMacro_sizeof (DataScalarType s) = None)
    by reflexivity.
  split; [exact Hnone |].
  destruct (unknown_type_read_touches_nothing no_files one_pixel s)
    as [_ H]; [left; discriminate | exact Hnone | exact H].
Defined.

Lemma steady_no_stream : steady no_stream.
Proof.
  split.
  - intros e w _ H. exact H.
  - intros f w Hf _ H. unfold no_stream in *. simpl. rewrite Hf. exact H.
Qed.

#[local] Hint Resolve steady_no_stream : keeps.

Lemma no_stream_SeekFile env i j k : keeps no_stream (SeekFile env i j k).
Proof.
  intros w H. unfold SeekFile. rewrite bind_snd.
  pose proof (keeps_SeekFile_streamStart no_stream env i j k
                steady_no_stream w H) as H1.
  destruct (SeekFile_streamStart env i j k w) as [streamStart w1].
  cbn [fst snd] in *. unfold bind at 1, this at 1. cbn [fst snd].
  unfold no_stream in H1. rewrite H1. exact H1.
Qed.

(** Without a stream the first row that is not aborted is read through
    the null [File], and the loop over the rows is left. *)
Lemma null_read_first_row env e0 streamRead target swap outIncr1 idx2 idx1
    rows outPtr1 count (w : World) :
  env_abort env count = false -> no_stream w ->
  let '(done, w') :=
    read_rows env e0 streamRead target swap outIncr1 idx2 (idx1 :: rows)
      outPtr1 count w in
  done = None /\ In null_stream_read (trace w').
Proof.
  intros Hab Hw. cbn [read_rows]. rewrite Hab.
  unfold bind at 1.
  assert (H1 : no_stream
            (snd (when (count mod target =? 0)
                    (emit (EvProgress count target)) w)))
    by (destruct (count mod target =? 0); exact Hw).
  destruct (when (count mod target =? 0) (emit (EvProgress count target)) w)
    as [[] w1]. cbn [snd] in H1.
  unfold bind at 1.
  pose proof (no_stream_SeekFile env e0 idx1 idx2 w1 H1) as H2.
  destruct (SeekFile env e0 idx1 idx2 w1) as [[] w2]. cbn [snd] in H2.
  unfold bind at 1, this at 1. cbn [fst snd].
  unfold no_stream in H2. rewrite H2.
  unfold bind, emit, ret. cbn [fst snd self trace].
  split; [reflexivity |]. apply in_app_iff. right. left. reflexivity.
Qed.



(** ** Where the rows go *)

Lemma all_events_more P (w w' : World) (evs : list Event) :
  trace w' = trace w ++ evs -> Forall P evs ->
  all_events P w -> all_events P w'.
Proof.
  unfold all_events. intros -> He H. apply Forall_app. split; assumption.
Qed.

Ltac rows_side :=
  let w := fresh "w" in
  let Hw := fresh "Hw" in
  intros w Hw;
  first
    [ exact Hw
    | eapply (all_events_more _ w);
        [ cbn [trace]; reflexivity
        | repeat constructor;
          match goal with
          | HP : about_rows _ |- _ => apply HP; reflexivity
          end
        | exact Hw ] ].

Lemma steady_all_events P : about_rows P -> steady (all_events P).
Proof.
  intros HP. split.
  - intros e w He H. eapply (all_events_more _ w);
      [cbn [trace]; reflexivity | | exact H].
    constructor; [| constructor]. apply HP.
    destruct e; try reflexivity; discriminate He.
  - intros f w _ _ H. exact H.
Qed.

#[local] Hint Resolve steady_all_events : keeps.

Lemma all_events_SeekFile P env i j k :
  about_rows P -> keeps (all_events P) (SeekFile env i j k).
Proof. intros HP. unfold SeekFile. keeps_with rows_side. Qed.

Lemma all_events_CloseFile P : about_rows P -> keeps (all_events P) CloseFile.
Proof. intros HP. unfold CloseFile. keeps_with rows_side. Qed.

#[local] Hint Resolve all_events_SeekFile all_events_CloseFile : keeps.

Lemma all_events_OpenFile P env :
  about_rows P -> keeps (all_events P) (OpenFile env).
Proof. intros HP. unfold OpenFile. keeps_with rows_side. Qed.

#[local] Hint Resolve all_events_OpenFile : keeps.

Lemma about_rows_row_slot data n : about_rows (row_slot data n).
Proof. intros [] H; try exact I. discriminate H. Qed.

#[local] Hint Resolve about_rows_row_slot : keeps.

Lemma SwapVoidRange_length (bytes : list Byte.byte) (num size : nat) :
  length (SwapVoidRange bytes num size) = length bytes.
Proof.
  revert bytes. induction num as [| num IH]; intros bytes; simpl.
  - reflexivity.
  - rewrite length_app, length_rev, IH, length_take, length_drop. lia.
Qed.

Lemma read_length (f : Stream) (n : Z) :
  Z.of_nat (length (fst (read f n))) <= Z.max 0 n.
Proof.
  unfold read. destruct (st_fail f); cbn [fst length]; [lia |].
  rewrite length_take. lia.
Qed.

Lemma on_grid_read_rows data env e0 n target swap idx2 rows :
  forall outPtr1 count (i j0 : Z),
    0 <= i < axisSize (img_Extent data) 2%fin ->
    0 <= j0 ->
    (Z.of_nat (length rows) = 0 \/
     j0 + Z.of_nat (length rows) <= axisSize (img_Extent data) 1%fin) ->
    outPtr1 = i * img_Increments data !!! 2%fin
              + j0 * img_Increments data !!! 1%fin ->
    keeps (all_events (row_slot data n))
      (read_rows env e0 n target swap
         (img_Increments data !!! 1%fin) idx2 rows outPtr1 count).
Proof.
  induction rows as [| idx1 rows IH];
    intros outPtr1 count i j0 Hi Hj Hlen Hptr; cbn [read_rows].
  - apply keeps_ret.
  - destruct (env_abort env count); [apply keeps_ret |].
    cbn [length] in Hlen.
    apply keeps_bind; [keeps_with rows_side | intros _].
    apply keeps_bind; [keeps_with rows_side | intros _].
    apply keeps_bind; [apply keeps_this | intros r].
    destruct (File r) as [f |]; [| keeps_with rows_side].
    pose proof (read_length f n) as Hgot.
    destruct (read f n) as [got f']. cbn [fst] in Hgot.
    apply keeps_bind; [keeps_with rows_side | intros _].
    assert (Hslot : forall bytes, length bytes = length got ->
              row_slot data n (EvRead outPtr1 bytes)).
    { intros bytes Hbytes. split; [| rewrite Hbytes; exact Hgot].
      exists i, j0. split; [exact Hi |]. split; [lia | exact Hptr]. }
    assert (Hrow : forall bytes, length bytes = length got ->
              keeps (all_events (row_slot data n))
                (emit (EvRead outPtr1 bytes))).
    { intros bytes Hbytes. apply keeps_emit. intros w Hw.
      eapply (all_events_more _ w); [cbn [trace]; reflexivity | | exact Hw].
      constructor; [apply Hslot; exact Hbytes | constructor]. }
    destruct (st_fail f').
    + apply keeps_bind; [apply Hrow; reflexivity | intros _].
      keeps_with rows_side.
    + apply keeps_bind.
      * apply Hrow. destruct swap as [[num size] |]; [| reflexivity].
        apply SwapVoidRange_length.
      * intros _. apply (IH _ _ i (j0 + 1)); [exact Hi | lia | lia |].
        rewrite Hptr. ring.
Qed.

Lemma on_grid_read_slices data env e0 n target swap rows slices :
  (Z.of_nat (length rows) = 0 \/
   Z.of_nat (length rows) <= axisSize (img_Extent data) 1%fin) ->
  forall outPtr2 count (i0 : Z),
    0 <= i0 ->
    (Z.of_nat (length slices) = 0 \/
     i0 + Z.of_nat (length slices) <= axisSize (img_Extent data) 2%fin) ->
    outPtr2 = i0 * img_Increments data !!! 2%fin ->
    keeps (all_events (row_slot data n))
      (read_slices env e0 n target swap
         (img_Increments data !!! 1%fin) (img_Increments data !!! 2%fin)
         rows slices outPtr2 count).
Proof.
  intros Hrows.
  induction slices as [| idx2 slices IH];
    intros outPtr2 count i0 Hi Hlen Hptr; cbn [read_slices].
  - apply keeps_ret.
  - cbn [length] in Hlen.
    apply keeps_bind; [apply keeps_this | intros r].
    apply keeps_bind; [keeps_with rows_side | intros opened].
    destruct (opened =? 0); [apply keeps_ret |].
    apply keeps_bind.
    + apply (on_grid_read_rows data env e0 n target swap idx2 rows
               outPtr2 count i0 0); [lia | lia | lia |].
      rewrite Hptr. ring.
    + intros [count' |]; [| apply keeps_ret].
      apply (IH _ _ (i0 + 1)); [lia | lia |]. rewrite Hptr. ring.
Qed.

Lemma on_grid_vtkImageReader2Update data env sizeofOT :
  keeps (all_events (row_slot data (row_bytes data sizeofOT)))
    (vtkImageReader2Update env data sizeofOT).
Proof.
  unfold vtkImageReader2Update. cbv zeta.
  fold (row_bytes data sizeofOT).
  apply keeps_bind; [apply keeps_this | intros r].
  apply keeps_bind; [keeps_with rows_side | intros opened].
  destruct (opened =? 0); [apply keeps_ret |].
  apply (on_grid_read_slices data env _ _ _ _ _ _) with (i0 := 0).
  - rewrite length_seqZ. unfold axisSize. cbn [fin_to_nat]. lia.
  - lia.
  - rewrite length_seqZ. unfold axisSize. cbn [fin_to_nat]. lia.
  - ring.
Qed.

(** The length of a row in bytes when nothing wraps. *)
Lemma row_bytes_exact (data : ImageData) (sizeofOT : Z) :
  1 <= sizeofOT <= 8 ->
  fits_int (axisSize (img_Extent data) 0%fin) ->
  0 <= axisSize (img_Extent data) 0%fin * img_NumberOfScalarComponents data
    <= INT_MAX ->
  row_bytes data sizeofOT
  = axisSize (img_Extent data) 0%fin * img_NumberOfScalarComponents data
    * sizeofOT.
Proof.
  unfold row_bytes, axisSize, fits_int. cbn [fin_to_nat]. cbv zeta.
  intros Hsize Hx Hrow.
  assert (Hmin : INT_MIN <= 0) by (unfold INT_MIN, INT_BITS; simpl; lia).
  assert (Hmax : INT_MAX = 2 ^ 31 - 1) by reflexivity.
  rewrite int_axis_size. unfold int_mul.
  rewrite (to_int_small _ Hx), to_int_small by lia.
  rewrite ul_mul_to_ulong_l.
  rewrite to_ulong_small by (unfold ULONG_MAX, LONG_BITS; nia).
  apply to_long_small. nia.
Qed.



(** ** Reading from a list of names *)

Ltac list_side :=
  let w := fresh "w" in
  let Hn := fresh "Hn" in
  let Hf := fresh "Hf" in
  intros w [Hn Hf];
  first
    [ split; [exact Hn | exact Hf]
    | split; [| exact Hf]; cbn [trace]; rewrite in_app_iff;
      intros [? | [? | []]]; [contradiction | discriminate] ].

Lemma GetValue_in_range (values : list string) (id : Z) :
  0 <= id < GetNumberOfValues values ->
  exists name, GetValue values id = Some name.
Proof.
  unfold GetValue, GetNumberOfValues. intros Hid.
  destruct (Z.ltb_spec id 0) as [Hneg | _]; [lia |].
  destruct (lookup_lt_is_Some_2 values (Z.to_nat id)) as [name Hname];
    [lia |].
  exists name. exact Hname.
Qed.

Section ListOfNames.

Variable env : Env.
Variable a : StringArrayPtr.

Local Abbreviation n := (GetNumberOfValues (env_strings env a)).

Lemma within_list_ComputeInternalFileName (slice : Z) :
  0 <= slice < n ->
  keeps (within_list a) (ComputeInternalFileName env slice).
Proof.
  intros Hs. unfold ComputeInternalFileName.
  apply keeps_bind; [keeps_with list_side | intros _].
  intros w [Hn Hf]. unfold bind at 1, this at 1. cbn [fst snd].
  rewrite Hf.
  destruct (GetValue_in_range (env_strings env a) slice Hs) as [name ->].
  destruct (is_null (FileName (self w)) && is_null (FilePattern (self w))
            && is_null (Some a));
    [unfold vtkErrorMacro, emit | unfold update]; cbn [snd].
  - split; [| exact Hf]. cbn [trace]. rewrite in_app_iff.
    intros [? | [? | []]]; [contradiction | discriminate].
  - split; [exact Hn | exact Hf].
Qed.

Lemma within_list_ComputeDataIncrements :
  keeps (within_list a) ComputeDataIncrements.
Proof. unfold ComputeDataIncrements. keeps_with list_side. Qed.

Lemma within_list_Stat path : keeps (within_list a) (Stat env path).
Proof. unfold Stat. keeps_with list_side. Qed.

Lemma within_list_DataIncrements_at incs d :
  keeps (within_list a) (DataIncrements_at incs d).
Proof. unfold DataIncrements_at. keeps_with list_side. Qed.

Lemma within_list_CloseFile : keeps (within_list a) CloseFile.
Proof. unfold CloseFile. keeps_with list_side. Qed.

Lemma within_list_OpenFile : keeps (within_list a) (OpenFile env).
Proof.
  pose proof within_list_CloseFile. pose proof within_list_Stat.
  unfold OpenFile. keeps_with list_side.
Qed.

Lemma within_list_GetHeaderSize (idx : Z) :
  0 <= to_int idx < n ->
  keeps (within_list a) (GetHeaderSize env idx).
Proof.
  intros Hidx.
  pose proof within_list_ComputeDataIncrements.
  pose proof (within_list_ComputeInternalFileName (to_int idx) Hidx).
  pose proof within_list_Stat. pose proof within_list_DataIncrements_at.
  unfold GetHeaderSize. keeps_with list_side.
Qed.

Lemma within_list_SeekFile (i j k : Z) :
  0 <= k < n -> k <= INT_MAX ->
  keeps (within_list a) (SeekFile env i j k).
Proof.
  intros Hk Hint.
  assert (Hidx : 0 <= to_int (to_ulong k) < n).
  { rewrite to_int_to_ulong; [exact Hk |].
    unfold INT_MIN, INT_BITS. simpl. lia. }
  pose proof (within_list_GetHeaderSize (to_ulong k) Hidx).
  unfold SeekFile, SeekFile_streamStart. keeps_with list_side.
Qed.

Lemma within_list_read_rows e0 streamRead target swap outIncr1 idx2 rows :
  0 <= idx2 < n -> idx2 <= INT_MAX ->
  forall outPtr1 count,
    keeps (within_list a)
      (read_rows env e0 streamRead target swap outIncr1 idx2 rows outPtr1
         count).
Proof.
  intros Hk Hint.
  induction rows as [| idx1 rows IH]; intros outPtr1 count; cbn [read_rows].
  - apply keeps_ret.
  - pose proof (within_list_SeekFile e0 idx1 idx2 Hk Hint).
    pose proof (IH (outPtr1 + outIncr1) (ul_add count 1)).
    keeps_with list_side.
Qed.

Lemma within_list_read_slices e0 streamRead target swap outIncr1 outIncr2
    rows slices :
  Forall (fun idx2 => 0 <= idx2 < n /\ idx2 <= INT_MAX) slices ->
  forall outPtr2 count,
    keeps (within_list a)
      (read_slices env e0 streamRead target swap outIncr1 outIncr2 rows
         slices outPtr2 count).
Proof.
  induction slices as [| idx2 slices IH]; intros Hall outPtr2 count;
    cbn [read_slices].
  - apply keeps_ret.
  - inversion Hall as [| ? ? [Hk Hint] Hrest]; subst.
    specialize (IH Hrest).
    pose proof (within_list_ComputeInternalFileName idx2 Hk).
    pose proof within_list_OpenFile.
    pose proof (within_list_read_rows e0 streamRead target swap outIncr1
                  idx2 rows Hk Hint outPtr2 count).
    keeps_with list_side.
Qed.

End ListOfNames.



(** ** The scan of the pattern *)

Lemma hasPercentS_here (rest : string) :
  hasPercentS (String "%" (String "s" rest)) = true.
Proof. reflexivity. Qed.

Lemma hasPercentS_later (c : ascii) (p : string) :
  hasPercentS p = true -> hasPercentS (String c p) = true.
Proof.
  intros H. destruct p as [| d p']; [discriminate H |].
  cbn [hasPercentS].
  destruct (Ascii.eqb c "%" && Ascii.eqb d "s"); [reflexivity | exact H].
Qed.

(** X18.  The scan that decides whether a pattern without a prefix is
    printed with an empty string for its first slot finds exactly the
    patterns that contain the two characters "%s" next to each other,
    anywhere: a pattern such as "%%s" counts, one such as "%5s" does
    not. *)
Theorem hasPercentS_is_substring_test (pattern : string) :
  hasPercentS pattern = true <->
  exists front back : string,
    pattern = (front ++ "%s" ++ back)%string.
Proof.
  split.
  - induction pattern as [| c rest IH]; [discriminate |].
    destruct rest as [| d rest']; [discriminate |].
    cbn [hasPercentS].
    destruct (Ascii.eqb_spec c "%") as [-> | Hc]; simpl.
    + destruct (Ascii.eqb_spec d "s") as [-> | Hd]; simpl.
      * intros _. exists EmptyString, rest'. reflexivity.
      * intros H. destruct (IH H) as (front & back & Heq).
        exists (String "%" front), back. simpl. rewrite Heq. reflexivity.
    + intros H. destruct (IH H) as (front & back & Heq).
      exists (String c front), back. simpl. rewrite Heq. reflexivity.
  - intros (front & back & ->).
    induction front as [| c front IH]; simpl.
    + reflexivity.
    + apply hasPercentS_later. exact IH.
Qed.

(** ** The two row orders *)

Lemma upper_left_mirrors_lower_left_witness :
  same_but_orientation (two_rows 0) (two_rows 1) /\
  result (SeekFile_streamStart no_files 0 1 0) (two_rows 0)
  = result (SeekFile_streamStart no_files 0
              (DataExtent (two_rows 0) !!! 3%fin - 1) 0) (two_rows 1).
Proof.
  assert (H : same_but_orientation (two_rows 0) (two_rows 1)).
  { unfold same_but_orientation.
    repeat split; try reflexivity; try discriminate; left; discriminate. }
  split; [exact H |].
  exact (upper_left_mirrors_lower_left no_files 0 1 0 (two_rows 0)
           (two_rows 1) H).
Defined.

(** ** Rows that cannot be read in full *)

Lemma about_rows_complete_row n : about_rows (complete_row n).
Proof. intros [] H; try exact I. discriminate H. Qed.

#[local] Hint Resolve about_rows_complete_row : keeps.

Lemma read_in_full (f f' : Stream) (n : Z) (got : list Byte.byte) :
  read f n = (got, f') -> st_fail f' = false ->
  Z.of_nat (length got) = n.
Proof.
  unfold read. destruct (st_fail f) eqn:Hf.
  - intros [= <- <-] Hf'. congruence.
  - intros [= <- <-]. cbn [st_fail]. intros Hf'.
    apply Bool.negb_false_iff in Hf'. apply Z.eqb_eq in Hf'. exact Hf'.
Qed.

Lemma complete_read_rows env e0 n target swap outIncr1 idx2 rows :
  forall outPtr1 count w,
    all_events (complete_row n) w ->
    let '(done, w') :=
      read_rows env e0 n target swap outIncr1 idx2 rows outPtr1 count w in
    match done with
    | Some _ => all_events (complete_row n) w'
    | None => complete_or_stopped n w'
    end.
Proof.
  pose proof (about_rows_complete_row n) as HP.
  induction rows as [| idx1 rows IH]; intros outPtr1 count w Hw;
    cbn [read_rows].
  - exact Hw.
  - destruct (env_abort env count); [exact Hw |].
    unfold bind at 1.
    assert (H1 : all_events (complete_row n)
              (snd (when (count mod target =? 0)
                      (emit (EvProgress count target)) w))).
    { assert (Hk : keeps (all_events (complete_row n))
                (when (count mod target =? 0)
                   (emit (EvProgress count target))))
        by keeps_with rows_side.
      exact (Hk w Hw). }
    destruct (when (count mod target =? 0) (emit (EvProgress count target)) w)
      as [[] w1]. cbn [snd] in H1.
    unfold bind at 1.
    pose proof (all_events_SeekFile _ env e0 idx1 idx2 HP w1 H1) as H2.
    destruct (SeekFile env e0 idx1 idx2 w1) as [[] w2]. cbn [snd] in H2.
    unfold bind at 1, this at 1. cbn [fst snd].
    destruct (File (self w2)) as [f |].
    + destruct (read f n) as [got f'] eqn:Hread.
      unfold bind at 1, update at 1. cbn [fst snd self trace].
      destruct (st_fail f') eqn:Hfail.
      * unfold vtkGenericWarningMacro, bind, emit, ret. cbn [fst snd self trace].
        right. exists (trace w2), outPtr1, got, idx1. cbn [trace].
        unfold tellg. rewrite Hfail.
        split; [rewrite <- app_assoc; reflexivity | exact H2].
      * unfold bind at 1, emit at 1. cbn [fst snd self trace].
        apply IH. eapply (all_events_more _ w2);
          [cbn [trace]; reflexivity | | exact H2].
        constructor; [| constructor]. cbn [complete_row].
        pose proof (read_in_full f f' n got Hread Hfail) as Hlen.
        destruct swap as [[num size] |];
          [rewrite SwapVoidRange_length |]; exact Hlen.
    + unfold bind, emit, ret. cbn [fst snd self trace]. left.
      eapply (all_events_more _ w2);
        [cbn [trace]; reflexivity | repeat constructor | exact H2].
Qed.

Lemma complete_read_slices env e0 n target swap outIncr1 outIncr2 rows
    slices :
  forall outPtr2 count w,
    all_events (complete_row n) w ->
    complete_or_stopped n
      (snd (read_slices env e0 n target swap outIncr1 outIncr2 rows slices
              outPtr2 count w)).
Proof.
  pose proof (about_rows_complete_row n) as HP.
  induction slices as [| idx2 slices IH]; intros outPtr2 count w Hw;
    cbn [read_slices].
  - left. exact Hw.
  - unfold bind at 1, this at 1. cbn [fst snd]. unfold bind at 1.
    assert (H1 : all_events (complete_row n)
              (snd ((if FileDimensionality (self w) =? 2
                     then ComputeInternalFileName env idx2 ;;; OpenFile env
                     else ret 1) w))).
    { assert (Hk : keeps (all_events (complete_row n))
                (if FileDimensionality (self w) =? 2
                 then ComputeInternalFileName env idx2 ;;; OpenFile env
                 else ret 1)) by keeps_with rows_side.
      exact (Hk w Hw). }
    destruct ((if FileDimensionality (self w) =? 2
               then ComputeInternalFileName env idx2 ;;; OpenFile env
               else ret 1) w) as [opened w1]. cbn [snd] in H1.
    destruct (opened =? 0); [left; exact H1 |].
    unfold bind at 1.
    pose proof (complete_read_rows env e0 n target swap outIncr1 idx2 rows
                  outPtr2 count w1 H1) as Hrows.
    destruct (read_rows env e0 n target swap outIncr1 idx2 rows outPtr2
                count w1) as [[count' |] w2].
    + apply IH. exact Hrows.
    + exact Hrows.
Qed.

(** X21.  A row that cannot be read in full ends the read.  Every row a
    read delivers has the full length of a row, [streamRead] bytes, except
    possibly the last one: a short row is followed by the generic warning
    "File operation failed. row = ..., Read = ..., FilePos = -1", which
    names the row and the length asked for, and by nothing else, so that
    no row is read after it, in this slice or in a later one. *)
Theorem short_row_ends_the_read env (data : ImageData) (s : Reader)
    (sizeofOT : Z) :
  vtkTemplateMacro_sizeof (DataScalarType s) = Some sizeofOT ->
  let n := row_bytes data sizeofOT in
  let tr := effects (ExecuteDataWithInformation env data) s in
  Forall (complete_row n) tr \/ stopped_short n tr.
Proof.
  intros Hsize n tr.
  pose proof (about_rows_complete_row n) as HP.
  change (complete_or_stopped n
            (snd (ExecuteDataWithInformation env data (mkWorld s [])))).
  unfold ExecuteDataWithInformation.
  unfold bind at 1, this at 1. cbn [fst snd self].
  destruct (is_null (FileName s) && is_null (FilePattern s)).
  - left. repeat constructor.
  - rewrite bind_snd.
    assert (H1 : all_events (complete_row n)
                   (snd (ComputeDataIncrements (mkWorld s [])))).
    { apply keeps_ComputeDataIncrements; [auto with keeps | constructor]. }
    pose proof (configuration_ComputeDataIncrements (mkWorld s [])) as Hc.
    destruct (ComputeDataIncrements (mkWorld s [])) as [[] w1].
    cbn [fst snd self] in *.
    assert (Htype : DataScalarType (self w1) = DataScalarType s)
      by (unfold configuration in Hc; congruence).
    unfold bind at 1, this at 1. cbn [fst snd]. rewrite Htype, Hsize.
    unfold vtkImageReader2Update. cbv zeta.
    fold (row_bytes data sizeofOT). fold n.
    unfold bind at 1, this at 1. cbn [fst snd]. unfold bind at 1.
    assert (H2 : all_events (complete_row n)
              (snd ((if FileDimensionality (self w1) =? 3
                     then ComputeInternalFileName env 0 ;;; OpenFile env
                     else ret 1) w1))).
    { assert (Hk : keeps (all_events (complete_row n))
                (if FileDimensionality (self w1) =? 3
                 then ComputeInternalFileName env 0 ;;; OpenFile env
                 else ret 1)) by keeps_with rows_side.
      exact (Hk w1 H1). }
    destruct ((if FileDimensionality (self w1) =? 3
               then ComputeInternalFileName env 0 ;;; OpenFile env
               else ret 1) w1) as [opened w2]. cbn [snd] in H2.
    destruct (opened =? 0); [left; exact H2 |].
    apply complete_read_slices. exact H2.
Qed.

Lemma short_row_ends_the_read_witness :
  let env := one_file "a.raw" [Byte.x01] in
  let tr := effects (ExecuteDataWithInformation env one_pixel) a_raw_reader in
  vtkTemplateMacro_sizeof (DataScalarType a_raw_reader) = Some 2 /\
  (Forall (complete_row (row_bytes one_pixel 2)) tr \/
   stopped_short (row_bytes one_pixel 2) tr).
Proof.
  intros env tr.
  assert (Hsize : vtkTemplateMacro_sizeof (DataScalarType a_raw_reader)
                  = Some 2) by reflexivity.
  split; [exact Hsize |].
  exact (short_row_ends_the_read env one_pixel a_raw_reader 2 Hsize).
Defined.

(** ** A read without trouble *)

Lemma row_places_app (t1 t2 : list Event) :
  row_places (t1 ++ t2) = row_places t1 ++ row_places t2.
Proof.
  induction t1 as [| e t1 IH]; simpl; [reflexivity |].
  destruct e; simpl; rewrite IH; reflexivity.
Qed.

Lemma row_places_none (tr : list Event) :
  count_events is_row tr = 0%nat -> row_places tr = [].
Proof.
  induction tr as [| e tr IH]; simpl; [reflexivity |].
  destruct e; simpl; intros H; try (apply IH; exact H). discriminate H.
Qed.

(** A computation that reads no row leaves the places as they are. *)
Lemma rows_unchanged {A} (c : M A) (w : World) :
  appends c -> silent is_row c ->
  row_places (trace (snd (c w))) = row_places (trace w).
Proof.
  intros Ha Hs. destruct w as [s t]. rewrite (Ha s t). cbn [snd trace].
  rewrite row_places_app, (row_places_none (effects c s)).
  - apply app_nil_r.
  - exact (Hs (mkWorld s [])).
Qed.

Lemma trouble_stays {A} (c : M A) (w : World) :
  appends c -> existsb is_trouble (trace w) = true ->
  existsb is_trouble (trace (snd (c w))) = true.
Proof.
  intros Ha H. destruct w as [s t]. rewrite (Ha s t). cbn [snd trace] in *.
  rewrite existsb_app, H. reflexivity.
Qed.

Lemma errors_are_trouble (tr : list Event) :
  (0 < count_events is_error tr)%nat -> existsb is_trouble tr = true.
Proof.
  induction tr as [| e tr IH]; simpl; [lia |].
  destruct e; simpl; auto.
Qed.

Lemma OpenFile_refusal env (s : Reader) :
  result (OpenFile env) s = 0 ->
  existsb is_trouble (effects (OpenFile env) s) = true.
Proof.
  intros Hr. apply errors_are_trouble.
  destruct (classic_named s) as [Hn | Hn].
  - pose proof (OpenFile_named env s Hn) as H.
    destruct (InternalFileName s) as [path |].
    + destruct (env_stat env path).
      * destruct (env_open env path).
        -- destruct H as (H1 & _). congruence.
        -- destruct H as (_ & _ & ->). lia.
      * destruct H as (_ & _ & ->). lia.
    + destruct H as (_ & _ & ->). lia.
  - destruct (OpenFile_unnamed env s Hn) as (_ & _ & ->). lia.
Qed.

(** Opening the file of a slice, where the file dimensionality asks for
    it: no row is read, and a result of 0 comes with an error. *)
Lemma open_slice_clean env (b : bool) (slice : Z) (w : World) :
  let c := if b then ComputeInternalFileName env slice ;;; OpenFile env
           else ret 1 in
  row_places (trace (snd (c w))) = row_places (trace w) /\
  (fst (c w) = 0 -> existsb is_trouble (trace (snd (c w))) = true).
Proof.
  intros c. split.
  - apply rows_unchanged.
    + unfold c. destruct b; appends_auto.
    + unfold c. apply silent_open_slice;
        [apply ignores_is_row | intros; reflexivity].
  - unfold c. destruct b; [| discriminate].
    unfold bind.
    destruct (ComputeInternalFileName env slice w) as [[] [s1 t1]].
    rewrite (appends_OpenFile env s1 t1). cbn [fst snd trace].
    intros Hr. rewrite existsb_app, (OpenFile_refusal env s1 Hr).
    apply Bool.orb_true_r.
Qed.

Lemma slice_places_cons (outIncr1 start : Z) (nrows : nat) :
  slice_places outIncr1 start (S nrows)
  = start :: slice_places outIncr1 (start + outIncr1) nrows.
Proof.
  unfold slice_places. cbn [seq map]. f_equal; [lia |].
  rewrite <- seq_shift, map_map. apply map_ext. intros j. lia.
Qed.

Lemma slices_places_cons (outIncr1 outIncr2 start : Z) (nrows nslices : nat) :
  slices_places outIncr1 outIncr2 start nrows (S nslices)
  = slice_places outIncr1 start nrows
    ++ slices_places outIncr1 outIncr2 (start + outIncr2) nrows nslices.
Proof.
  unfold slices_places. cbn [seq flat_map]. f_equal.
  - f_equal. lia.
  - rewrite <- seq_shift, !flat_map_concat_map, map_map. f_equal.
    apply map_ext. intros i. f_equal. lia.
Qed.

Section CleanRead.

Variable env : Env.
Hypothesis never_aborted : forall c, env_abort env c = false.

Lemma clean_read_rows e0 streamRead target swap outIncr1 idx2 rows :
  forall outPtr1 count w,
    let '(done, w') :=
      read_rows env e0 streamRead target swap outIncr1 idx2 rows outPtr1
        count w in
    match done with
    | Some _ =>
        row_places (trace w')
        = row_places (trace w) ++ slice_places outIncr1 outPtr1 (length rows)
    | None => existsb is_trouble (trace w') = true
    end.
Proof.
  induction rows as [| idx1 rows IH]; intros outPtr1 count w;
    cbn [read_rows].
  - unfold ret. cbn [length]. symmetry. apply app_nil_r.
  - rewrite never_aborted. cbn [length]. rewrite slice_places_cons.
    unfold bind at 1.
    assert (H1 : row_places
              (trace (snd (when (count mod target =? 0)
                             (emit (EvProgress count target)) w)))
            = row_places (trace w)).
    { destruct (count mod target =? 0); [| reflexivity]. simpl.
      rewrite row_places_app. apply app_nil_r. }
    destruct (when (count mod target =? 0) (emit (EvProgress count target)) w)
      as [[] w1]. cbn [snd] in H1.
    unfold bind at 1.
    pose proof (rows_unchanged (SeekFile env e0 idx1 idx2) w1
                  (appends_SeekFile env e0 idx1 idx2)
                  (silent_SeekFile is_row env e0 idx1 idx2 ignores_is_row))
      as H2.
    destruct (SeekFile env e0 idx1 idx2 w1) as [[] w2]. cbn [snd] in H2.
    unfold bind at 1, this at 1. cbn [fst snd].
    destruct (File (self w2)) as [f |].
    + destruct (read f streamRead) as [got f'].
      unfold bind at 1, update at 1. cbn [fst snd self trace].
      destruct (st_fail f').
      * unfold vtkGenericWarningMacro, bind, emit, ret. cbn [fst snd self trace].
        rewrite existsb_app. simpl. apply Bool.orb_true_r.
      * unfold bind at 1, emit at 1. cbn [fst snd self trace].
        match goal with
        | |- context [read_rows _ _ _ _ _ _ _ _ ?p ?c ?w3] =>
            specialize (IH p c w3);
            destruct (read_rows env e0 streamRead target swap outIncr1 idx2
                        rows p c w3) as [[count' |] w4]
        end.
        -- rewrite IH. cbn [trace]. rewrite row_places_app.
           cbn [row_places]. rewrite H2, H1, <- app_assoc. reflexivity.
        -- exact IH.
    + unfold bind, emit, ret. cbn [fst snd self trace].
      rewrite existsb_app. simpl. apply Bool.orb_true_r.
Qed.

Lemma clean_read_slices e0 streamRead target swap outIncr1 outIncr2 rows
    slices :
  forall outPtr2 count w,
    delivers
      (row_places (trace w)
       ++ slices_places outIncr1 outIncr2 outPtr2 (length rows)
            (length slices))
      (trace (snd (read_slices env e0 streamRead target swap outIncr1
                     outIncr2 rows slices outPtr2 count w))).
Proof.
  induction slices as [| idx2 slices IH]; intros outPtr2 count w;
    cbn [read_slices].
  - intros _. unfold ret. cbn [snd length]. symmetry. apply app_nil_r.
  - cbn [length]. rewrite slices_places_cons.
    unfold bind at 1, this at 1. cbn [fst snd].
    unfold bind at 1.
    destruct (open_slice_clean env (FileDimensionality (self w) =? 2) idx2 w)
      as [H1 Hzero]. cbv zeta in H1, Hzero.
    destruct ((if FileDimensionality (self w) =? 2
               then ComputeInternalFileName env idx2 ;;; OpenFile env
               else ret 1) w) as [opened w1]. cbn [fst snd] in H1, Hzero.
    destruct (Z.eqb_spec opened 0) as [Hop | _].
    + unfold ret. cbn [snd]. intros Hclean.
      rewrite (Hzero Hop) in Hclean. discriminate Hclean.
    + unfold bind at 1.
      pose proof (clean_read_rows e0 streamRead target swap outIncr1 idx2
                    rows outPtr2 count w1) as Hrows.
      destruct (read_rows env e0 streamRead target swap outIncr1 idx2 rows
                  outPtr2 count w1) as [[count' |] w2].
      * intros Hclean. rewrite (IH _ _ w2 Hclean), Hrows, H1, <- app_assoc.
        reflexivity.
      * unfold ret. cbn [snd]. intros Hclean. congruence.
Qed.

End CleanRead.



(** ** The rows are the bytes of the file *)

Section Tracked.

Variable env : Env.
Variable n : Z.
Variable swap : option (nat * nat).
Variable st0 : option Stream.

Lemma follows_app (st : option Stream) (t1 t2 : list Event)
    (mid final : option Stream) :
  follows env n swap st t1 mid -> follows env n swap mid t2 final ->
  follows env n swap st (t1 ++ t2) final.
Proof.
  revert st. induction t1 as [| e t1 IH]; intros st H1 H2; simpl in *.
  - subst mid. exact H2.
  - destruct e; try (apply IH; assumption);
      (destruct st as [f |]; [| contradiction]);
      try (apply IH; assumption).
    destruct H1 as [Hb H1]. split; [exact Hb | apply IH; assumption].
Qed.

Lemma tracked_more (w w' : World) (evs : list Event) :
  trace w' = trace w ++ evs ->
  follows env n swap (File (self w)) evs (File (self w')) ->
  tracked env n swap st0 w -> tracked env n swap st0 w'.
Proof.
  unfold tracked. intros -> He H. exact (follows_app _ _ _ _ _ H He).
Qed.

Lemma steady_tracked : steady (tracked env n swap st0).
Proof.
  split.
  - intros e w He H. eapply (tracked_more w);
      [cbn [trace]; reflexivity | | exact H].
    destruct e; try discriminate He; reflexivity.
  - intros f w Hf _ H. unfold tracked in *. cbn [self trace].
    rewrite Hf. exact H.
Qed.

Lemma tracked_CloseFile : keeps (tracked env n swap st0) CloseFile.
Proof.
  intros w H. unfold CloseFile, bind, this, when, emit, update, ret.
  cbn [fst snd].
  destruct (File (self w)) as [f |] eqn:Hf; cbn [not_null is_null negb].
  - eapply (tracked_more w); [cbn [trace]; reflexivity | | exact H].
    reflexivity.
  - exact H.
Qed.

Lemma tracked_OpenFile : keeps (tracked env n swap st0) (OpenFile env).
Proof.
  pose proof steady_tracked as HI. pose proof tracked_CloseFile.
  unfold OpenFile.
  apply keeps_bind; [apply keeps_this | intros r].
  destruct (is_null (FileName r) && is_null (FilePattern r)
            && is_null (FileNames r));
    [keeps_with ltac:(steady_side HI) |].
  apply keeps_bind; [assumption | intros _].
  apply keeps_bind; [auto with keeps nocore | intros fs].
  apply keeps_bind; [| intros _; keeps_with ltac:(steady_side HI)].
  apply keeps_when. intros w Hw.
  unfold bind, emit, update. cbn [fst snd].
  eapply (tracked_more w); [cbn [trace]; reflexivity | | exact Hw].
  reflexivity.
Qed.

Lemma tracked_SeekFile i j k :
  keeps (tracked env n swap st0) (SeekFile env i j k).
Proof.
  pose proof steady_tracked as HI.
  intros w H. unfold SeekFile. rewrite bind_snd.
  pose proof (keeps_SeekFile_streamStart _ env i j k HI w H) as H1.
  destruct (SeekFile_streamStart env i j k w) as [streamStart w1].
  cbn [fst snd] in *. unfold bind at 1, this at 1. cbn [fst snd].
  destruct (File (self w1)) as [f |] eqn:Hf.
  - unfold bind at 1, emit at 1. cbn [fst snd self trace].
    unfold bind at 1, update at 1. cbn [fst snd self trace].
    match goal with
    | |- tracked _ _ _ _ (snd (?c ?w3)) =>
        assert (H3 : tracked env n swap st0 w3);
          [| revert H3; generalize w3;
             change (keeps (tracked env n swap st0) c);
             keeps_with ltac:(steady_side HI)]
    end.
    eapply (tracked_more w1); [cbn [trace]; reflexivity | | exact H1].
    cbn [self File]. rewrite Hf. reflexivity.
  - revert H1. generalize w1.
    change (keeps (tracked env n swap st0)
              (vtkWarningMacro "File must be specified.")).
    keeps_with ltac:(steady_side HI).
Qed.

Lemma tracked_read_rows e0 target outIncr1 idx2 rows :
  forall outPtr1 count,
    keeps (tracked env n swap st0)
      (read_rows env e0 n target swap outIncr1 idx2 rows outPtr1 count).
Proof.
  pose proof steady_tracked as HI.
  induction rows as [| idx1 rows IH]; intros outPtr1 count; cbn [read_rows].
  - apply keeps_ret.
  - destruct (env_abort env count); [apply keeps_ret |].
    apply keeps_bind.
    { apply keeps_when. apply keeps_emit. intros w Hw.
      eapply (tracked_more w); [cbn [trace]; reflexivity | | exact Hw].
      reflexivity. }
    intros _. apply keeps_bind; [apply tracked_SeekFile | intros _].
    intros w Hw. unfold bind at 1, this at 1. cbn [fst snd].
    destruct (File (self w)) as [f |] eqn:Hf.
    + destruct (read f n) as [got f'] eqn:Hread.
      unfold bind at 1, update at 1. cbn [fst snd self trace].
      assert (Hrow : forall w3 : World,
                trace w3 = trace w ++ [EvRead outPtr1 (row_of_stream swap f n)] ->
                File (self w3) = Some f' ->
                tracked env n swap st0 w3).
      { intros w3 Htr Hfile.
        eapply (tracked_more w); [exact Htr | | exact Hw].
        rewrite Hf, Hfile. cbn [follows]. rewrite Hread.
        split; reflexivity. }
      unfold row_of_stream in Hrow. rewrite Hread in Hrow.
      destruct (st_fail f').
      * unfold bind at 1, emit at 1. cbn [fst snd self trace].
        match goal with
        | |- tracked _ _ _ _ (snd (?c ?w3)) =>
            assert (H3 : tracked env n swap st0 w3)
              by (apply Hrow; reflexivity);
            revert H3; generalize w3;
            change (keeps (tracked env n swap st0) c);
            keeps_with ltac:(steady_side HI)
        end.
      * unfold bind at 1, emit at 1. cbn [fst snd self trace].
        apply IH. apply Hrow; reflexivity.
    + unfold bind, emit, ret. cbn [fst snd self trace].
      eapply (tracked_more w); [cbn [trace]; reflexivity | | exact Hw].
      reflexivity.
Qed.

Lemma tracked_read_slices e0 target outIncr1 outIncr2 rows slices :
  forall outPtr2 count,
    keeps (tracked env n swap st0)
      (read_slices env e0 n target swap outIncr1 outIncr2 rows slices
         outPtr2 count).
Proof.
  pose proof steady_tracked as HI. pose proof tracked_OpenFile.
  induction slices as [| idx2 slices IH]; intros outPtr2 count;
    cbn [read_slices].
  - apply keeps_ret.
  - pose proof (tracked_read_rows e0 target outIncr1 idx2 rows outPtr2
                  count).
    pose proof IH.
    keeps_with ltac:(steady_side HI).
Qed.

End Tracked.

(** X23.  The rows of a read are bytes of the files it opened.  Along
    the trace of a read, the stream is what the opens, closes and seeks of
    the trace make of it, and every row handed over is what that stream
    gives at that moment: the [streamRead] bytes from the position sought
    last in the file opened last, or fewer at the end of the file, swapped
    element by element when swapping applies and the row is complete.
    Nothing else moves the stream, and at the end [File] is the stream the
    trace leads to. *)
Theorem rows_are_bytes_of_the_file env (data : ImageData) (s : Reader)
    (sizeofOT : Z) :
  vtkTemplateMacro_sizeof (DataScalarType s) = Some sizeofOT ->
  let execute := ExecuteDataWithInformation env data in
  follows env (row_bytes data sizeofOT) (swap_of s data sizeofOT) (File s)
    (effects execute s) (File (after execute s)).
Proof.
  intros Hsize execute.
  set (n := row_bytes data sizeofOT). set (swap := swap_of s data sizeofOT).
  pose proof (steady_tracked env n swap (File s)) as HI.
  change (tracked env n swap (File s) (snd (execute (mkWorld s [])))).
  assert (H0 : tracked env n swap (File s) (mkWorld s [])) by reflexivity.
  unfold execute, ExecuteDataWithInformation.
  unfold bind at 1, this at 1. cbn [fst snd self].
  destruct (is_null (FileName s) && is_null (FilePattern s)).
  - eapply (tracked_more _ _ _ _ (mkWorld s []));
      [cbn [trace]; reflexivity | reflexivity | exact H0].
  - rewrite bind_snd.
    pose proof (keeps_ComputeDataIncrements _ HI _ H0) as H1.
    pose proof (configuration_ComputeDataIncrements (mkWorld s [])) as Hc.
    destruct (ComputeDataIncrements (mkWorld s [])) as [[] w1].
    cbn [fst snd self] in *.
    assert (Htype : DataScalarType (self w1) = DataScalarType s)
      by (unfold configuration in Hc; congruence).
    assert (Hswap : SwapBytes (self w1) = SwapBytes s)
      by (unfold configuration in Hc; congruence).
    unfold bind at 1, this at 1. cbn [fst snd]. rewrite Htype, Hsize.
    unfold vtkImageReader2Update. cbv zeta.
    fold (row_bytes data sizeofOT). fold n.
    unfold bind at 1, this at 1. cbn [fst snd]. rewrite Hswap.
    fold (swap_of s data sizeofOT). fold swap.
    pose proof (tracked_OpenFile env n swap (File s)).
    pose proof (tracked_read_slices env n swap (File s)).
    match goal with
    | |- tracked _ _ _ _ (snd (?c w1)) =>
        assert (Hk : keeps (tracked env n swap (File s)) c)
          by keeps_with ltac:(steady_side HI)
    end.
    exact (Hk w1 H1).
Qed.

Lemma rows_are_bytes_of_the_file_witness :
  let env := one_file "a.raw" [Byte.x01; Byte.x02] in
  let execute := ExecuteDataWithInformation env one_pixel in
  vtkTemplateMacro_sizeof (DataScalarType a_raw_reader) = Some 2 /\
  follows env (row_bytes one_pixel 2) (swap_of a_raw_reader one_pixel 2)
    (File a_raw_reader) (effects execute a_raw_reader)
    (File (after execute a_raw_reader)).
Proof.
  intros env execute.
  assert (Hsize : vtkTemplateMacro_sizeof (DataScalarType a_raw_reader)
                  = Some 2) by reflexivity.
  split; [exact Hsize |].
  exact (rows_are_bytes_of_the_file env one_pixel a_raw_reader 2 Hsize).
Defined.
